(** * deptyr: a shallow embedding of [deptyr.c]

    The program talks to the kernel all the time, so the embedding is a
    state-and-exit monad over a [world]: the process's own globals
    ([errno], [winch_happened], [verbose]), the chronological [trace] of
    every call the process made together with what it got back, and a
    finite schedule of the answers the kernel will give.  The n-th call of
    a kind receives the n-th answer scheduled for that kind; a process
    whose schedule is exhausted stays blocked in that call.  Loops of the
    source recurse on the schedule they consume, so every definition is
    total and runs by computation.

    Calls are the system calls and C library functions the program uses,
    and the functions of unix_socket.c and platform/ ([connect_server],
    [create_server], [send_file_descriptor], [recv_file_descriptor],
    [get_pt]), of which deptyr.c only sees the [int] they return.  Left out:
    [debug], which nothing calls; the sd_notifyf call compiled under
    WITH_SYSTEMD; fflush(stdout). *)

From Stdlib Require Import ZArith String List Bool Lia.
Import ListNotations.
Local Open Scope list_scope.
Local Open Scope Z_scope.

(** ** Plain data *)

(** What a call hands back: a value, or a failure with the [errno] it sets. *)
Inductive sysret (A : Type) : Type :=
| ok (a : A)
| fail (e : Z).
Arguments ok {A} a.
Arguments fail {A} e.

(** [errno] values of <errno.h>; the program only ever compares against
    [EINTR]. *)
Definition EINTR : Z := 4.
Definition EBADF : Z := 9.
Definition EIO : Z := 5.
Definition ENOTTY : Z := 25.

(** [struct winsize] of <sys/ioctl.h>, fields in declaration order. *)
Record winsize : Type := mk_winsize {
  ws_row : Z;
  ws_col : Z;
  ws_xpixel : Z;
  ws_ypixel : Z
}.

(** [open(2)] flags used by the program. *)
Definition O_RDONLY : Z := 0.
Definition O_WRONLY : Z := 1.

(** Why a process stops running this program. *)
Inductive halt : Type :=
| Died (msg : string)   (* die(): message on stderr, then exit(1) *)
| Replaced              (* execvp succeeded: another program runs now *)
| Uninitialized_socket  (* the value of [socket] was read before any store *)
| Blocked.              (* waiting in a call the schedule has no answer for *)

(** How the body of a [while] loop leaves one iteration. *)
Inductive flow (A R : Type) : Type :=
| Next (a : A)     (* fall off the end of the body, or [continue] *)
| Return (r : R).  (* [return r] out of the enclosing function *)
Arguments Next {A R} a.
Arguments Return {A R} r.

(** What [getopt(argc, argv, "hs:H:V")] hands to the [switch] of [main],
    one item per loop iteration. *)
Inductive getopt_result : Type :=
| opt_h
| opt_V
| opt_s (optarg : string)
| opt_H (optarg : string)
| opt_other.   (* '?' : an unknown option or a missing argument *)

Section Deptyr.

(** [struct termios] and [cfmakeraw] belong to the C library. *)
Context {termios : Type}.
Variable cfmakeraw : termios -> termios.

(** ** Calls and their trace *)

(** Calls that return an [int] and nothing else, with their arguments. *)
Inductive call : Type :=
| c_ioctl_TIOCSWINSZ (fd : Z) (sz : winsize)
| c_sigprocmask_block_SIGWINCH
| c_sigaction_SIGWINCH_do_winch
| c_accept (sock : Z)
| c_recv_file_descriptor (conn : Z)
| c_close (fd : Z)
| c_connect_server (path : string)
| c_create_server (path : string)
| c_get_pt
| c_unlockpt (pty : Z)
| c_grantpt (pty : Z)
| c_send_file_descriptor (sock pty : Z)
| c_setenv (name value : string)
| c_setpgid_0_getppid
| c_setsid
| c_open (path : string) (flags : Z)
| c_dup2 (oldfd newfd : Z)
| c_execvp (argv : list string).

Inductive event : Type :=
| ev_call (c : call) (r : sysret Z)
| ev_tcgetattr (fd : Z) (r : sysret termios)
| ev_tcsetattr (fd : Z) (t : option termios) (r : sysret unit)
    (* [None]: the structure passed was never stored to *)
| ev_ioctl_TIOCGWINSZ (fd : Z) (r : sysret winsize)
| ev_read (fd : Z) (n : Z) (r : sysret (list Byte.byte))
    (* [ok data]: the bytes stored into the buffer *)
| ev_write (fd : Z) (data : list Byte.byte) (r : sysret Z)
    (* [data]: the bytes offered; [ok n]: only the first n were taken *)
| ev_pselect (nfds : Z) (fds : list Z) (winch : bool) (r : sysret (list Z))
    (* [winch]: SIGWINCH was delivered, and do_winch ran, during the wait *)
| ev_ptsname_r (pty : Z) (name : string)
| ev_stderr (format : string) (args : list string)
| ev_stdout (format : string) (args : list string).

(** ** The world *)

Record world : Type := mk_world {
  errno : Z;
  winch_happened : bool;     (* volatile sig_atomic_t winch_happened *)
  verbose : bool;            (* static int verbose *)
  trace : list event;
  q_int : list (sysret Z);
  q_write : list (sysret Z);
  q_tcsetattr : list (sysret unit);
  q_accept : list (sysret Z);
  q_pselect : list (bool * sysret (list Z));
  q_read : list (sysret (list Byte.byte));
  q_tcgetattr : list (sysret termios);
  q_winsz : list (sysret winsize);
  q_ptsname : list string    (* what ptsname_r leaves in the buffer *)
}.

Definition set_errno (e : Z) (w : world) : world :=
  mk_world e (winch_happened w) (verbose w) (trace w) (q_int w) (q_write w)
    (q_tcsetattr w) (q_accept w) (q_pselect w) (q_read w) (q_tcgetattr w)
    (q_winsz w) (q_ptsname w).

Definition set_winch_happened (b : bool) (w : world) : world :=
  mk_world (errno w) b (verbose w) (trace w) (q_int w) (q_write w)
    (q_tcsetattr w) (q_accept w) (q_pselect w) (q_read w) (q_tcgetattr w)
    (q_winsz w) (q_ptsname w).

Definition set_verbose (b : bool) (w : world) : world :=
  mk_world (errno w) (winch_happened w) b (trace w) (q_int w) (q_write w)
    (q_tcsetattr w) (q_accept w) (q_pselect w) (q_read w) (q_tcgetattr w)
    (q_winsz w) (q_ptsname w).

Definition log (e : event) (w : world) : world :=
  mk_world (errno w) (winch_happened w) (verbose w) (trace w ++ [e]) (q_int w)
    (q_write w) (q_tcsetattr w) (q_accept w) (q_pselect w) (q_read w)
    (q_tcgetattr w) (q_winsz w) (q_ptsname w).

Definition set_q_int (q : list (sysret Z)) (w : world) : world :=
  mk_world (errno w) (winch_happened w) (verbose w) (trace w) q (q_write w)
    (q_tcsetattr w) (q_accept w) (q_pselect w) (q_read w) (q_tcgetattr w)
    (q_winsz w) (q_ptsname w).

Definition set_q_write (q : list (sysret Z)) (w : world) : world :=
  mk_world (errno w) (winch_happened w) (verbose w) (trace w) (q_int w) q
    (q_tcsetattr w) (q_accept w) (q_pselect w) (q_read w) (q_tcgetattr w)
    (q_winsz w) (q_ptsname w).

Definition set_q_tcsetattr (q : list (sysret unit)) (w : world) : world :=
  mk_world (errno w) (winch_happened w) (verbose w) (trace w) (q_int w)
    (q_write w) q (q_accept w) (q_pselect w) (q_read w) (q_tcgetattr w)
    (q_winsz w) (q_ptsname w).

Definition set_q_accept (q : list (sysret Z)) (w : world) : world :=
  mk_world (errno w) (winch_happened w) (verbose w) (trace w) (q_int w)
    (q_write w) (q_tcsetattr w) q (q_pselect w) (q_read w) (q_tcgetattr w)
    (q_winsz w) (q_ptsname w).

Definition set_q_pselect (q : list (bool * sysret (list Z))) (w : world)
  : world :=
  mk_world (errno w) (winch_happened w) (verbose w) (trace w) (q_int w)
    (q_write w) (q_tcsetattr w) (q_accept w) q (q_read w) (q_tcgetattr w)
    (q_winsz w) (q_ptsname w).

Definition set_q_read (q : list (sysret (list Byte.byte))) (w : world)
  : world :=
  mk_world (errno w) (winch_happened w) (verbose w) (trace w) (q_int w)
    (q_write w) (q_tcsetattr w) (q_accept w) (q_pselect w) q (q_tcgetattr w)
    (q_winsz w) (q_ptsname w).

Definition set_q_tcgetattr (q : list (sysret termios)) (w : world) : world :=
  mk_world (errno w) (winch_happened w) (verbose w) (trace w) (q_int w)
    (q_write w) (q_tcsetattr w) (q_accept w) (q_pselect w) (q_read w) q
    (q_winsz w) (q_ptsname w).

Definition set_q_winsz (q : list (sysret winsize)) (w : world) : world :=
  mk_world (errno w) (winch_happened w) (verbose w) (trace w) (q_int w)
    (q_write w) (q_tcsetattr w) (q_accept w) (q_pselect w) (q_read w)
    (q_tcgetattr w) q (q_ptsname w).

Definition set_q_ptsname (q : list string) (w : world) : world :=
  mk_world (errno w) (winch_happened w) (verbose w) (trace w) (q_int w)
    (q_write w) (q_tcsetattr w) (q_accept w) (q_pselect w) (q_read w)
    (q_tcgetattr w) (q_winsz w) q.

(** ** The monad *)

Inductive res (A : Type) : Type :=
| Val (a : A) (w : world)
| Halt (h : halt) (w : world).
Arguments Val {A} a w.
Arguments Halt {A} h w.

Definition M (A : Type) : Type := world -> res A.

Definition ret {A} (a : A) : M A := fun w => Val a w.

Definition bind {A B} (m : M A) (k : A -> M B) : M B :=
  fun w => match m w with
           | Val a w' => k a w'
           | Halt h w' => Halt h w'
           end.

Notation "x <- m ;; k" := (bind m (fun x => k))
  (at level 61, m at next level, right associativity).
Notation "m ;; k" := (bind m (fun _ => k))
  (at level 61, right associativity).

Definition stop {A} (h : halt) : M A := fun w => Halt h w.
Definition get_errno : M Z := fun w => Val (errno w) w.
Definition put_errno (e : Z) : M unit := fun w => Val tt (set_errno e w).
Definition emit (e : event) : M unit := fun w => Val tt (log e w).

Definition world_of {A} (r : res A) : world :=
  match r with Val _ w => w | Halt _ w => w end.

(** ** The calls

    A failing call returns -1 and stores its [errno]; a successful one
    leaves [errno] alone. *)

Definition answer {A} (r : sysret A) (v : A -> Z) : M Z :=
  match r with
  | ok a => ret (v a)
  | fail e => put_errno e ;; ret (-1)
  end.

Definition sys_int (c : call) : M Z := fun w =>
  match q_int w with
  | [] => Halt Blocked w
  | r :: q => (emit (ev_call c r) ;; answer r (fun n => n)) (set_q_int q w)
  end.

Definition tcsetattr_answer (r : sysret unit) (fd : Z) (t : option termios)
  : M Z :=
  emit (ev_tcsetattr fd t r) ;; answer r (fun _ => 0).

Definition sys_tcsetattr (fd : Z) (t : option termios) : M Z := fun w =>
  match q_tcsetattr w with
  | [] => Halt Blocked w
  | r :: q => tcsetattr_answer r fd t (set_q_tcsetattr q w)
  end.

(** [tcgetattr(fd, save)]: on success the attributes stored into [*save]. *)
Definition sys_tcgetattr (fd : Z) : M (sysret termios) := fun w =>
  match q_tcgetattr w with
  | [] => Halt Blocked w
  | r :: q =>
      (emit (ev_tcgetattr fd r) ;;
       match r with
       | ok t => ret (ok t)
       | fail e => put_errno e ;; ret (fail e)
       end) (set_q_tcgetattr q w)
  end.

(** [ioctl(fd, TIOCGWINSZ, &sz)]. *)
Definition sys_ioctl_TIOCGWINSZ (fd : Z) : M (sysret winsize) := fun w =>
  match q_winsz w with
  | [] => Halt Blocked w
  | r :: q =>
      (emit (ev_ioctl_TIOCGWINSZ fd r) ;;
       match r with
       | ok sz => ret (ok sz)
       | fail e => put_errno e ;; ret (fail e)
       end) (set_q_winsz q w)
  end.

(** [buf] after [data] was stored at its start. *)
Definition store (data buf : list Byte.byte) : list Byte.byte :=
  data ++ skipn (length data) buf.

(** [read(fd, buf, n)] answered by [r]: the count returned and the buffer
    afterwards.  The kernel stores at most [n] bytes. *)
Definition read_answer (r : sysret (list Byte.byte)) (fd : Z)
  (buf : list Byte.byte) (n : Z) : M (Z * list Byte.byte) :=
  match r with
  | ok d =>
      let data := firstn (Z.to_nat n) d in
      emit (ev_read fd n (ok data)) ;;
      ret (Z.of_nat (length data), store data buf)
  | fail e => emit (ev_read fd n (fail e)) ;; put_errno e ;; ret (-1, buf)
  end.

Definition sys_read (fd : Z) (buf : list Byte.byte) (n : Z)
  : M (Z * list Byte.byte) := fun w =>
  match q_read w with
  | [] => Halt Blocked w
  | r :: q => read_answer r fd buf n (set_q_read q w)
  end.

(** [write(fd, buf, count)] answered by [r]: a successful write takes
    between 0 and [count] bytes from the start of [buf]. *)
Definition write_answer (r : sysret Z) (fd : Z) (buf : list Byte.byte)
  (count : Z) : M Z :=
  let data := firstn (Z.to_nat count) buf in
  match r with
  | ok n =>
      let rv := Z.max 0 (Z.min n count) in
      emit (ev_write fd data (ok rv)) ;; ret rv
  | fail e => emit (ev_write fd data (fail e)) ;; put_errno e ;; ret (-1)
  end.

Definition fd_isset (fd : Z) (set : list Z) : bool :=
  existsb (Z.eqb fd) set.

(** An [fd_set] of <sys/select.h> has one bit for each descriptor from 0 to
    FD_SETSIZE - 1, and FD_SET and FD_ISSET are defined for those only.  The
    list of descriptors that stands for the set here says what the code
    does for descriptors in that range; what is proved of the loop of
    [do_proxy] is proved for such a [pty]. *)
Definition FD_SETSIZE : Z := 1024.

Definition in_fd_set (fd : Z) : Prop := 0 <= fd < FD_SETSIZE.

(** [pselect(nfds, &set, NULL, NULL, NULL, &select_mask)] answered by [a]:
    the return value and the descriptor set afterwards.  SIGWINCH is
    unblocked only inside this call, so this is where do_winch runs.  The
    kernel reports only descriptors that were asked for. *)
Definition pselect_answer (a : bool * sysret (list Z)) (nfds : Z)
  (set : list Z) : M (Z * list Z) := fun w =>
  let w1 := log (ev_pselect nfds set (fst a) (snd a)) w in
  let w2 := if fst a then set_winch_happened true w1 else w1 in
  match snd a with
  | ok ready =>
      let out := filter (fun fd => fd_isset fd ready) set in
      Val (Z.of_nat (length out), out) w2
  | fail e => Val (-1, set) (set_errno e w2)
  end.

(** Output is recorded as the format string with its string arguments;
    [%m] stands for the message of the current [errno]. *)
Definition fprintf_stderr (format : string) (args : list string) : M unit :=
  emit (ev_stderr format args).
Definition printf (format : string) (args : list string) : M unit :=
  emit (ev_stdout format args).

(** ** deptyr.c *)

(** [die]: [_debug] writes the prefix, the message and a newline to stderr,
    which is recorded as one event holding the prefix and the message (the
    newline is not recorded); then [exit(1)]. *)
Definition die {A} (msg : string) : M A :=
  fprintf_stderr (String.append "[!] " msg) [] ;; stop (Died msg).

(** [setup_raw(save)]: returns the contents of [*save] afterwards; [None]
    is a [struct termios] nothing was ever stored to. *)
Definition setup_raw (save : option termios) : M (option termios) :=
  r <- sys_tcgetattr 0 ;;
  match r with
  | fail _ =>
      fprintf_stderr "Unable to read terminal attributes: %m" [] ;;
      ret save
  | ok t =>
      let set := cfmakeraw t in
      rv <- sys_tcsetattr 0 (Some set) ;;
      if rv <? 0 then die "Unable to set terminal attributes: %m"
      else ret (Some t)
  end.

Definition defaultsize : winsize := mk_winsize 30 80 640 480.

Definition resize_pty (pty : Z) : M unit :=
  r <- sys_ioctl_TIOCGWINSZ 0 ;;
  match r with
  | fail _ =>
      rv <- sys_int (c_ioctl_TIOCSWINSZ pty defaultsize) ;;
      (if rv <? 0 then fprintf_stderr "Cannot set terminal size\n" []
       else ret tt)
  | ok sz =>
      sys_int (c_ioctl_TIOCSWINSZ pty sz) ;; ret tt
  end.

(** The loop of [writeall], with the answers scheduled for write(2). *)
Fixpoint writeall_loop (q : list (sysret Z)) (fd : Z) (buf : list Byte.byte)
  (count : Z) (w : world) {struct q} : res Z :=
  if 0 <? count then
    match q with
    | [] => Halt Blocked w
    | r :: q' =>
        match write_answer r fd buf count (set_q_write q' w) with
        | Val rv w1 =>
            if rv <? 0 then
              if errno w1 =? EINTR then writeall_loop q' fd buf count w1
              else Val rv w1
            else
              writeall_loop q' fd (skipn (Z.to_nat rv) buf) (count - rv) w1
        | Halt h w1 => Halt h w1
        end
    end
  else Val 0 w.

Definition writeall (fd : Z) (buf : list Byte.byte) (count : Z) : M Z :=
  fun w => writeall_loop (q_write w) fd buf count w.

(** [sizeof buf] for the [char buf[4096]] of [do_proxy]. *)
Definition sizeof_buf : Z := 4096.

(** [do_winch] runs inside [pselect_answer]; this is the test at the top of
    the loop of [do_proxy]. *)
Definition proxy_winch (pty : Z) : M unit := fun w =>
  if winch_happened w then resize_pty pty (set_winch_happened false w)
  else Val tt w.

(** [if (FD_ISSET(0, &set)) { ... }] *)
Definition proxy_stdin (pty : Z) (set : list Z) (buf : list Byte.byte)
  : M (flow (list Byte.byte) unit) :=
  if fd_isset 0 set then
    r <- sys_read 0 buf sizeof_buf ;;
    let '(count, buf1) := r in
    if count <? 0 then ret (Return tt)
    else writeall pty buf1 count ;; ret (Next buf1)
  else ret (Next buf).

(** [if (FD_ISSET(pty, &set)) { ... }] *)
Definition proxy_pty (pty : Z) (set : list Z) (buf : list Byte.byte)
  : M (flow (list Byte.byte) unit) :=
  if fd_isset pty set then
    r <- sys_read pty buf sizeof_buf ;;
    let '(count, buf1) := r in
    if count <=? 0 then ret (Return tt)
    else writeall 1 buf1 count ;; ret (Next buf1)
  else ret (Next buf).

(** One pass through the body of [while (1)] from FD_ZERO on, the pselect
    being answered by [a].  [FD_SET(0, &set); FD_SET(pty, &set)] is the list
    [[0; pty]], for [pty] inside the set ([in_fd_set]). *)
Definition proxy_body (a : bool * sysret (list Z)) (pty : Z)
  (buf : list Byte.byte) : M (flow (list Byte.byte) unit) :=
  r <- pselect_answer a (pty + 1) [0; pty] ;;
  let '(rv, set) := r in
  if rv <? 0 then
    e <- get_errno ;;
    if e =? EINTR then ret (Next buf)
    else fprintf_stderr "select: %m" [] ;; ret (Return tt)
  else
    f <- proxy_stdin pty set buf ;;
    match f with
    | Return r => ret (Return r)
    | Next buf1 => proxy_pty pty set buf1
    end.

Fixpoint proxy_loop (q : list (bool * sysret (list Z))) (pty : Z)
  (buf : list Byte.byte) (w : world) {struct q} : res unit :=
  match proxy_winch pty w with
  | Halt h w1 => Halt h w1
  | Val _ w1 =>
      match q with
      | [] => Halt Blocked w1
      | a :: q' =>
          match proxy_body a pty buf (set_q_pselect q' w1) with
          | Val (Next buf1) w2 => proxy_loop q' pty buf1 w2
          | Val (Return r) w2 => Val r w2
          | Halt h w2 => Halt h w2
          end
      end
  end.

(** [char buf[4096]]; nothing reads it before a read(2) stored into it. *)
Definition buf0 : list Byte.byte := repeat Byte.x00 (Z.to_nat sizeof_buf).

Definition do_proxy (pty : Z) : M unit :=
  rv <- sys_int c_sigprocmask_block_SIGWINCH ;;
  if rv =? -1 then fprintf_stderr "sigprocmask: %m" [] ;; ret tt
  else
    sys_int c_sigaction_SIGWINCH_do_winch ;;
    resize_pty pty ;;
    (fun w => proxy_loop (q_pselect w) pty buf0 w).

Definition usage (me : string) : M unit :=
  fprintf_stderr "Usage: %s -s socket CMD\n" [me] ;;
  fprintf_stderr "       %s -S socket\n" [me] ;;
  fprintf_stderr
    "  -H Act as the head: Proxy input and output to the program\n" [] ;;
  fprintf_stderr
    "  -s Connect to a running proxy and exec the program\n" [] ;;
  fprintf_stderr "\n" [].

(** The variable [socket] of [main]: [None] until a first store. *)
Definition read_socket (socket : option Z) : M Z :=
  match socket with
  | Some s => ret s
  | None => stop Uninitialized_socket
  end.

(** The [while ((opt = getopt(...)) != -1) switch (opt)] of [main], over the
    options getopt delivers; it carries [socket] and [act_as_proxy]. *)
Fixpoint getopt_loop (me : string) (opts : list getopt_result)
  (socket : option Z) (act_as_proxy : bool) {struct opts}
  : M (flow (option Z * bool) Z) :=
  match opts with
  | [] => ret (Next (socket, act_as_proxy))
  | opt_h :: _ => usage me ;; ret (Return 0)
  | opt_V :: rest =>
      (fun w => Val tt (set_verbose true w)) ;;
      getopt_loop me rest socket act_as_proxy
  | opt_s optarg :: rest =>
      s <- sys_int (c_connect_server optarg) ;;
      getopt_loop me rest (Some s) act_as_proxy
  | opt_H optarg :: rest =>
      s <- sys_int (c_create_server optarg) ;;
      getopt_loop me rest (Some s) true
  | opt_other :: _ => usage me ;; ret (Return 1)
  end.

(** The [do { ... } while (errno == EINTR)] after [do_proxy]. *)
Fixpoint restore_loop (q : list (sysret unit)) (saved : option termios)
  (w : world) {struct q} : res unit :=
  match q with
  | [] => Halt Blocked w
  | r :: q' =>
      match (put_errno 0 ;;
             rv <- tcsetattr_answer r 0 saved ;;
             e <- get_errno ;;
             (if negb (rv =? 0) && negb (e =? EINTR)
              then die "Unable to tcsetattr: %m" else ret tt) ;;
             get_errno) (set_q_tcsetattr q' w) with
      | Val e w1 => if e =? EINTR then restore_loop q' saved w1 else Val tt w1
      | Halt h w1 => Halt h w1
      end
  end.

Definition restore (saved : option termios) : M unit :=
  fun w => restore_loop (q_tcsetattr w) saved w.

(** From [setup_raw(&saved_termios)] to [close(pty)] in the accept loop; it
    returns [saved_termios]. *)
Definition proxy_session (pty : Z) (saved : option termios)
  : M (option termios) :=
  saved1 <- setup_raw saved ;;
  do_proxy pty ;;
  restore saved1 ;;
  sys_int (c_close pty) ;;
  ret saved1.

(** The body of the accept loop. *)
Definition session (connection : Z) (saved : option termios)
  : M (option termios) :=
  pty <- sys_int (c_recv_file_descriptor connection) ;;
  (if pty <? 0 then die "Oof, didn't get a child FD: %m" else ret tt) ;;
  rv <- sys_int (c_close connection) ;;
  (if rv <? 0 then die "close: %m" else ret tt) ;;
  proxy_session pty saved.

Definition accept_answer (r : sysret Z) (socket : Z) : M Z :=
  emit (ev_call (c_accept socket) r) ;; answer r (fun n => n).

Fixpoint head_loop (q : list (sysret Z)) (socket : option Z)
  (saved : option termios) (w : world) {struct q} : res Z :=
  match q with
  | [] =>
      match read_socket socket w with
      | Val _ w1 => Halt Blocked w1
      | Halt h w1 => Halt h w1
      end
  | r :: q' =>
      match (s <- read_socket socket ;; accept_answer r s)
              (set_q_accept q' w) with
      | Val connection w1 =>
          if 0 <=? connection then
            match session connection saved w1 with
            | Val saved1 w2 => head_loop q' socket saved1 w2
            | Halt h w2 => Halt h w2
            end
          else die "accept: %m" w1
      | Halt h w1 => Halt h w1
      end
  end.

Definition sys_ptsname_r (pty : Z) : M string := fun w =>
  match q_ptsname w with
  | [] => Halt Blocked w
  | name :: q => (emit (ev_ptsname_r pty name) ;; ret name) (set_q_ptsname q w)
  end.

(** [execvp] returns only when it failed. *)
Definition sys_execvp (argv : list string) : M Z := fun w =>
  match q_int w with
  | [] => Halt Blocked w
  | r :: q =>
      (emit (ev_call (c_execvp argv) r) ;;
       match r with
       | ok _ => stop Replaced
       | fail e => put_errno e ;; ret (-1)
       end) (set_q_int q w)
  end.

(** From setenv to the end of the [else] branch of [main]. *)
Definition redirect_and_exec (pty : Z) (ptyname : string) (cmd : list string)
  : M Z :=
  sys_int (c_setenv "REPTYR_PTY" ptyname) ;;
  sys_int c_setpgid_0_getppid ;;
  sys_int c_setsid ;;
  f <- sys_int (c_open ptyname O_RDONLY) ;;
  sys_int (c_dup2 f 0) ;;
  sys_int (c_close f) ;;
  f <- sys_int (c_open ptyname O_WRONLY) ;;
  sys_int (c_dup2 f 1) ;;
  sys_int (c_dup2 f 2) ;;
  sys_int (c_close f) ;;
  sys_int (c_close pty) ;;
  sys_execvp cmd ;;
  die "execvp failed: %m".

(** The [else] branch of [main]. *)
Definition attacher (socket : option Z) (cmd : list string) : M Z :=
  pty <- sys_int c_get_pt ;;
  (if pty <? 0 then die "Unable to allocate a new pseudo-terminal: %m"
   else ret tt) ;;
  rv <- sys_int (c_unlockpt pty) ;;
  (if rv <? 0 then die "Unable to unlockpt: %m" else ret tt) ;;
  rv <- sys_int (c_grantpt pty) ;;
  (if rv <? 0 then die "Unable to grantpt: %m" else ret tt) ;;
  ptyname <- sys_ptsname_r pty ;;
  printf "Opened a new pty: %s\n" [ptyname] ;;
  s <- read_socket socket ;;
  rv <- sys_int (c_send_file_descriptor s pty) ;;
  (if rv <? 0 then die "Unable to send the master handle: %m" else ret tt) ;;
  redirect_and_exec pty ptyname cmd.

(** [main]: [me] is argv[0], [opts] what getopt delivers, [cmd] the
    arguments from argv[optind] on (empty when optind >= argc). *)
Definition main (me : string) (opts : list getopt_result) (cmd : list string)
  : M Z :=
  f <- getopt_loop me opts None false ;;
  match f with
  | Return code => ret code
  | Next (socket, act_as_proxy) =>
      if negb act_as_proxy && (match cmd with [] => true | _ => false end)
      then
        fprintf_stderr "%s: No command specified\n" [me] ;;
        usage me ;;
        ret 1
      else if act_as_proxy then
        (fun w => head_loop (q_accept w) socket None w)
      else attacher socket cmd
  end.

(** ** Reading a trace *)

(** The bytes that successful writes on [fd] took, in order. *)
Fixpoint written (fd : Z) (evs : list event) : list Byte.byte :=
  match evs with
  | [] => []
  | ev_write fd' data (ok n) :: rest =>
      (if fd' =? fd then firstn (Z.to_nat n) data else []) ++ written fd rest
  | _ :: rest => written fd rest
  end.

(** A write on [fd] after which [writeall] goes on: it took some bytes
    (possibly none), or it was interrupted. *)
Definition goes_on (fd : Z) (e : event) : bool :=
  match e with
  | ev_write fd' _ (ok _) => fd' =? fd
  | ev_write fd' _ (fail e) => (fd' =? fd) && (e =? EINTR)
  | _ => false
  end.

Definition is_tcsetattr (e : event) : bool :=
  match e with
  | ev_tcsetattr _ _ _ => true
  | _ => false
  end.

(** Each write on [fd] is offered exactly what is left of [goal]. *)
Fixpoint resumes (fd : Z) (goal : list Byte.byte) (evs : list event) : Prop :=
  match evs with
  | [] => True
  | ev_write fd' data r :: rest =>
      fd' = fd /\ data = goal /\
      resumes fd
        (match r with ok n => skipn (Z.to_nat n) goal | fail _ => goal end)
        rest
  | _ :: _ => False
  end.

(** Some size was applied to [pty]. *)
Definition applies_size (pty : Z) (evs : list event) : bool :=
  existsb (fun e => match e with
                    | ev_call (c_ioctl_TIOCSWINSZ fd _) _ => fd =? pty
                    | _ => false
                    end) evs.

(** A world in which nothing happened yet and nothing is scheduled. *)
Definition idle : world :=
  mk_world 0 false false [] [] [] [] [] [] [] [] [] [].

(** The value a call answered by [r] returns. *)
Definition returned (r : sysret Z) : Z :=
  match r with
  | ok n => n
  | fail _ => -1
  end.

(** The world after the call [c] was answered by [r], [q] being the rest of
    the schedule. *)
Definition after_int (c : call) (r : sysret Z) (q : list (sysret Z))
  (w : world) : world :=
  let w1 := log (ev_call c r) (set_q_int q w) in
  match r with
  | ok _ => w1
  | fail e => set_errno e w1
  end.

(** The result [r] of a run started in [w]: the run only added events
    satisfying [P] to the trace, and stopped the process only in the ways
    [D] allows. *)
Definition run_ok_from (P : event -> Prop) (D : halt -> Prop) {A}
  (w : world) (r : res A) : Prop :=
  (exists evs, trace (world_of r) = trace w ++ evs /\ Forall P evs) /\
  (forall h w', r = Halt h w' -> D h).

Definition run_ok (P : event -> Prop) (D : halt -> Prop) {A} (m : M A)
  : Prop :=
  forall w, run_ok_from P D w (m w).

(** No constraint on what is added to the trace, or on how the process
    stops. *)
Definition any_event (e : event) : Prop := True.
Definition any_halt (h : halt) : Prop := True.

(** [k] calls of tcsetattr with [saved], each interrupted by a signal. *)
Definition interrupted (saved : option termios) (k : nat) : list event :=
  repeat (ev_tcsetattr 0 saved (fail EINTR)) k.

(** A read that [proxy_pty] takes as the end of the session. *)
Definition eof_or_error (r : sysret (list Byte.byte)) : bool :=
  match r with
  | ok [] => true
  | ok (_ :: _) => false
  | fail _ => true
  end.

(** What one run of [writeall] on [fd] leaves in the trace, and what it
    returns ([None]: still blocked in write(2)). [goal] is what is left to
    write when the run starts. *)
Definition writeall_outcome (fd : Z) (goal : list Byte.byte)
  (evs : list event) (rv : option Z) : Prop :=
  match rv with
  | Some rv =>
      (rv = 0 /\ Forall (fun e => goes_on fd e = true) evs /\
       written fd evs = goal)
      \/
      (rv < 0 /\
       exists evs0 rest e,
         evs = evs0 ++ [ev_write fd rest (fail e)] /\ e <> EINTR /\
         Forall (fun e => goes_on fd e = true) evs0 /\
         rest <> [] /\ written fd evs0 ++ rest = goal)
  | None =>
      Forall (fun e => goes_on fd e = true) evs /\
      exists rest, rest <> [] /\ written fd evs ++ rest = goal
  end.

(** ** More ways to read a run *)

(** What [main] does with the result of the option loop. *)
Definition main_rest (me : string) (cmd : list string)
  (f : flow (option Z * bool) Z) : M Z :=
  match f with
  | Return code => ret code
  | Next (socket, act_as_proxy) =>
      if negb act_as_proxy && (match cmd with [] => true | _ => false end)
      then
        fprintf_stderr "%s: No command specified\n" [me] ;;
        usage me ;;
        ret 1
      else if act_as_proxy then
        (fun w => head_loop (q_accept w) socket None w)
      else attacher socket cmd
  end.

(** The five lines of [usage]. *)
Definition usage_lines (me : string) : list event :=
  [ev_stderr "Usage: %s -s socket CMD\n" [me];
   ev_stderr "       %s -S socket\n" [me];
   ev_stderr
     "  -H Act as the head: Proxy input and output to the program\n" [];
   ev_stderr "  -s Connect to a running proxy and exec the program\n" [];
   ev_stderr "\n" []].

(** Options on which the option loop goes round. *)
Definition loops_on (o : getopt_result) : bool :=
  match o with
  | opt_V | opt_s _ | opt_H _ => true
  | opt_h | opt_other => false
  end.

(** Options that store to [socket]. *)
Definition opens_socket (o : getopt_result) : bool :=
  match o with
  | opt_s _ | opt_H _ => true
  | _ => false
  end.

Definition is_opt_H (o : getopt_result) : bool :=
  match o with
  | opt_H _ => true
  | _ => false
  end.

(** The calls the options [opts] make when answered by [rs], in order. *)
Fixpoint option_calls (opts : list getopt_result) (rs : list (sysret Z))
  : list event :=
  match opts, rs with
  | opt_V :: rest, _ => option_calls rest rs
  | opt_s optarg :: rest, r :: rs' =>
      ev_call (c_connect_server optarg) r :: option_calls rest rs'
  | opt_H optarg :: rest, r :: rs' =>
      ev_call (c_create_server optarg) r :: option_calls rest rs'
  | _, _ => []
  end.

(** [socket] after stores of what the calls answered by [rs] returned. *)
Definition socket_after (rs : list (sysret Z)) (socket : option Z)
  : option Z :=
  last (map (fun r => Some (returned r)) rs) socket.

Definition is_val {A} (r : res A) : bool :=
  match r with
  | Val _ _ => true
  | Halt _ _ => false
  end.

Definition is_prefix (p l : list Byte.byte) : Prop :=
  exists rest, p ++ rest = l.

(** What the successful reads on [fd] delivered, read by read. *)
Fixpoint chunks_read (fd : Z) (evs : list event) : list (list Byte.byte) :=
  match evs with
  | [] => []
  | ev_read fd' _ (ok data) :: rest =>
      if fd' =? fd then data :: chunks_read fd rest else chunks_read fd rest
  | _ :: rest => chunks_read fd rest
  end.

(** A write that failed for another reason than an interruption. *)
Definition fatal_write (e : event) : bool :=
  match e with
  | ev_write _ _ (fail e) => negb (e =? EINTR)
  | _ => false
  end.

(** Neither a read nor a write. *)
Definition no_transfer (e : event) : bool :=
  match e with
  | ev_read _ _ _ | ev_write _ _ _ => false
  | _ => true
  end.

(** The calls [do_proxy] makes on behalf of the descriptor [pty]. *)
Definition proxy_event (pty : Z) (e : event) : bool :=
  match e with
  | ev_call c_sigprocmask_block_SIGWINCH _ => true
  | ev_call c_sigaction_SIGWINCH_do_winch _ => true
  | ev_call (c_ioctl_TIOCSWINSZ fd _) _ => fd =? pty
  | ev_call _ _ => false
  | ev_ioctl_TIOCGWINSZ fd _ => fd =? 0
  | ev_read fd n _ => ((fd =? 0) || (fd =? pty)) && (n =? sizeof_buf)
  | ev_write fd _ _ => (fd =? pty) || (fd =? 1)
  | ev_pselect nfds fds _ _ =>
      (nfds =? pty + 1) &&
      match fds with
      | [a; b] => (a =? 0) && (b =? pty)
      | _ => false
      end
  | ev_stderr _ _ => true
  | _ => false
  end.

(** Calls of [do_proxy] that transfer nothing. *)
Definition aside (pty : Z) (e : event) : Prop :=
  proxy_event pty e = true /\ no_transfer e = true.

(** The bytes written to [dst] in [evs] come from the reads on [src]: read
    by read, a prefix of what was read was written, in order; and in a run
    that [complete]d without a fatal write, all of it. *)
Definition relayed (src dst : Z) (complete : bool) (evs : list event)
  : Prop :=
  (exists parts,
     Forall2 is_prefix parts (chunks_read src evs) /\
     written dst evs = concat parts) /\
  (complete = true ->
   forallb (fun e => negb (fatal_write e)) evs = true ->
   written dst evs = concat (chunks_read src evs)).

(** What a stretch [evs] of a run of [do_proxy] on [pty] looks like. *)
Definition proxy_run (pty : Z) (complete : bool) (evs : list event) : Prop :=
  Forall (fun e => proxy_event pty e = true) evs /\
  (pty <> 0 -> pty <> 1 ->
   relayed 0 pty complete evs /\ relayed pty 1 complete evs).

(** The result [r] of a run started in [w] added a stretch [R] accepts to
    the trace, and stopped the process only by blocking. *)
Definition runs_from (R : bool -> list event -> Prop) {A} (w : world)
  (r : res A) : Prop :=
  (exists evs, trace (world_of r) = trace w ++ evs /\ R (is_val r) evs) /\
  (forall h w', r = Halt h w' -> h = Blocked).

Definition runs (R : bool -> list event -> Prop) {A} (m : M A) : Prop :=
  forall w, runs_from R w (m w).

(** Every way of stopping but the read of the unset [socket]. *)
Definition defined_halt (h : halt) : Prop := h <> Uninitialized_socket.

(** ** The end of a session *)

(** The computation [m] leaves the part [f] of the world as it was. *)
Definition keeps {X} (f : world -> X) {A} (m : M A) : Prop :=
  forall w, f (world_of (m w)) = f w.

(** A schedule that [do_proxy] draws on has run out. *)
Definition starved (w : world) : Prop :=
  q_int w = [] \/ q_winsz w = [] \/ q_pselect w = [] \/ q_read w = [] \/
  q_write w = [].

(** The computation [m] stops the process only by waiting in a call whose
    schedule has run out. *)
Definition waits {A} (m : M A) : Prop :=
  forall w h w', m w = Halt h w' -> h = Blocked /\ starved w'.

(** A read on [pty] that delivered nothing, or failed. *)
Definition pty_closed (pty : Z) (e : event) : bool :=
  match e with
  | ev_read fd _ r => (fd =? pty) && eof_or_error r
  | _ => false
  end.

Definition pty_open (pty : Z) (e : event) : Prop := pty_closed pty e = false.

(** In the stretch [evs] of a run, a read that found [pty] closed is the
    last event, and the run has [returned]. *)
Fixpoint ends_there (pty : Z) (returned : bool) (evs : list event) : bool :=
  match evs with
  | [] => true
  | e :: rest =>
      if pty_closed pty e
      then returned && match rest with [] => true | _ :: _ => false end
      else ends_there pty returned rest
  end.

Definition returns {A R} (r : res (flow A R)) : bool :=
  match r with
  | Val (Return _) _ => true
  | _ => false
  end.

(** The result [r] of a pass of the loop of [do_proxy] started in [w]: only
    a pass that returns has found [pty] closed, in its last read; a pass
    that stops the process is blocked in a call. *)
Definition pass_from (pty : Z) {A R} (w : world) (r : res (flow A R))
  : Prop :=
  (exists evs : list event,
     trace (world_of r) = trace w ++ evs /\
     (if returns r then ends_there pty true evs = true
      else Forall (pty_open pty) evs)) /\
  (forall h w', r = Halt h w' -> h = Blocked).

End Deptyr.

Arguments Val {termios A} a w.
Arguments Halt {termios A} h w.

(** * Concrete runs

    Schedules on which the definitions are run by computation.  The
    terminal attributes are stood for by one word of flags, and
    [cfmakeraw] by the setting of its lowest bit. *)

Module Scenario.

Import Byte.

Definition tty_raw (t : Z) : Z := Z.lor t 1.

Definition ENOENT : Z := 2.

Definition sz_24x132 : winsize := mk_winsize 24 132 0 0.

(** write(2) takes one byte, is interrupted, then takes two. *)
Definition w_short_writes : @world unit :=
  set_q_write [ok 1; fail EINTR; ok 2] idle.


(** [do_proxy] on descriptor 5: standard input delivers one byte whose write
    fails with EIO; on the next pass the pseudo-terminal is at end of
    file. *)
Definition w_proxy_write_fails : @world unit :=
  set_q_int [ok 0; ok 0; ok 0]
    (set_q_winsz [ok sz_24x132]
       (set_q_pselect [(false, ok [0]); (false, ok [5])]
          (set_q_read [ok [x61]; ok []]
             (set_q_write [fail EIO] idle)))).

(** A session on descriptor 5 in which raw mode is entered, the
    pseudo-terminal is at end of file at once, and the first restoring
    tcsetattr is interrupted. *)
Definition w_session : @world Z :=
  set_q_tcgetattr [ok 10]
    (set_q_tcsetattr [ok tt; fail EINTR; ok tt]
       (set_q_int [ok 0; ok 0; ok 0; ok 0]
          (set_q_winsz [ok sz_24x132]
             (set_q_pselect [(false, ok [5])]
                (set_q_read [ok []] idle))))).

(** The same session when standard input is not a terminal. *)
Definition w_session_notty : @world Z :=
  set_q_tcgetattr [fail ENOTTY]
    (set_q_tcsetattr [ok tt]
       (set_q_int [ok 0; ok 0; ok 0; ok 0]
          (set_q_winsz [fail ENOTTY]
             (set_q_pselect [(false, ok [5])]
                (set_q_read [ok []] idle))))).

(** The size query fails because standard input is not a terminal. *)
Definition w_winsz_notty : @world unit :=
  set_q_winsz [fail ENOTTY] (set_q_int [ok 0] idle).

(** The size query fails with EBADF. *)
Definition w_winsz_ebadf : @world unit :=
  set_q_winsz [fail EBADF] (set_q_int [ok 0] idle).

(** The pseudo-terminal is at end of file. *)
Definition w_pty_eof : @world Z := set_q_read [ok []] idle.

(** A head listening on socket 3: it accepts connection 7, receives
    descriptor 5, relays "hi" from the pseudo-terminal to standard output,
    sees it close, and accepts again. *)
Definition w_head_listening : @world Z :=
  set_q_accept [ok 7; fail EBADF]
    (set_q_int [ok 5; ok 0; ok 0; ok 0; ok 0; ok 0]
       (set_q_tcgetattr [ok 10]
          (set_q_tcsetattr [ok tt; ok tt]
             (set_q_winsz [ok sz_24x132]
                (set_q_pselect [(false, ok [5]); (false, ok [5])]
                   (set_q_read [ok [x68; x69]; ok []]
                      (set_q_write [ok 2] idle))))))).

(** The same head before [create_server]. *)
Definition w_head : @world Z :=
  set_q_int [ok 3; ok 5; ok 0; ok 0; ok 0; ok 0; ok 0] w_head_listening.

(** The world of [w_head_listening] after its first accept, *)
Definition w_head_accepted : @world Z :=
  log (ev_call (c_accept 3) (ok 7))
    (set_q_accept [fail EBADF] w_head_listening).

(** after the descriptor was received and the connection closed, *)
Definition w_head_session : @world Z :=
  world_of
    (bind (sys_int (c_recv_file_descriptor 7))
       (fun _ => sys_int (c_close 7)) w_head_accepted).

(** once [setup_raw] returned, *)
Definition w_head_raw : @world Z :=
  world_of (setup_raw tty_raw None w_head_session).

(** once [do_proxy] returned, *)
Definition w_head_done : @world Z := world_of (do_proxy 5 w_head_raw).

(** and at the end of the session. *)
Definition w_head_closed : @world Z :=
  world_of (session tty_raw 7 None w_head_accepted).


(** The read on standard input fails. *)
Definition w_stdin_error : @world unit := set_q_read [fail EIO] idle.

(** An attacher whose pseudo-terminal is allocated as descriptor 4. *)
Definition w_attacher : @world Z :=
  set_q_int [ok 4; ok 0; ok 0] (set_q_ptsname ["/dev/pts/3"%string] idle).

(** Every call between setenv and execvp fails that can. *)
Definition w_redirect_fails : @world unit :=
  set_q_int
    [ok 0; ok 0; ok 0; fail ENOENT; fail EBADF; fail EBADF; fail ENOENT;
     fail EBADF; fail EBADF; fail EBADF; ok 0; ok 0] idle.

Definition EINVAL : Z := 22.

(** The size query succeeds; setting the size fails. *)
Definition w_winsz_ok : @world unit :=
  set_q_winsz [ok sz_24x132] (set_q_int [fail EBADF] idle).

(** Three writes that each take at least one byte. *)
Definition w_eager_writes : @world unit :=
  set_q_write [ok 1; ok 5; ok 1] idle.

(** sigprocmask fails. *)
Definition w_sigprocmask_fails : @world unit :=
  set_q_int [fail EINVAL] idle.

(** The pseudo-terminal delivers "hi", written in one write. *)
Definition w_pty_hi : @world unit :=
  set_q_read [ok [x68; x69]] (set_q_write [ok 2] idle).

(** [do_proxy] on descriptor 5: "a" goes from standard input to the
    pseudo-terminal and "hi" comes back, byte by byte; then the
    pseudo-terminal is at end of file. *)
Definition w_relay : @world unit :=
  set_q_int [ok 0; ok 0; ok 0]
    (set_q_winsz [ok sz_24x132]
       (set_q_pselect [(false, ok [0; 5]); (false, ok [5])]
          (set_q_read [ok [x61]; ok [x68; x69]; ok []]
             (set_q_write [ok 1; ok 1; ok 1] idle)))).

(** [deptyr -H a -V -s b]: both sockets are made. *)
Definition w_two_sockets : @world Z := set_q_int [ok 3; ok 4; ok 9] idle.

(** [deptyr -V -s b]: the connection is made. *)
Definition w_connected : @world Z := set_q_int [ok 4] idle.

(** recv_file_descriptor fails. *)
Definition w_recv_fails : @world Z := set_q_int [fail EBADF] idle.

(** Descriptor 5 is received, and closing the connection fails. *)
Definition w_close_fails : @world Z := set_q_int [ok 5; fail EIO] idle.

(** get_pt gives descriptor 4 and unlockpt fails. *)
Definition w_unlockpt_fails : @world Z :=
  set_q_int [ok 4; fail EIO; ok 0] idle.

(** The pseudo-terminal is ready and the send fails. *)
Definition w_send_fails : @world Z :=
  set_q_int [ok 4; ok 0; ok 0; fail EIO]
    (set_q_ptsname ["/dev/pts/3"%string] idle).

(** Every step of the attacher succeeds but execvp, which finds no such
    command. *)
Definition w_attach : @world Z :=
  set_q_int
    [ok 4; ok 0; ok 0; ok 0;
     ok 0; ok 0; ok 0; ok 6; ok 0; ok 0; ok 6; ok 1; ok 2; ok 0; ok 0;
     fail ENOENT]
    (set_q_ptsname ["/dev/pts/3"%string] idle).

(** [do_proxy] on descriptor 5 whose pseudo-terminal is at end of file at
    once; setting the size fails. *)
Definition w_proxy_pty_eof : @world Z :=
  set_q_int [ok 0; ok 0; fail EBADF]
    (set_q_winsz [fail ENOTTY]
       (set_q_pselect [(false, ok [5]); (false, ok [0])]
          (set_q_read [ok []; ok [x61]] idle))).

(** A session on descriptor 5 in which raw mode is entered, "hi" comes from
    the pseudo-terminal, which is then at end of file, and the first
    restoring tcsetattr is interrupted. *)
Definition w_session_hi : @world Z :=
  set_q_tcgetattr [ok 10]
    (set_q_tcsetattr [ok tt; fail EINTR; ok tt]
       (set_q_int [ok 0; ok 0; ok 0; ok 0]
          (set_q_winsz [ok sz_24x132]
             (set_q_pselect [(false, ok [5]); (false, ok [5])]
                (set_q_read [ok [x68; x69]; ok []]
                   (set_q_write [ok 2] idle)))))).

(** The same session when standard input is not a terminal. *)
Definition w_session_hi_notty : @world Z :=
  set_q_tcgetattr [fail ENOTTY]
    (set_q_tcsetattr [fail EINTR; ok tt]
       (set_q_int [ok 0; ok 0; ok 0; ok 0]
          (set_q_winsz [fail ENOTTY]
             (set_q_pselect [(false, ok [5]); (false, ok [5])]
                (set_q_read [ok [x68; x69]; ok []]
                   (set_q_write [ok 2] idle)))))).

End Scenario.

(** * Properties *)

Section Properties.

Context {termios : Type}.
Variable cfmakeraw : termios -> termios.

Abbreviation world := (@world termios).
Abbreviation event := (@event termios).
Notation "x <- m ;; k" := (bind m (fun x => k))
  (at level 61, m at next level, right associativity).
Notation "m ;; k" := (bind m (fun _ => k))
  (at level 61, right associativity).

(** Two spellings of one trace. *)
Ltac same_trace := simpl; rewrite <- ?app_assoc; simpl; reflexivity.

(** ** Lists *)

Lemma firstn_split_at {A} (a b : nat) (l : list A) :
  firstn (a + b) l = firstn a l ++ firstn b (skipn a l).
Proof.
  revert l. induction a as [|a IH]; intros l; simpl.
  - reflexivity.
  - destruct l as [|x l]; simpl.
    + now rewrite firstn_nil.
    + now rewrite IH.
Qed.

Lemma firstn_nonempty {A} (n : nat) (l : list A) :
  (0 < n)%nat -> (n <= length l)%nat -> firstn n l <> [].
Proof.
  intros Hn Hl E. apply (f_equal (@length A)) in E.
  rewrite length_firstn in E. simpl in E. lia.
Qed.

Lemma written_app (fd : Z) (l1 l2 : list event) :
  written fd (l1 ++ l2) = written fd l1 ++ written fd l2.
Proof.
  induction l1 as [|e l1 IH]; simpl; [reflexivity|].
  destruct e; try exact IH.
  destruct r; [|exact IH]. now rewrite IH, app_assoc.
Qed.

(** ** writeall *)

Lemma writeall_loop_run (q : list (sysret Z)) :
  forall (fd : Z) (buf : list Byte.byte) (count : Z) (w : world),
    0 <= count <= Z.of_nat (length buf) ->
    q_write w = q ->
    exists evs,
      trace (world_of (writeall_loop q fd buf count w)) = trace w ++ evs /\
      match writeall_loop q fd buf count w with
      | Val rv _ =>
          writeall_outcome fd (firstn (Z.to_nat count) buf) evs (Some rv)
      | Halt h w' =>
          h = Blocked /\ q_write w' = [] /\
          writeall_outcome fd (firstn (Z.to_nat count) buf) evs None
      end.
Proof.
  induction q as [|r q IH]; intros fd buf count w Hc Hq; simpl.
  - destruct (0 <? count) eqn:Hpos; simpl.
    + apply Z.ltb_lt in Hpos. exists []. rewrite app_nil_r.
      repeat split; auto.
      exists (firstn (Z.to_nat count) buf). split; [|reflexivity].
      apply firstn_nonempty; lia.
    + apply Z.ltb_ge in Hpos. assert (count = 0) by lia; subst count.
      exists []. rewrite app_nil_r. split; [reflexivity|].
      left. repeat split; auto.
  - destruct (0 <? count) eqn:Hpos; simpl.
    2:{ apply Z.ltb_ge in Hpos. assert (count = 0) by lia; subst count.
        exists []. rewrite app_nil_r. split; [reflexivity|].
        left. repeat split; auto. }
    apply Z.ltb_lt in Hpos.
    destruct r as [n|e]; unfold write_answer, bind, emit, ret, put_errno;
      simpl.
    + set (rv := Z.max 0 (Z.min n count)).
      assert (Hrv : 0 <= rv <= count) by (unfold rv; lia).
      destruct (rv <? 0) eqn:Hneg; [apply Z.ltb_lt in Hneg; lia|].
      set (w1 := log _ _).
      destruct (IH fd (skipn (Z.to_nat rv) buf) (count - rv) w1)
        as (evs & Htr & Hout).
      { rewrite length_skipn. lia. }
      { reflexivity. }
      exists (ev_write fd (firstn (Z.to_nat count) buf) (ok rv) :: evs).
      split.
      { rewrite Htr. unfold w1. simpl. now rewrite <- app_assoc. }
      assert (Hsplit :
        firstn (Z.to_nat rv) (firstn (Z.to_nat count) buf) ++
        firstn (Z.to_nat (count - rv)) (skipn (Z.to_nat rv) buf) =
        firstn (Z.to_nat count) buf).
      { rewrite firstn_firstn, Nat.min_l by lia.
        rewrite <- firstn_split_at. f_equal. lia. }
      destruct (writeall_loop q fd _ _ w1) as [rv' w'|h w'].
      * destruct Hout as [(-> & Hgo & Hw)|(Hlt & evs0 & rest & e & -> & He
                                           & Hgo & Hne & Hw)].
        -- left. split; [reflexivity|]. split.
           ++ constructor; [simpl; apply Z.eqb_refl|exact Hgo].
           ++ simpl. rewrite Z.eqb_refl, Hw. exact Hsplit.
        -- right. split; [exact Hlt|].
           exists (ev_write fd (firstn (Z.to_nat count) buf) (ok rv) :: evs0),
             rest, e.
           repeat split; auto.
           ++ constructor; [simpl; apply Z.eqb_refl|exact Hgo].
           ++ simpl. rewrite Z.eqb_refl, <- app_assoc, Hw. exact Hsplit.
      * destruct Hout as (-> & Hqw & Hgo & rest & Hne & Hw).
        repeat split; auto.
        -- constructor; [simpl; apply Z.eqb_refl|exact Hgo].
        -- exists rest. split; [exact Hne|].
           simpl. rewrite Z.eqb_refl, <- app_assoc, Hw. exact Hsplit.
    + set (w1 := set_errno _ _).
      destruct (e =? EINTR) eqn:He.
      * destruct (IH fd buf count w1 Hc eq_refl) as (evs & Htr & Hout).
        exists (ev_write fd (firstn (Z.to_nat count) buf) (fail e) :: evs).
        split.
        { rewrite Htr. unfold w1. simpl. now rewrite <- app_assoc. }
        assert (Hev : goes_on fd
                  (ev_write fd (firstn (Z.to_nat count) buf) (fail e) : event)
                = true).
        { simpl. now rewrite Z.eqb_refl, He. }
        destruct (writeall_loop q fd buf count w1) as [rv' w'|h w'].
        -- destruct Hout as [(-> & Hgo & Hw)|(Hlt & evs0 & rest & e' & ->
                                              & He' & Hgo & Hne & Hw)].
           ++ left. repeat split; auto.
           ++ right. split; [exact Hlt|].
              exists (ev_write fd (firstn (Z.to_nat count) buf) (fail e)
                        :: evs0), rest, e'.
              repeat split; auto.
        -- destruct Hout as (-> & Hqw & Hgo & rest & Hne & Hw).
           repeat split; auto. exists rest. split; auto.
      * exists [ev_write fd (firstn (Z.to_nat count) buf) (fail e)].
        split; [reflexivity|].
        right. split; [lia|].
        exists [], (firstn (Z.to_nat count) buf), e.
        repeat split; auto.
        -- apply Z.eqb_neq. exact He.
        -- apply firstn_nonempty; lia.
Qed.

Lemma writeall_loop_resumes (q : list (sysret Z)) :
  forall (fd : Z) (buf : list Byte.byte) (count : Z) (w : world),
    0 <= count ->
    exists evs,
      trace (world_of (writeall_loop q fd buf count w)) = trace w ++ evs /\
      resumes fd (firstn (Z.to_nat count) buf) evs.
Proof.
  induction q as [|r q IH]; intros fd buf count w Hc; simpl.
  - exists []. rewrite app_nil_r.
    destruct (0 <? count); simpl; auto.
  - destruct (0 <? count) eqn:Hpos; simpl.
    2:{ exists []. rewrite app_nil_r. simpl; auto. }
    apply Z.ltb_lt in Hpos.
    destruct r as [n|e]; unfold write_answer, bind, emit, ret, put_errno;
      simpl.
    + set (rv := Z.max 0 (Z.min n count)).
      assert (Hrv : 0 <= rv <= count) by (unfold rv; lia).
      destruct (rv <? 0) eqn:Hneg; [apply Z.ltb_lt in Hneg; lia|].
      set (w1 := log _ _).
      destruct (IH fd (skipn (Z.to_nat rv) buf) (count - rv) w1)
        as (evs & Htr & Hres); [lia|].
      exists (ev_write fd (firstn (Z.to_nat count) buf) (ok rv) :: evs).
      split.
      { rewrite Htr. unfold w1. simpl. now rewrite <- app_assoc. }
      simpl. repeat split; auto.
      rewrite skipn_firstn_comm.
      replace (Z.to_nat count - Z.to_nat rv)%nat with (Z.to_nat (count - rv))
        by lia.
      exact Hres.
    + set (w1 := set_errno _ _).
      destruct (e =? EINTR) eqn:He.
      * destruct (IH fd buf count w1 Hc) as (evs & Htr & Hres).
        exists (ev_write fd (firstn (Z.to_nat count) buf) (fail e) :: evs).
        split.
        { rewrite Htr. unfold w1. simpl. now rewrite <- app_assoc. }
        simpl. auto.
      * exists [ev_write fd (firstn (Z.to_nat count) buf) (fail e)].
        split; [reflexivity|]. simpl. auto.
Qed.

Lemma writeall_run (fd : Z) (buf : list Byte.byte) (count : Z) (w : world) :
  0 <= count <= Z.of_nat (length buf) ->
  exists evs,
    trace (world_of (writeall fd buf count w)) = trace w ++ evs /\
    resumes fd (firstn (Z.to_nat count) buf) evs /\
    match writeall fd buf count w with
    | Val rv _ =>
        writeall_outcome fd (firstn (Z.to_nat count) buf) evs (Some rv)
    | Halt h w' =>
        h = Blocked /\ q_write w' = [] /\
        writeall_outcome fd (firstn (Z.to_nat count) buf) evs None
    end.
Proof.
  intros Hc. unfold writeall.
  destruct (writeall_loop_run (q_write w) fd buf count w Hc eq_refl)
    as (evs & Htr & Hout).
  destruct (writeall_loop_resumes (q_write w) fd buf count w (proj1 Hc))
    as (evs' & Htr' & Hres).
  assert (evs' = evs) by (rewrite Htr in Htr'; now apply app_inv_head in Htr').
  subst evs'. exists evs. auto.
Qed.

(** C8. For every descriptor [fd], buffer [buf] and count between 0 and the
    size of the buffer, a run of [writeall] adds only write(2) calls on [fd]
    to the trace, each offered exactly the bytes not yet taken (so a short
    write is resumed where it stopped and an interrupted one is repeated),
    and ends in one of three ways.  It returns 0, and then the bytes taken
    are exactly the first [count] bytes of [buf], in order.  Or it returns
    a negative value, and then its last call is the first write that failed
    with an errno other than EINTR, the bytes taken before it being a
    proper prefix of the first [count] bytes.  Or the schedule of write
    answers ran out and the process is still blocked in write(2). *)
Theorem writeall_correct (fd : Z) (buf : list Byte.byte) (count : Z)
  (w : world) :
  0 <= count <= Z.of_nat (length buf) ->
  exists evs,
    trace (world_of (writeall fd buf count w)) = trace w ++ evs /\
    resumes fd (firstn (Z.to_nat count) buf) evs /\
    match writeall fd buf count w with
    | Val rv _ =>
        writeall_outcome fd (firstn (Z.to_nat count) buf) evs (Some rv)
    | Halt h w' =>
        h = Blocked /\ q_write w' = [] /\
        writeall_outcome fd (firstn (Z.to_nat count) buf) evs None
    end.
Proof. exact (writeall_run fd buf count w). Qed.

(** ** resize_pty *)

Lemma resize_pty_query_fails (pty : Z) (w : world) (e : Z)
  (qz : list (sysret winsize)) (r : sysret Z) (qi : list (sysret Z)) :
  q_winsz w = fail e :: qz ->
  q_int w = r :: qi ->
  exists w',
    resize_pty pty w = Val tt w' /\
    trace w' =
      trace w ++
      [ev_ioctl_TIOCGWINSZ 0 (fail e);
       ev_call (c_ioctl_TIOCSWINSZ pty defaultsize) r] ++
      (if returned r <? 0 then [ev_stderr "Cannot set terminal size\n" []]
       else []).
Proof.
  intros Hz Hi. destruct w; simpl in *; subst.
  unfold resize_pty, bind, sys_ioctl_TIOCGWINSZ, sys_int; simpl.
  destruct r as [n|e']; simpl.
  - destruct (n <? 0); simpl; eexists; (split; [reflexivity|same_trace]).
  - eexists; split; [reflexivity|same_trace].
Qed.

(** C6. When the size query on the controlling terminal fails because
    standard input is not a terminal (ENOTTY), [resize_pty] returns
    normally after applying to the pseudo-terminal a size of 80 columns by
    30 rows; whether that call succeeds only decides if a message is
    printed. *)
Theorem resize_pty_fallback_size (pty : Z) (w : world)
  (qz : list (sysret winsize)) (r : sysret Z) (qi : list (sysret Z)) :
  q_winsz w = fail ENOTTY :: qz ->
  q_int w = r :: qi ->
  exists w' sz,
    ws_col sz = 80 /\ ws_row sz = 30 /\
    resize_pty pty w = Val tt w' /\
    trace w' =
      trace w ++
      [ev_ioctl_TIOCGWINSZ 0 (fail ENOTTY);
       ev_call (c_ioctl_TIOCSWINSZ pty sz) r] ++
      (if returned r <? 0 then [ev_stderr "Cannot set terminal size\n" []]
       else []).
Proof.
  intros Hz Hi.
  destruct (resize_pty_query_fails pty w ENOTTY qz r qi Hz Hi)
    as (w' & H1 & H2).
  exists w', defaultsize. repeat split; assumption.
Qed.

(** C4, amended. When the size query fails for a reason other than "not a
    terminal", [resize_pty] does not skip the resize: the errno is never
    looked at, and the same fallback size is applied to the pseudo-terminal.
    The failure is not fatal: [resize_pty] returns normally. *)
Theorem resize_pty_any_failure (pty : Z) (w : world) (e : Z)
  (qz : list (sysret winsize)) (r : sysret Z) (qi : list (sysret Z)) :
  e <> ENOTTY ->
  q_winsz w = fail e :: qz ->
  q_int w = r :: qi ->
  exists w',
    resize_pty pty w = Val tt w' /\
    applies_size pty (trace w') = true /\
    trace w' =
      trace w ++
      [ev_ioctl_TIOCGWINSZ 0 (fail e);
       ev_call (c_ioctl_TIOCSWINSZ pty (mk_winsize 30 80 640 480)) r] ++
      (if returned r <? 0 then [ev_stderr "Cannot set terminal size\n" []]
       else []).
Proof.
  intros _ Hz Hi.
  destruct (resize_pty_query_fails pty w e qz r qi Hz Hi) as (w' & H1 & H2).
  exists w'. repeat split; try assumption.
  rewrite H2. unfold applies_size. rewrite !existsb_app. simpl.
  rewrite Z.eqb_refl. simpl. now rewrite orb_true_r.
Qed.

(** ** setup_raw *)

(** C3, amended. If reading the attributes of the controlling terminal
    fails, [setup_raw] prints a message and returns without a call to
    tcsetattr, leaving the terminal and [*save] as they were; it has no
    return value to carry an error, and its caller [main] goes on to run
    [do_proxy] all the same. *)
Theorem setup_raw_read_failure (saved : option termios) (w : world) (e : Z)
  (qg : list (sysret termios)) :
  q_tcgetattr w = fail e :: qg ->
  exists w',
    setup_raw cfmakeraw saved w = Val saved w' /\
    trace w' =
      trace w ++
      [ev_tcgetattr 0 (fail e);
       ev_stderr "Unable to read terminal attributes: %m" []] /\
    q_tcsetattr w' = q_tcsetattr w /\
    forall pty,
      proxy_session cfmakeraw pty saved w =
      (do_proxy pty ;; restore saved ;; sys_int (c_close pty) ;; ret saved) w'.
Proof.
  intros Hg. destruct w; simpl in *; subst.
  eexists. split; [reflexivity|]. split; [same_trace|].
  split; [reflexivity|]. intros pty. reflexivity.
Qed.

(** ** Calls answered from the schedule *)

Lemma q_int_after_int c r q (w : world) : q_int (after_int c r q w) = q.
Proof. now destruct r. Qed.

Lemma trace_after_int c r q (w : world) :
  trace (after_int c r q w) = trace w ++ [ev_call c r].
Proof. now destruct r. Qed.

Lemma sys_int_eq c (w : world) r q :
  q_int w = r :: q -> sys_int c w = Val (returned r) (after_int c r q w).
Proof. intros H. unfold sys_int. rewrite H. now destruct r. Qed.

Lemma bind_sys_int {B} c (k : Z -> M B) (w : world) r q :
  q_int w = r :: q ->
  (x <- sys_int c ;; k x) w = k (returned r) (after_int c r q w).
Proof. intros H. unfold bind. now rewrite (sys_int_eq c w r q H). Qed.

(** ** The attacher *)

(** C10. From setenv on, the attacher looks at no return value until
    execvp: whatever setenv, setpgid, setsid, both open calls, the three
    dup2 calls and the three close calls answer, execvp is called with the
    command.  A failed open makes the following dup2 calls receive -1 as
    the descriptor to copy.  The process then runs the command or, when
    execvp fails, dies with "execvp failed". *)
Theorem redirect_failures_unchecked (pty : Z) (ptyname : string)
  (cmd : list string) (w : world)
  (r1 r2 r3 r4 r5 r6 r7 r8 r9 r10 r11 rx : sysret Z) (q : list (sysret Z)) :
  q_int w = r1 :: r2 :: r3 :: r4 :: r5 :: r6 :: r7 :: r8 :: r9 :: r10 :: r11
            :: rx :: q ->
  exists w',
    redirect_and_exec pty ptyname cmd w =
      Halt (match rx with
            | ok _ => Replaced
            | fail _ => Died "execvp failed: %m"
            end) w' /\
    trace w' =
      trace w ++
      [ev_call (c_setenv "REPTYR_PTY" ptyname) r1;
       ev_call c_setpgid_0_getppid r2;
       ev_call c_setsid r3;
       ev_call (c_open ptyname O_RDONLY) r4;
       ev_call (c_dup2 (returned r4) 0) r5;
       ev_call (c_close (returned r4)) r6;
       ev_call (c_open ptyname O_WRONLY) r7;
       ev_call (c_dup2 (returned r7) 1) r8;
       ev_call (c_dup2 (returned r7) 2) r9;
       ev_call (c_close (returned r7)) r10;
       ev_call (c_close pty) r11;
       ev_call (c_execvp cmd) rx] ++
      (match rx with
       | ok _ => []
       | fail _ => [ev_stderr "[!] execvp failed: %m" []]
       end).
Proof.
  intros Hq. unfold redirect_and_exec.
  rewrite (bind_sys_int _ _ _ _ _ Hq).
  do 10 (erewrite bind_sys_int by (rewrite q_int_after_int; reflexivity)).
  match goal with |- context [bind _ _ ?w0] => set (w11 := w0) end.
  assert (Hq11 : q_int w11 = rx :: q)
    by (unfold w11; now rewrite q_int_after_int).
  assert (Ht11 : trace w11 = trace w ++
      [ev_call (c_setenv "REPTYR_PTY" ptyname) r1;
       ev_call c_setpgid_0_getppid r2;
       ev_call c_setsid r3;
       ev_call (c_open ptyname O_RDONLY) r4;
       ev_call (c_dup2 (returned r4) 0) r5;
       ev_call (c_close (returned r4)) r6;
       ev_call (c_open ptyname O_WRONLY) r7;
       ev_call (c_dup2 (returned r7) 1) r8;
       ev_call (c_dup2 (returned r7) 2) r9;
       ev_call (c_close (returned r7)) r10;
       ev_call (c_close pty) r11]).
  { unfold w11. rewrite !trace_after_int. same_trace. }
  clearbody w11. clear Hq.
  unfold bind, sys_execvp. rewrite Hq11.
  destruct rx as [n|e]; simpl; eexists; (split; [reflexivity|]); simpl;
    rewrite Ht11; same_trace.
Qed.

Lemma sys_read_ok fd buf n (w : world) d qr :
  q_read w = ok d :: qr ->
  sys_read fd buf n w =
    Val (Z.of_nat (length (firstn (Z.to_nat n) d)),
         store (firstn (Z.to_nat n) d) buf)
        (log (ev_read fd n (ok (firstn (Z.to_nat n) d))) (set_q_read qr w)).
Proof. intros H. unfold sys_read. now rewrite H. Qed.

Lemma sys_read_fail fd buf n (w : world) e qr :
  q_read w = fail e :: qr ->
  sys_read fd buf n w =
    Val (-1, buf) (set_errno e (log (ev_read fd n (fail e)) (set_q_read qr w))).
Proof. intros H. unfold sys_read. now rewrite H. Qed.

Lemma firstn_store (data buf : list Byte.byte) :
  firstn (length data) (store data buf) = data.
Proof.
  unfold store. rewrite firstn_app, firstn_all, Nat.sub_diag. simpl.
  apply app_nil_r.
Qed.

(** ** The proxy loop: the side of standard input *)






(** ** main without a socket *)

Lemma getopt_loop_only_V (me : string) (opts : list getopt_result) :
  Forall (fun o => o = opt_V) opts ->
  forall (socket : option Z) (act_as_proxy : bool) (w : world),
  exists w1,
    getopt_loop me opts socket act_as_proxy w
      = Val (Next (socket, act_as_proxy)) w1 /\
    trace w1 = trace w /\ q_int w1 = q_int w /\ q_ptsname w1 = q_ptsname w.
Proof.
  induction 1 as [|o opts Ho _ IH]; intros socket act w.
  - exists w. repeat split.
  - subst o. cbn [getopt_loop]. unfold bind at 1.
    destruct (IH socket act (set_verbose true w)) as (w1 & E & Ht & Hi & Hp).
    exists w1. repeat split; assumption.
Qed.

(** C7, amended. When getopt delivers nothing but -V options (so none of
    -s, -H, -h or an option it does not know) and a command is given,
    [main] takes the attacher branch with [socket] never stored to; once
    the pseudo-terminal is allocated, unlocked and granted, and its name
    printed, the program reads that variable for send_file_descriptor.
    No connection was made and no accept is ever reached. *)
Theorem attacher_reads_unset_socket (me : string) (opts : list getopt_result)
  (cmd : list string) (w : world) (pty : Z) (r2 r3 : sysret Z)
  (qi : list (sysret Z)) (name : string) (qn : list string) :
  Forall (fun o => o = opt_V) opts ->
  cmd <> [] ->
  q_int w = ok pty :: r2 :: r3 :: qi ->
  0 <= pty -> 0 <= returned r2 -> 0 <= returned r3 ->
  q_ptsname w = name :: qn ->
  exists w',
    main cfmakeraw me opts cmd w = Halt Uninitialized_socket w' /\
    trace w' =
      trace w ++
      [ev_call c_get_pt (ok pty);
       ev_call (c_unlockpt pty) r2;
       ev_call (c_grantpt pty) r3;
       ev_ptsname_r pty name;
       ev_stdout "Opened a new pty: %s\n" [name]].
Proof.
  intros Hopts Hcmd Hq Hpty Hr2 Hr3 Hn.
  destruct (getopt_loop_only_V me opts Hopts None false w)
    as (w1 & E & Ht & Hi & Hp).
  unfold main, bind at 1. rewrite E.
  destruct cmd as [|c cmd]; [congruence|]. cbn [negb andb].
  rewrite Hq in Hi. rewrite Hn in Hp. rewrite <- Ht. clear E Ht Hq Hn w.
  unfold attacher.
  rewrite (bind_sys_int _ _ _ _ _ Hi). cbn [returned].
  apply Z.ltb_ge in Hpty, Hr2, Hr3. rewrite Hpty.
  unfold bind at 1, ret at 1.
  erewrite bind_sys_int by (rewrite q_int_after_int; reflexivity).
  rewrite Hr2. unfold bind at 1, ret at 1.
  erewrite bind_sys_int by (rewrite q_int_after_int; reflexivity).
  rewrite Hr3. unfold bind at 1, ret at 1.
  match goal with |- context [bind _ _ ?w0] => set (w3 := w0) end.
  assert (Hp3 : q_ptsname w3 = name :: qn).
  { unfold w3. destruct r2, r3; exact Hp. }
  assert (Ht3 : trace w3 = trace w1 ++
                [ev_call c_get_pt (ok pty);
                 ev_call (c_unlockpt pty) r2;
                 ev_call (c_grantpt pty) r3]).
  { unfold w3. rewrite !trace_after_int. same_trace. }
  clearbody w3.
  unfold bind, sys_ptsname_r. rewrite Hp3.
  eexists. split; [reflexivity|].
  cbn [trace log emit ret printf set_q_ptsname]. rewrite Ht3. same_trace.
Qed.

(** ** What a computation may add to the trace *)

Section Frame.

Variable P : event -> Prop.
Variable D : halt -> Prop.
Hypothesis D_Blocked : D Blocked.

Lemma run_ok_ret {A} (a : A) : run_ok P D (ret a).
Proof.
  intros w. split; [exists []; now rewrite app_nil_r|discriminate].
Qed.

Lemma run_ok_bind {A B} (m : M A) (k : A -> M B) :
  run_ok P D m -> (forall a, run_ok P D (k a)) -> run_ok P D (bind m k).
Proof.
  intros Hm Hk w. destruct (Hm w) as [(evs & Ht & HP) Hh]. unfold bind.
  destruct (m w) as [a w1|h w1]; cbn [world_of] in *.
  - destruct (Hk a w1) as [(evs' & Ht' & HP') Hh']. split; [|exact Hh'].
    exists (evs ++ evs'). split; [now rewrite Ht', Ht, app_assoc|].
    apply Forall_app; auto.
  - split; [now exists evs|]. intros h' w' [= <- <-]. now apply (Hh h w1).
Qed.

Lemma run_ok_state {A} (f : world -> A * world) :
  (forall w, trace (snd (f w)) = trace w) ->
  run_ok P D (fun w => Val (fst (f w)) (snd (f w))).
Proof.
  intros Hf w. split; [|discriminate].
  exists []. cbn [world_of]. now rewrite Hf, app_nil_r.
Qed.

Lemma run_ok_get_errno : run_ok P D get_errno.
Proof. apply (run_ok_state (fun w => (errno w, w))). reflexivity. Qed.

Lemma run_ok_put_errno e : run_ok P D (put_errno e).
Proof. apply (run_ok_state (fun w => (tt, set_errno e w))). reflexivity. Qed.

Lemma run_ok_emit e : P e -> run_ok P D (emit e).
Proof.
  intros He w. split; [|discriminate]. exists [e]. split; [reflexivity|].
  now constructor.
Qed.

Lemma run_ok_stop {A} h : D h -> run_ok P D (@stop termios A h).
Proof.
  intros Hh w. split; [exists []; now rewrite app_nil_r|].
  now intros h' w' [= <- <-].
Qed.

Lemma run_ok_die {A} msg :
  P (ev_stderr (String.append "[!] " msg) []) -> D (Died msg) ->
  run_ok P D (@die termios A msg).
Proof.
  intros HP HD. unfold die, fprintf_stderr.
  apply run_ok_bind; [now apply run_ok_emit|intros _; now apply run_ok_stop].
Qed.

Lemma run_ok_answer {A} (r : sysret A) v : run_ok P D (answer r v).
Proof.
  destruct r; cbn [answer]; [apply run_ok_ret|].
  apply run_ok_bind; [apply run_ok_put_errno|intros _; apply run_ok_ret].
Qed.

(** A call that takes its answer from a schedule. *)
Lemma run_ok_scheduled {A R} (pick : world -> list R)
  (drop : list R -> world -> world) (k : R -> M A) :
  (forall q w, trace (drop q w) = trace w) ->
  (forall r, run_ok P D (k r)) ->
  run_ok P D (fun w => match pick w with
                       | [] => Halt Blocked w
                       | r :: q => k r (drop q w)
                       end).
Proof.
  intros Hdrop Hk w. destruct (pick w) as [|r q].
  - split; [exists []; now rewrite app_nil_r|]. now intros h w' [= <- <-].
  - destruct (Hk r (drop q w)) as [(evs & Ht & HP) Hh]. split; [|exact Hh].
    exists evs. now rewrite Ht, Hdrop.
Qed.

Lemma run_ok_sys_int c : (forall r, P (ev_call c r)) -> run_ok P D (sys_int c).
Proof.
  intros HP. unfold sys_int.
  apply (run_ok_scheduled q_int set_q_int
           (fun r => emit (ev_call c r) ;; answer r (fun n => n)));
    [reflexivity|]. intros r.
  apply run_ok_bind; [now apply run_ok_emit|intros _; apply run_ok_answer].
Qed.

Lemma run_ok_sys_ioctl_TIOCGWINSZ fd :
  (forall r, P (ev_ioctl_TIOCGWINSZ fd r)) ->
  run_ok P D (sys_ioctl_TIOCGWINSZ fd).
Proof.
  intros HP. unfold sys_ioctl_TIOCGWINSZ.
  apply (run_ok_scheduled q_winsz set_q_winsz
           (fun r => emit (ev_ioctl_TIOCGWINSZ fd r) ;;
                     match r with
                     | ok sz => ret (ok sz)
                     | fail e => put_errno e ;; ret (fail e)
                     end)); [reflexivity|]. intros r.
  apply run_ok_bind; [now apply run_ok_emit|intros _].
  destruct r; [apply run_ok_ret|].
  apply run_ok_bind; [apply run_ok_put_errno|intros _; apply run_ok_ret].
Qed.

Lemma run_ok_sys_tcgetattr fd :
  (forall r, P (ev_tcgetattr fd r)) -> run_ok P D (sys_tcgetattr fd).
Proof.
  intros HP. unfold sys_tcgetattr.
  apply (run_ok_scheduled q_tcgetattr set_q_tcgetattr
           (fun r => emit (ev_tcgetattr fd r) ;;
                     match r with
                     | ok t => ret (ok t)
                     | fail e => put_errno e ;; ret (fail e)
                     end)); [reflexivity|].
  intros r. apply run_ok_bind; [now apply run_ok_emit|intros _].
  destruct r; [apply run_ok_ret|].
  apply run_ok_bind; [apply run_ok_put_errno|intros _; apply run_ok_ret].
Qed.

Lemma run_ok_tcsetattr_answer r fd t :
  P (ev_tcsetattr fd t r) -> run_ok P D (tcsetattr_answer r fd t).
Proof.
  intros HP. unfold tcsetattr_answer.
  apply run_ok_bind; [now apply run_ok_emit|intros _; apply run_ok_answer].
Qed.

Lemma run_ok_sys_tcsetattr fd t :
  (forall r, P (ev_tcsetattr fd t r)) -> run_ok P D (sys_tcsetattr fd t).
Proof.
  intros HP. unfold sys_tcsetattr.
  apply (run_ok_scheduled q_tcsetattr set_q_tcsetattr
           (fun r => tcsetattr_answer r fd t)); [reflexivity|].
  intros r. now apply run_ok_tcsetattr_answer.
Qed.

Lemma run_ok_sys_read fd buf n :
  (forall r, P (ev_read fd n r)) -> run_ok P D (sys_read fd buf n).
Proof.
  intros HP. unfold sys_read.
  apply (run_ok_scheduled q_read set_q_read
           (fun r => read_answer r fd buf n)); [reflexivity|].
  intros [d|e]; unfold read_answer.
  - apply run_ok_bind; [now apply run_ok_emit|intros _; apply run_ok_ret].
  - apply run_ok_bind; [now apply run_ok_emit|intros _].
    apply run_ok_bind; [apply run_ok_put_errno|intros _; apply run_ok_ret].
Qed.

Lemma run_ok_write_answer r fd buf count :
  (forall data r', P (ev_write fd data r')) ->
  run_ok P D (write_answer r fd buf count).
Proof.
  intros HP. unfold write_answer. destruct r.
  - apply run_ok_bind; [now apply run_ok_emit|intros _; apply run_ok_ret].
  - apply run_ok_bind; [now apply run_ok_emit|intros _].
    apply run_ok_bind; [apply run_ok_put_errno|intros _; apply run_ok_ret].
Qed.

Lemma run_ok_pselect_answer a nfds set :
  P (ev_pselect nfds set (fst a) (snd a)) ->
  run_ok P D (pselect_answer a nfds set).
Proof.
  intros HP w. unfold pselect_answer.
  split; [|destruct (snd a); discriminate].
  exists [ev_pselect nfds set (fst a) (snd a)]. split; [|now constructor].
  destruct (snd a), (fst a); reflexivity.
Qed.

End Frame.

(** ** What the proxy loop may add to the trace *)

Section FrameProxy.

Variable P : event -> Prop.
Variable D : halt -> Prop.
Hypothesis D_Blocked : D Blocked.
Hypothesis P_other : forall e, is_tcsetattr e = false -> P e.

Lemma run_ok_from_val {A} (a : A) (w : world) : run_ok_from P D w (Val a w).
Proof. split; [exists []; now rewrite app_nil_r|discriminate]. Qed.

Lemma run_ok_from_halt {A} h (w w1 : world) evs :
  trace w1 = trace w ++ evs -> Forall P evs -> D h ->
  run_ok_from P D w (@Halt termios A h w1).
Proof.
  intros Ht HP HD. split; [now exists evs|]. now intros h' w' [= <- <-].
Qed.

Lemma run_ok_from_trans {A} (w w1 : world) evs (r : res A) :
  trace w1 = trace w ++ evs -> Forall P evs ->
  run_ok_from P D w1 r -> run_ok_from P D w r.
Proof.
  intros Ht HP [(evs' & Ht' & HP') Hh]. split; [|exact Hh].
  exists (evs ++ evs'). split; [now rewrite Ht', Ht, app_assoc|].
  apply Forall_app; auto.
Qed.

Lemma run_ok_writeall_loop (q : list (sysret Z)) :
  forall fd buf count, run_ok P D (writeall_loop q fd buf count).
Proof.
  induction q as [|r q IH]; intros fd buf count w; cbn [writeall_loop].
  - destruct (0 <? count); [|apply run_ok_from_val].
    apply (run_ok_from_halt _ w w []); auto. now rewrite app_nil_r.
  - destruct (0 <? count); [|apply run_ok_from_val].
    destruct (run_ok_write_answer P D r fd buf count
                (fun data r' => P_other (ev_write fd data r') eq_refl)
                (set_q_write q w)) as [(evs & Ht & HP) Hh].
    destruct (write_answer r fd buf count (set_q_write q w)) as [rv w1|h w1];
      cbn [world_of] in Ht.
    + destruct (rv <? 0); [destruct (errno w1 =? EINTR)|];
        apply (run_ok_from_trans w w1 evs); auto;
        first [apply IH | apply run_ok_from_val].
    + apply (run_ok_from_halt _ w w1 evs); auto. now apply (Hh h w1).
Qed.

Lemma run_ok_writeall fd buf count : run_ok P D (writeall fd buf count).
Proof. intros w. apply run_ok_writeall_loop. Qed.

Lemma run_ok_fprintf_stderr format args :
  run_ok P D (fprintf_stderr format args).
Proof. apply run_ok_emit. now apply P_other. Qed.

Lemma run_ok_resize_pty pty : run_ok P D (resize_pty pty).
Proof.
  unfold resize_pty. apply run_ok_bind.
  - apply run_ok_sys_ioctl_TIOCGWINSZ; auto.
  - intros [sz|e].
    + apply run_ok_bind; [|intros _; apply run_ok_ret].
      apply run_ok_sys_int; auto.
    + apply run_ok_bind.
      * apply run_ok_sys_int; auto.
      * intros rv. destruct (rv <? 0);
          [apply run_ok_fprintf_stderr|apply run_ok_ret].
Qed.

Lemma run_ok_proxy_winch pty : run_ok P D (proxy_winch pty).
Proof.
  intros w. unfold proxy_winch. destruct (winch_happened w).
  - apply (run_ok_from_trans w (set_winch_happened false w) []); auto.
    + now rewrite app_nil_r.
    + apply run_ok_resize_pty.
  - apply run_ok_from_val.
Qed.

Lemma run_ok_proxy_stdin pty set buf : run_ok P D (proxy_stdin pty set buf).
Proof.
  unfold proxy_stdin. destruct (fd_isset 0 set); [|apply run_ok_ret].
  apply run_ok_bind.
  - apply run_ok_sys_read; auto.
  - intros [count buf1]. destruct (count <? 0); [apply run_ok_ret|].
    apply run_ok_bind; [apply run_ok_writeall|intros _; apply run_ok_ret].
Qed.

Lemma run_ok_proxy_pty pty set buf : run_ok P D (proxy_pty pty set buf).
Proof.
  unfold proxy_pty. destruct (fd_isset pty set); [|apply run_ok_ret].
  apply run_ok_bind.
  - apply run_ok_sys_read; auto.
  - intros [count buf1]. destruct (count <=? 0); [apply run_ok_ret|].
    apply run_ok_bind; [apply run_ok_writeall|intros _; apply run_ok_ret].
Qed.

Lemma run_ok_proxy_body a pty buf : run_ok P D (proxy_body a pty buf).
Proof.
  unfold proxy_body. apply run_ok_bind.
  - apply run_ok_pselect_answer. now apply P_other.
  - intros [rv set]. destruct (rv <? 0).
    + apply run_ok_bind; [apply run_ok_get_errno|intros e].
      destruct (e =? EINTR); [apply run_ok_ret|].
      apply run_ok_bind; [apply run_ok_fprintf_stderr|intros _].
      apply run_ok_ret.
    + apply run_ok_bind; [apply run_ok_proxy_stdin|intros [buf1|r]].
      * apply run_ok_proxy_pty.
      * apply run_ok_ret.
Qed.

Lemma run_ok_proxy_loop (q : list (bool * sysret (list Z))) :
  forall pty buf, run_ok P D (proxy_loop q pty buf).
Proof.
  induction q as [|a q IH]; intros pty buf w; cbn [proxy_loop];
    destruct (run_ok_proxy_winch pty w) as [(evs & Ht & HP) Hh];
    destruct (proxy_winch pty w) as [u w1|h w1]; cbn [world_of] in Ht;
    try (apply (run_ok_from_halt _ w w1 evs); auto; now apply (Hh h w1)).
  apply (run_ok_from_trans w w1 evs); auto.
  destruct (run_ok_proxy_body a pty buf (set_q_pselect q w1))
    as [(evs2 & Ht2 & HP2) Hh2].
  destruct (proxy_body a pty buf (set_q_pselect q w1)) as [[buf1|r] w2|h w2];
    cbn [world_of] in Ht2.
  - apply (run_ok_from_trans w1 w2 evs2); auto. apply IH.
  - apply (run_ok_from_trans w1 w2 evs2); auto. apply run_ok_from_val.
  - apply (run_ok_from_halt _ w1 w2 evs2); auto. now apply (Hh2 h w2).
Qed.

Lemma run_ok_do_proxy pty : run_ok P D (do_proxy pty).
Proof.
  unfold do_proxy. apply run_ok_bind.
  - apply run_ok_sys_int; auto.
  - intros rv. destruct (rv =? -1).
    + apply run_ok_bind; [apply run_ok_fprintf_stderr|intros _].
      apply run_ok_ret.
    + apply run_ok_bind.
      { apply run_ok_sys_int; auto. }
      intros _. apply run_ok_bind; [apply run_ok_resize_pty|intros _].
      intros w. apply run_ok_proxy_loop.
Qed.

End FrameProxy.

(** ** Leaving raw mode *)

Lemma restore_loop_run (q : list (sysret unit)) (saved : option termios) :
  forall w : world,
  exists k,
    match restore_loop q saved w with
    | Val _ w' =>
        trace w' =
          trace w ++ interrupted saved k ++ [ev_tcsetattr 0 saved (ok tt)]
    | Halt h w' =>
        (h = Blocked /\ trace w' = trace w ++ interrupted saved k)
        \/
        (exists e,
           e <> EINTR /\ h = Died "Unable to tcsetattr: %m" /\
           trace w' =
             trace w ++ interrupted saved k ++
             [ev_tcsetattr 0 saved (fail e);
              ev_stderr "[!] Unable to tcsetattr: %m" []])
    end.
Proof.
  induction q as [|r q IH]; intros w; cbn [restore_loop].
  - exists 0%nat. left. split; [reflexivity|]. cbn. now rewrite app_nil_r.
  - destruct r as [[]|e].
    + exists 0%nat. cbn. reflexivity.
    + unfold bind, put_errno, tcsetattr_answer, emit, answer, ret, get_errno.
      cbn -[restore_loop EINTR Z.eqb]. change (-1 =? 0) with false.
      cbn [negb andb].
      destruct (e =? EINTR) eqn:He; cbn [negb].
      * apply Z.eqb_eq in He. subst e. rewrite Z.eqb_refl.
        match goal with |- context [restore_loop q saved ?w0] =>
          destruct (IH w0) as [k Hk]; exists (S k);
          destruct (restore_loop q saved w0) as [u w'|h w']
        end.
        -- rewrite Hk. same_trace.
        -- destruct Hk as [(-> & Hk)|(e & He & -> & Hk)].
           ++ left. split; [reflexivity|]. rewrite Hk. same_trace.
           ++ right. exists e. repeat split; auto. rewrite Hk. same_trace.
      * exists 0%nat. cbn. right. exists e. split; [now apply Z.eqb_neq|].
        split; [reflexivity|same_trace].
Qed.

Lemma setup_raw_enters (saved : option termios) (w : world) (t : termios)
  (qg : list (sysret termios)) (qs : list (sysret unit)) :
  q_tcgetattr w = ok t :: qg ->
  q_tcsetattr w = ok tt :: qs ->
  exists w1,
    setup_raw cfmakeraw saved w = Val (Some t) w1 /\
    trace w1 =
      trace w ++
      [ev_tcgetattr 0 (ok t); ev_tcsetattr 0 (Some (cfmakeraw t)) (ok tt)] /\
    q_tcsetattr w1 = qs.
Proof.
  intros Hg Hs. destruct w; cbn in Hg, Hs; subst.
  cbn. eexists. split; [reflexivity|]. split; [same_trace|reflexivity].
Qed.

(** ** What the proxy loop leaves alone *)

Section Untouched.

(** A part [f] of the world that no call of [do_proxy] changes. *)
Context {X : Type}.
Variable f : world -> X.
Hypothesis f_errno : forall e w, f (set_errno e w) = f w.
Hypothesis f_log : forall e w, f (log e w) = f w.
Hypothesis f_winch : forall b w, f (set_winch_happened b w) = f w.
Hypothesis f_int : forall q w, f (set_q_int q w) = f w.
Hypothesis f_winsz : forall q w, f (set_q_winsz q w) = f w.
Hypothesis f_read : forall q w, f (set_q_read q w) = f w.
Hypothesis f_write : forall q w, f (set_q_write q w) = f w.
Hypothesis f_pselect : forall q w, f (set_q_pselect q w) = f w.

Lemma keeps_ret {A} (a : A) : keeps f (@ret termios A a).
Proof. intros w. reflexivity. Qed.

Lemma keeps_bind {A B} (m : @M termios A) (k : A -> @M termios B) :
  keeps f m -> (forall a, keeps f (k a)) -> keeps f (bind m k).
Proof.
  intros Hm Hk w. specialize (Hm w). unfold bind.
  destruct (m w) as [a w1|h w1]; cbn [world_of] in *; [|exact Hm].
  now rewrite Hk.
Qed.

Lemma keeps_emit (e : event) : keeps f (@emit termios e).
Proof. intros w. apply f_log. Qed.

Lemma keeps_get_errno : keeps f (@get_errno termios).
Proof. intros w. reflexivity. Qed.

Lemma keeps_put_errno e : keeps f (@put_errno termios e).
Proof. intros w. apply f_errno. Qed.

Lemma keeps_answer {A} (r : sysret A) v : keeps f (@answer termios A r v).
Proof.
  destruct r; cbn [answer]; [apply keeps_ret|].
  apply keeps_bind; [apply keeps_put_errno|intros _; apply keeps_ret].
Qed.

Lemma keeps_sys_int c : keeps f (@sys_int termios c).
Proof.
  intros w. unfold sys_int. destruct (q_int w) as [|r q]; [reflexivity|].
  transitivity (f (set_q_int q w)); [|apply f_int].
  apply (keeps_bind (emit (ev_call c r)) (fun _ => answer r (fun n => n)));
    [apply keeps_emit|intros _; apply keeps_answer].
Qed.

Lemma keeps_sys_ioctl_TIOCGWINSZ fd :
  keeps f (@sys_ioctl_TIOCGWINSZ termios fd).
Proof.
  intros w. unfold sys_ioctl_TIOCGWINSZ.
  destruct (q_winsz w) as [|r q]; [reflexivity|].
  transitivity (f (set_q_winsz q w)); [|apply f_winsz].
  apply (keeps_bind (emit (ev_ioctl_TIOCGWINSZ fd r))
           (fun _ => match r with
                     | ok sz => ret (ok sz)
                     | fail e => put_errno e ;; ret (fail e)
                     end)); [apply keeps_emit|intros _].
  destruct r; [apply keeps_ret|].
  apply keeps_bind; [apply keeps_put_errno|intros _; apply keeps_ret].
Qed.

Lemma keeps_read_answer r fd buf n :
  keeps f (@read_answer termios r fd buf n).
Proof.
  destruct r; unfold read_answer.
  - apply keeps_bind; [apply keeps_emit|intros _; apply keeps_ret].
  - apply keeps_bind; [apply keeps_emit|intros _].
    apply keeps_bind; [apply keeps_put_errno|intros _; apply keeps_ret].
Qed.

Lemma keeps_sys_read fd buf n : keeps f (@sys_read termios fd buf n).
Proof.
  intros w. unfold sys_read. destruct (q_read w) as [|r q]; [reflexivity|].
  transitivity (f (set_q_read q w)); [|apply f_read].
  apply keeps_read_answer.
Qed.

Lemma keeps_write_answer r fd buf count :
  keeps f (@write_answer termios r fd buf count).
Proof.
  destruct r; unfold write_answer.
  - apply keeps_bind; [apply keeps_emit|intros _; apply keeps_ret].
  - apply keeps_bind; [apply keeps_emit|intros _].
    apply keeps_bind; [apply keeps_put_errno|intros _; apply keeps_ret].
Qed.

Lemma keeps_writeall_loop (q : list (sysret Z)) :
  forall fd buf count, keeps f (@writeall_loop termios q fd buf count).
Proof.
  induction q as [|r q IH]; intros fd buf count w; cbn [writeall_loop].
  - destruct (0 <? count); reflexivity.
  - destruct (0 <? count); [|reflexivity].
    pose proof (keeps_write_answer r fd buf count (set_q_write q w)) as Hk.
    rewrite f_write in Hk.
    destruct (write_answer r fd buf count (set_q_write q w)) as [rv w1|h w1];
      cbn [world_of] in Hk; [|exact Hk].
    destruct (rv <? 0); [destruct (errno w1 =? EINTR)|];
      rewrite ?IH; exact Hk.
Qed.

Lemma keeps_writeall fd buf count : keeps f (@writeall termios fd buf count).
Proof. intros w. apply keeps_writeall_loop. Qed.

Lemma keeps_pselect_answer a nfds set :
  keeps f (@pselect_answer termios a nfds set).
Proof.
  intros w. unfold pselect_answer.
  destruct (snd a), (fst a); cbn [world_of];
    now rewrite ?f_errno, ?f_winch, f_log.
Qed.

Lemma keeps_resize_pty pty : keeps f (@resize_pty termios pty).
Proof.
  unfold resize_pty. apply keeps_bind.
  - apply keeps_sys_ioctl_TIOCGWINSZ.
  - intros [sz|e].
    + apply keeps_bind; [apply keeps_sys_int|intros _; apply keeps_ret].
    + apply keeps_bind; [apply keeps_sys_int|intros rv].
      destruct (rv <? 0); [apply keeps_emit|apply keeps_ret].
Qed.

Lemma keeps_proxy_winch pty : keeps f (@proxy_winch termios pty).
Proof.
  intros w. unfold proxy_winch. destruct (winch_happened w); [|reflexivity].
  rewrite keeps_resize_pty. apply f_winch.
Qed.

Lemma keeps_proxy_stdin pty set buf :
  keeps f (@proxy_stdin termios pty set buf).
Proof.
  unfold proxy_stdin. destruct (fd_isset 0 set); [|apply keeps_ret].
  apply keeps_bind; [apply keeps_sys_read|intros [count buf1]].
  destruct (count <? 0); [apply keeps_ret|].
  apply keeps_bind; [apply keeps_writeall|intros _; apply keeps_ret].
Qed.

Lemma keeps_proxy_pty pty set buf : keeps f (@proxy_pty termios pty set buf).
Proof.
  unfold proxy_pty. destruct (fd_isset pty set); [|apply keeps_ret].
  apply keeps_bind; [apply keeps_sys_read|intros [count buf1]].
  destruct (count <=? 0); [apply keeps_ret|].
  apply keeps_bind; [apply keeps_writeall|intros _; apply keeps_ret].
Qed.

Lemma keeps_proxy_body a pty buf : keeps f (@proxy_body termios a pty buf).
Proof.
  unfold proxy_body. apply keeps_bind; [apply keeps_pselect_answer|].
  intros [rv set]. destruct (rv <? 0).
  - apply keeps_bind; [apply keeps_get_errno|intros e].
    destruct (e =? EINTR); [apply keeps_ret|].
    apply keeps_bind; [apply keeps_emit|intros _; apply keeps_ret].
  - apply keeps_bind; [apply keeps_proxy_stdin|intros [buf1|r]].
    + apply keeps_proxy_pty.
    + apply keeps_ret.
Qed.

Lemma keeps_proxy_loop (q : list (bool * sysret (list Z))) :
  forall pty buf, keeps f (@proxy_loop termios q pty buf).
Proof.
  induction q as [|a q IH]; intros pty buf w; cbn [proxy_loop];
    pose proof (keeps_proxy_winch pty w) as Hw;
    destruct (proxy_winch pty w) as [u w1|h w1]; cbn [world_of] in *;
    try exact Hw.
  pose proof (keeps_proxy_body a pty buf (set_q_pselect q w1)) as Hb.
  rewrite f_pselect in Hb.
  destruct (proxy_body a pty buf (set_q_pselect q w1)) as [[buf1|r] w2|h w2];
    cbn [world_of] in *; rewrite ?IH, Hb; exact Hw.
Qed.

Lemma keeps_do_proxy pty : keeps f (@do_proxy termios pty).
Proof.
  unfold do_proxy. apply keeps_bind; [apply keeps_sys_int|intros rv].
  destruct (rv =? -1).
  - apply keeps_bind; [apply keeps_emit|intros _; apply keeps_ret].
  - apply keeps_bind; [apply keeps_sys_int|intros _].
    apply keeps_bind; [apply keeps_resize_pty|intros _].
    intros w. apply keeps_proxy_loop.
Qed.

End Untouched.

(** [do_proxy] takes no answer meant for tcsetattr. *)
Lemma do_proxy_keeps_tcsetattr pty :
  keeps q_tcsetattr (@do_proxy termios pty).
Proof. apply keeps_do_proxy; reflexivity. Qed.

(** ** Where the proxy loop waits *)

Lemma starved_int (w : world) : q_int w = [] -> starved w.
Proof. intros H. now left. Qed.

Lemma starved_winsz (w : world) : q_winsz w = [] -> starved w.
Proof. intros H. right. now left. Qed.

Lemma starved_pselect (w : world) : q_pselect w = [] -> starved w.
Proof. intros H. right. right. now left. Qed.

Lemma starved_read (w : world) : q_read w = [] -> starved w.
Proof. intros H. right. right. right. now left. Qed.

Lemma starved_write (w : world) : q_write w = [] -> starved w.
Proof. intros H. right. right. right. now right. Qed.

Lemma waits_ret {A} (a : A) : waits (@ret termios A a).
Proof. intros w h w' H. discriminate. Qed.

Lemma waits_bind {A B} (m : @M termios A) (k : A -> @M termios B) :
  waits m -> (forall a, waits (k a)) -> waits (bind m k).
Proof.
  intros Hm Hk w h w' H. unfold bind in H.
  destruct (m w) as [a w1|h1 w1] eqn:E.
  - now apply (Hk a w1).
  - injection H as <- <-. now apply (Hm w).
Qed.

Lemma waits_emit (e : event) : waits (@emit termios e).
Proof. intros w h w' H. discriminate. Qed.

Lemma waits_get_errno : waits (@get_errno termios).
Proof. intros w h w' H. discriminate. Qed.

Lemma waits_sys_int c : waits (@sys_int termios c).
Proof.
  intros w h w' H. unfold sys_int in H.
  destruct (q_int w) as [|[n|e] q] eqn:Hq; try discriminate.
  injection H as <- <-. split; [reflexivity|now apply starved_int].
Qed.

Lemma waits_sys_ioctl_TIOCGWINSZ fd :
  waits (@sys_ioctl_TIOCGWINSZ termios fd).
Proof.
  intros w h w' H. unfold sys_ioctl_TIOCGWINSZ in H.
  destruct (q_winsz w) as [|[sz|e] q] eqn:Hq; try discriminate.
  injection H as <- <-. split; [reflexivity|now apply starved_winsz].
Qed.

Lemma waits_sys_read fd buf n : waits (@sys_read termios fd buf n).
Proof.
  intros w h w' H. unfold sys_read in H.
  destruct (q_read w) as [|[d|e] q] eqn:Hq; try discriminate.
  injection H as <- <-. split; [reflexivity|now apply starved_read].
Qed.

Lemma waits_writeall_loop (q : list (sysret Z)) :
  forall fd buf count (w : world) h w',
    q_write w = q ->
    writeall_loop q fd buf count w = Halt h w' ->
    h = Blocked /\ starved w'.
Proof.
  induction q as [|r q IH]; intros fd buf count w h w' Hq H;
    cbn [writeall_loop] in H; destruct (0 <? count); try discriminate.
  - injection H as <- <-. split; [reflexivity|now apply starved_write].
  - pose proof (keeps_write_answer q_write (fun _ _ => eq_refl)
                  (fun _ _ => eq_refl) r fd buf count (set_q_write q w))
      as Hk.
    destruct (write_answer r fd buf count (set_q_write q w)) as [rv w1|h1 w1]
      eqn:E; cbn [world_of] in Hk.
    + destruct (rv <? 0); [destruct (errno w1 =? EINTR)|];
        try discriminate; (eapply IH; [exact Hk|exact H]).
    + destruct r; discriminate.
Qed.

Lemma waits_writeall fd buf count : waits (@writeall termios fd buf count).
Proof.
  intros w h w' H. now apply (waits_writeall_loop (q_write w) fd buf count w).
Qed.

Lemma waits_resize_pty pty : waits (@resize_pty termios pty).
Proof.
  unfold resize_pty. apply waits_bind.
  - apply waits_sys_ioctl_TIOCGWINSZ.
  - intros [sz|e].
    + apply waits_bind; [apply waits_sys_int|intros _; apply waits_ret].
    + apply waits_bind; [apply waits_sys_int|intros rv].
      destruct (rv <? 0); [apply waits_emit|apply waits_ret].
Qed.

Lemma waits_proxy_winch pty : waits (@proxy_winch termios pty).
Proof.
  intros w h w' H. unfold proxy_winch in H.
  destruct (winch_happened w); [|discriminate].
  now apply (waits_resize_pty pty (set_winch_happened false w)).
Qed.

Lemma waits_proxy_stdin pty set buf :
  waits (@proxy_stdin termios pty set buf).
Proof.
  unfold proxy_stdin. destruct (fd_isset 0 set); [|apply waits_ret].
  apply waits_bind; [apply waits_sys_read|intros [count buf1]].
  destruct (count <? 0); [apply waits_ret|].
  apply waits_bind; [apply waits_writeall|intros _; apply waits_ret].
Qed.

Lemma waits_proxy_pty pty set buf : waits (@proxy_pty termios pty set buf).
Proof.
  unfold proxy_pty. destruct (fd_isset pty set); [|apply waits_ret].
  apply waits_bind; [apply waits_sys_read|intros [count buf1]].
  destruct (count <=? 0); [apply waits_ret|].
  apply waits_bind; [apply waits_writeall|intros _; apply waits_ret].
Qed.

Lemma waits_proxy_body a pty buf : waits (@proxy_body termios a pty buf).
Proof.
  unfold proxy_body. apply waits_bind.
  - intros w h w' H. unfold pselect_answer in H.
    destruct (snd a); discriminate.
  - intros [rv set]. destruct (rv <? 0).
    + apply waits_bind; [apply waits_get_errno|intros e].
      destruct (e =? EINTR); [apply waits_ret|].
      apply waits_bind; [apply waits_emit|intros _; apply waits_ret].
    + apply waits_bind; [apply waits_proxy_stdin|intros [buf1|r]].
      * apply waits_proxy_pty.
      * apply waits_ret.
Qed.

Lemma waits_proxy_loop (q : list (bool * sysret (list Z))) :
  forall pty buf (w : world) h w',
    q_pselect w = q ->
    proxy_loop q pty buf w = Halt h w' ->
    h = Blocked /\ starved w'.
Proof.
  induction q as [|a q IH]; intros pty buf w h w' Hq H; cbn [proxy_loop] in H;
    pose proof (keeps_proxy_winch q_pselect (fun _ _ => eq_refl)
                  (fun _ _ => eq_refl) (fun _ _ => eq_refl)
                  (fun _ _ => eq_refl) (fun _ _ => eq_refl) pty w) as Hk;
    destruct (proxy_winch pty w) as [u w1|h1 w1] eqn:Ew; cbn [world_of] in Hk.
  - injection H as <- <-. split; [reflexivity|].
    apply starved_pselect. congruence.
  - injection H as <- <-. now apply (waits_proxy_winch pty w).
  - pose proof (keeps_proxy_body q_pselect (fun _ _ => eq_refl)
                  (fun _ _ => eq_refl) (fun _ _ => eq_refl)
                  (fun _ _ => eq_refl) (fun _ _ => eq_refl)
                  a pty buf (set_q_pselect q w1)) as Hb.
    destruct (proxy_body a pty buf (set_q_pselect q w1))
      as [[buf1|r] w2|h2 w2] eqn:Eb; cbn [world_of] in Hb.
    + now apply (IH pty buf1 w2).
    + discriminate.
    + injection H as <- <-.
      now apply (waits_proxy_body a pty buf (set_q_pselect q w1)).
  - injection H as <- <-. now apply (waits_proxy_winch pty w).
Qed.

(** A [do_proxy] that has not returned waits in one of its calls, for an
    answer the schedule does not hold. *)
Lemma waits_do_proxy pty : waits (@do_proxy termios pty).
Proof.
  unfold do_proxy. apply waits_bind; [apply waits_sys_int|intros rv].
  destruct (rv =? -1).
  - apply waits_bind; [apply waits_emit|intros _; apply waits_ret].
  - apply waits_bind; [apply waits_sys_int|intros _].
    apply waits_bind; [apply waits_resize_pty|intros _].
    intros w h w' H. now apply (waits_proxy_loop (q_pselect w) pty buf0 w).
Qed.

(** ** The session after [setup_raw] *)

(** What the restoring loop does is decided by the answers scheduled for
    tcsetattr: it goes round on every interruption and stops at the first
    other answer. *)
Lemma restore_loop_outcome (q : list (sysret unit)) (saved : option termios) :
  forall w : world,
  exists k,
    match restore_loop q saved w with
    | Val _ w' =>
        (exists rest, q = repeat (fail EINTR) k ++ ok tt :: rest) /\
        trace w' =
          trace w ++ interrupted saved k ++ [ev_tcsetattr 0 saved (ok tt)]
    | Halt h w' =>
        (h = Blocked /\ q = repeat (fail EINTR) k /\
         trace w' = trace w ++ interrupted saved k)
        \/
        (exists e rest,
           e <> EINTR /\ q = repeat (fail EINTR) k ++ fail e :: rest /\
           h = Died "Unable to tcsetattr: %m" /\
           trace w' =
             trace w ++ interrupted saved k ++
             [ev_tcsetattr 0 saved (fail e);
              ev_stderr "[!] Unable to tcsetattr: %m" []])
    end.
Proof.
  induction q as [|r q IH]; intros w; cbn [restore_loop].
  - exists 0%nat. left. split; [reflexivity|]. split; [reflexivity|].
    cbn. now rewrite app_nil_r.
  - destruct r as [[]|e].
    + exists 0%nat. cbn. split; [now exists q|reflexivity].
    + unfold bind, put_errno, tcsetattr_answer, emit, answer, ret, get_errno.
      cbn -[restore_loop EINTR Z.eqb repeat]. change (-1 =? 0) with false.
      cbn [negb andb].
      destruct (e =? EINTR) eqn:He; cbn [negb].
      * apply Z.eqb_eq in He. subst e. rewrite Z.eqb_refl.
        match goal with |- context [restore_loop q saved ?w0] =>
          destruct (IH w0) as [k Hk]; exists (S k);
          destruct (restore_loop q saved w0) as [u w'|h w']
        end.
        -- destruct Hk as ((rest & ->) & Hk).
           split; [now exists rest|]. rewrite Hk. same_trace.
        -- destruct Hk as [(-> & -> & Hk)|(e & rest & He & -> & -> & Hk)].
           ++ left. split; [reflexivity|]. split; [reflexivity|].
              rewrite Hk. same_trace.
           ++ right. exists e, rest. repeat split; auto. rewrite Hk.
              same_trace.
      * exists 0%nat. cbn. right. exists e, q.
        split; [now apply Z.eqb_neq|].
        split; [reflexivity|]. split; [reflexivity|same_trace].
Qed.

(** From the return of [setup_raw] to the end of the session. *)
Lemma session_after_setup (pty : Z) (saved saved1 : option termios)
  (w w1 : world) :
  setup_raw cfmakeraw saved w = Val saved1 w1 ->
  exists mid,
    Forall (fun e => is_tcsetattr e = false) mid /\
    match do_proxy pty w1 with
    | Halt h w2 =>
        h = Blocked /\ starved w2 /\ trace w2 = trace w1 ++ mid /\
        proxy_session cfmakeraw pty saved w = Halt Blocked w2
    | Val _ w2 =>
        trace w2 = trace w1 ++ mid /\
        q_tcsetattr w2 = q_tcsetattr w1 /\
        exists k,
          match proxy_session cfmakeraw pty saved w with
          | Val s w' =>
              s = saved1 /\
              (exists rest,
                 q_tcsetattr w1 = repeat (fail EINTR) k ++ ok tt :: rest) /\
              exists rc,
                trace w' =
                  trace w2 ++ interrupted saved1 k ++
                  [ev_tcsetattr 0 saved1 (ok tt); ev_call (c_close pty) rc]
          | Halt (Died msg) w' =>
              msg = "Unable to tcsetattr: %m"%string /\
              exists e rest,
                e <> EINTR /\
                q_tcsetattr w1 = repeat (fail EINTR) k ++ fail e :: rest /\
                trace w' =
                  trace w2 ++ interrupted saved1 k ++
                  [ev_tcsetattr 0 saved1 (fail e);
                   ev_stderr "[!] Unable to tcsetattr: %m" []]
          | Halt Blocked w' =>
              (q_tcsetattr w1 = repeat (fail EINTR) k /\
               trace w' = trace w2 ++ interrupted saved1 k)
              \/
              (q_int w' = [] /\
               (exists rest,
                  q_tcsetattr w1 = repeat (fail EINTR) k ++ ok tt :: rest) /\
               trace w' =
                 trace w2 ++ interrupted saved1 k ++
                 [ev_tcsetattr 0 saved1 (ok tt)])
          | Halt _ _ => False
          end
    end.
Proof.
  intros E1.
  assert (Es : proxy_session cfmakeraw pty saved w =
               match do_proxy pty w1 with
               | Val _ w2 =>
                   (restore saved1 ;; sys_int (c_close pty) ;; ret saved1) w2
               | Halt h w2 => Halt h w2
               end).
  { unfold proxy_session, bind at 1. rewrite E1. reflexivity. }
  rewrite Es. clear Es.
  destruct (run_ok_do_proxy (fun e => is_tcsetattr e = false)
              (fun h => h = Blocked) eq_refl (fun e H => H) pty w1)
    as [(mid & Ht2 & Hmid) Hh2].
  pose proof (do_proxy_keeps_tcsetattr pty w1) as Hq2.
  pose proof (waits_do_proxy pty w1) as Hw2.
  exists mid. split; [exact Hmid|].
  destruct (do_proxy pty w1) as [u w2|h w2]; cbn [world_of] in Ht2, Hq2.
  2:{ destruct (Hw2 h w2 eq_refl) as [-> Hs]. auto. }
  split; [exact Ht2|]. split; [exact Hq2|].
  change ((restore saved1 ;; sys_int (c_close pty) ;; ret saved1) w2) with
    (match restore_loop (q_tcsetattr w2) saved1 w2 with
     | Val _ w3 => (sys_int (c_close pty) ;; ret saved1) w3
     | Halt h w3 => Halt h w3
     end).
  rewrite Hq2.
  destruct (restore_loop_outcome (q_tcsetattr w1) saved1 w2) as [k Hk].
  exists k.
  destruct (restore_loop (q_tcsetattr w1) saved1 w2) as [u' w3|h w3].
  - destruct Hk as (Hrest & Hk).
    destruct (q_int w3) as [|rc qi] eqn:Hq.
    + unfold bind, sys_int. rewrite Hq. right.
      split; [exact Hq|]. split; [exact Hrest|exact Hk].
    + rewrite (bind_sys_int _ _ _ _ _ Hq). unfold ret.
      split; [reflexivity|]. split; [exact Hrest|]. exists rc.
      rewrite trace_after_int, Hk. now rewrite <- !app_assoc.
  - destruct Hk as [(-> & Hq & Hk)|(e & rest & He & Hq & -> & Hk)].
    + left. auto.
    + split; [reflexivity|]. exists e, rest. auto.
Qed.

(** C2. In a head-mode session that entered raw mode (tcgetattr gave a
    snapshot and tcsetattr applied its raw version), [do_proxy] runs on a
    descriptor inside the [fd_set], calls tcsetattr never and takes none of
    its answers, and either is still waiting in one of its calls, for an
    answer the schedule does not hold, or returns.  Whichever way it
    returns, [main] then calls tcsetattr with the snapshot, once for every
    interruption (EINTR) scheduled and once more for the first other
    answer.  That answer decides how the session ends: on success the
    snapshot was restored exactly once, right before close(pty); a failure
    that is not an interruption is reported by [die].  The process is
    blocked after [do_proxy] returned only when every answer scheduled for
    tcsetattr was an interruption, or, the snapshot restored, when
    close(pty) has no answer. *)
Theorem raw_mode_restored_once (pty : Z) (saved : option termios) (w : world)
  (t : termios) (qg : list (sysret termios)) (qs : list (sysret unit)) :
  in_fd_set pty ->
  q_tcgetattr w = ok t :: qg ->
  q_tcsetattr w = ok tt :: qs ->
  exists w1 mid,
    setup_raw cfmakeraw saved w = Val (Some t) w1 /\
    Forall (fun e => is_tcsetattr e = false) mid /\
    let entered :=
      trace w ++
      [ev_tcgetattr 0 (ok t); ev_tcsetattr 0 (Some (cfmakeraw t)) (ok tt)] ++
      mid in
    match do_proxy pty w1 with
    | Halt h w2 =>
        h = Blocked /\ starved w2 /\ trace w2 = entered /\
        proxy_session cfmakeraw pty saved w = Halt Blocked w2
    | Val _ w2 =>
        trace w2 = entered /\
        q_tcsetattr w2 = qs /\
        exists k,
          match proxy_session cfmakeraw pty saved w with
          | Val saved1 w' =>
              saved1 = Some t /\
              (exists rest, qs = repeat (fail EINTR) k ++ ok tt :: rest) /\
              exists rc,
                trace w' =
                  entered ++ interrupted (Some t) k ++
                  [ev_tcsetattr 0 (Some t) (ok tt); ev_call (c_close pty) rc]
          | Halt (Died msg) w' =>
              msg = "Unable to tcsetattr: %m"%string /\
              exists e rest,
                e <> EINTR /\
                qs = repeat (fail EINTR) k ++ fail e :: rest /\
                trace w' =
                  entered ++ interrupted (Some t) k ++
                  [ev_tcsetattr 0 (Some t) (fail e);
                   ev_stderr "[!] Unable to tcsetattr: %m" []]
          | Halt Blocked w' =>
              (qs = repeat (fail EINTR) k /\
               trace w' = entered ++ interrupted (Some t) k)
              \/
              (q_int w' = [] /\
               (exists rest, qs = repeat (fail EINTR) k ++ ok tt :: rest) /\
               trace w' =
                 entered ++ interrupted (Some t) k ++
                 [ev_tcsetattr 0 (Some t) (ok tt)])
          | Halt _ _ => False
          end
    end.
Proof.
  intros _ Hg Hs.
  destruct (setup_raw_enters saved w t qg qs Hg Hs) as (w1 & E1 & Ht1 & Hq1).
  destruct (session_after_setup pty saved (Some t) w w1 E1) as (mid & Hmid & H).
  exists w1, mid. split; [exact E1|]. split; [exact Hmid|]. cbn zeta.
  rewrite Hq1, Ht1, <- app_assoc in H.
  destruct (do_proxy pty w1) as [u w2|h w2]; [|exact H].
  destruct H as (Ht2 & Hq2 & k & H).
  split; [exact Ht2|]. split; [exact Hq2|]. exists k.
  rewrite Ht2 in H. exact H.
Qed.

(** ** The accept loop only ever extends the trace *)

Lemma run_ok_setup_raw saved :
  run_ok (@any_event termios) any_halt (setup_raw cfmakeraw saved).
Proof.
  unfold setup_raw. apply run_ok_bind.
  - now apply run_ok_sys_tcgetattr.
  - intros [t|e].
    + apply run_ok_bind; [now apply run_ok_sys_tcsetattr|intros rv].
      destruct (rv <? 0); [now apply run_ok_die|apply run_ok_ret].
    + apply run_ok_bind; [now apply run_ok_emit|intros _; apply run_ok_ret].
Qed.

Lemma run_ok_restore saved :
  run_ok (@any_event termios) any_halt (restore saved).
Proof.
  intros w. unfold restore.
  destruct (restore_loop_run (q_tcsetattr w) saved w) as [k Hk].
  split; [|easy].
  destruct (restore_loop (q_tcsetattr w) saved w) as [u w'|h w'];
    cbn [world_of].
  - eexists. split; [exact Hk|]. now apply Forall_forall.
  - destruct Hk as [(_ & Hk)|(e & _ & _ & Hk)];
      (eexists; split; [exact Hk|]; now apply Forall_forall).
Qed.

Lemma run_ok_proxy_session pty saved :
  run_ok (@any_event termios) any_halt (proxy_session cfmakeraw pty saved).
Proof.
  unfold proxy_session.
  apply run_ok_bind; [apply run_ok_setup_raw|intros saved1].
  apply run_ok_bind; [now apply run_ok_do_proxy|intros _].
  apply run_ok_bind; [apply run_ok_restore|intros _].
  apply run_ok_bind; [now apply run_ok_sys_int|intros _; apply run_ok_ret].
Qed.

Lemma run_ok_session connection saved :
  run_ok (@any_event termios) any_halt (session cfmakeraw connection saved).
Proof.
  unfold session.
  apply run_ok_bind; [now apply run_ok_sys_int|intros pty].
  apply run_ok_bind;
    [destruct (pty <? 0); [now apply run_ok_die|apply run_ok_ret]|intros _].
  apply run_ok_bind; [now apply run_ok_sys_int|intros rv].
  apply run_ok_bind;
    [destruct (rv <? 0); [now apply run_ok_die|apply run_ok_ret]|intros _].
  apply run_ok_proxy_session.
Qed.

(** What the accept loop does once accept returned [connection]. *)
Lemma run_ok_head_tail (q : list (sysret Z)) (socket : option Z)
  (connection : Z) (saved : option termios) :
  (forall saved1, run_ok (@any_event termios) any_halt
                    (head_loop cfmakeraw q socket saved1)) ->
  run_ok (@any_event termios) any_halt
    (fun w1 =>
       if 0 <=? connection then
         match session cfmakeraw connection saved w1 with
         | Val saved1 w2 => head_loop cfmakeraw q socket saved1 w2
         | Halt h w2 => Halt h w2
         end
       else die "accept: %m" w1).
Proof.
  intros IH. destruct (0 <=? connection); [|now apply run_ok_die].
  apply (run_ok_bind (@any_event termios) any_halt
           (session cfmakeraw connection saved)
           (fun saved1 => head_loop cfmakeraw q socket saved1)).
  - apply run_ok_session.
  - exact IH.
Qed.

Lemma run_ok_head_loop (q : list (sysret Z)) :
  forall socket saved,
    run_ok (@any_event termios) any_halt (head_loop cfmakeraw q socket saved).
Proof.
  induction q as [|r q IH]; intros socket saved w; cbn [head_loop].
  - destruct socket; cbn; (split; [exists []; now rewrite app_nil_r|easy]).
  - apply (run_ok_bind (@any_event termios) any_halt
             (fun w0 => (s <- read_socket socket ;; accept_answer r s)
                          (set_q_accept q w0))
             (fun connection w1 =>
                if 0 <=? connection then
                  match session cfmakeraw connection saved w1 with
                  | Val saved1 w2 => head_loop cfmakeraw q socket saved1 w2
                  | Halt h w2 => Halt h w2
                  end
                else die "accept: %m" w1)).
    + intros w0.
      apply (run_ok_from_trans (@any_event termios) any_halt w0
               (set_q_accept q w0) []);
        [now rewrite app_nil_r|constructor|].
      apply run_ok_bind.
      * destruct socket; [apply run_ok_ret|now apply run_ok_stop].
      * intros s. unfold accept_answer.
        apply run_ok_bind; [now apply run_ok_emit|intros _].
        apply run_ok_answer.
    + intros connection. apply run_ok_head_tail. intros saved1. apply IH.
Qed.

(** ** The proxy loop: the side of the pseudo-terminal *)

Lemma proxy_pty_ends (pty : Z) (set : list Z) (buf : list Byte.byte)
  (w : world) (r : sysret (list Byte.byte))
  (qr : list (sysret (list Byte.byte))) :
  fd_isset pty set = true ->
  q_read w = r :: qr ->
  eof_or_error r = true ->
  exists w1,
    proxy_pty pty set buf w = Val (Return tt) w1 /\
    trace w1 = trace w ++ [ev_read pty sizeof_buf r] /\
    q_pselect w1 = q_pselect w.
Proof.
  intros Hset Hq Hr. unfold proxy_pty. rewrite Hset. unfold bind.
  destruct r as [[|b d]|e]; [|discriminate|].
  - rewrite (sys_read_ok pty buf sizeof_buf w [] qr Hq), firstn_nil.
    cbn [length Z.of_nat Z.leb Z.compare]. eexists.
    split; [reflexivity|]. split; reflexivity.
  - rewrite (sys_read_fail pty buf sizeof_buf w e qr Hq).
    cbn [Z.leb Z.compare]. eexists. split; [reflexivity|]. split; reflexivity.
Qed.

(** The pass of the loop in which pselect reports the pseudo-terminal
    alone and its read finds it closed. *)
Lemma proxy_body_pty_closed (pty : Z) (buf : list Byte.byte) (w : world)
  (winch : bool) (ready : list Z) (r : sysret (list Byte.byte))
  (qr : list (sysret (list Byte.byte))) :
  pty <> 0 ->
  fd_isset 0 ready = false ->
  fd_isset pty ready = true ->
  q_read w = r :: qr ->
  eof_or_error r = true ->
  exists w2,
    proxy_body (winch, ok ready) pty buf w = Val (Return tt) w2 /\
    q_pselect w2 = q_pselect w /\
    trace w2 =
      trace w ++
      [ev_pselect (pty + 1) [0; pty] winch (ok ready);
       ev_read pty sizeof_buf r].
Proof.
  intros Hne H0 Hpty Hq Hr.
  set (w1 := (if winch then set_winch_happened true
                (log (ev_pselect (pty + 1) [0; pty] winch (ok ready)) w)
              else log (ev_pselect (pty + 1) [0; pty] winch (ok ready)) w)).
  assert (Hq1 : q_read w1 = r :: qr) by (unfold w1; now destruct winch).
  assert (Hp1 : q_pselect w1 = q_pselect w) by (unfold w1; now destruct winch).
  assert (Ht1 : trace w1 =
                trace w ++ [ev_pselect (pty + 1) [0; pty] winch (ok ready)])
    by (unfold w1; now destruct winch).
  assert (Hin : fd_isset pty [pty] = true)
    by (cbn [fd_isset existsb]; now rewrite Z.eqb_refl).
  destruct (proxy_pty_ends pty [pty] buf w1 r qr Hin Hq1 Hr)
    as (w2 & E2 & Ht2 & Hp2).
  exists w2. split; [|split; [congruence|]].
  - unfold proxy_body, bind at 1, pselect_answer.
    cbn [fst snd filter]. rewrite H0, Hpty. fold w1.
    cbn [length Z.of_nat Z.ltb Z.compare Pos.of_succ_nat].
    unfold bind, proxy_stdin. cbn [fd_isset existsb orb].
    apply Z.eqb_neq in Hne. rewrite Z.eqb_sym, Hne. unfold ret. exact E2.
  - rewrite Ht2, Ht1. now rewrite <- app_assoc.
Qed.

(** ** A closed pseudo-terminal ends [do_proxy] *)

Section Closing.

Variable pty : Z.
Hypothesis pty_not_stdin : pty <> 0.

Let Q : event -> Prop := @pty_open termios pty.
Let B : halt -> Prop := fun h => h = Blocked.
Let R : bool -> list event -> Prop :=
  fun returned evs => ends_there pty returned evs = true.

Lemma open_read_stdin n r : Q (ev_read 0 n r).
Proof.
  unfold Q, pty_open, pty_closed. destruct (0 =? pty) eqn:E; [|reflexivity].
  apply Z.eqb_eq in E. congruence.
Qed.

Lemma ends_there_app (b : bool) (evs1 evs2 : list event) :
  Forall Q evs1 ->
  ends_there pty b (evs1 ++ evs2) = ends_there pty b evs2.
Proof.
  induction 1 as [|e evs1 He _ IH]; [reflexivity|].
  cbn [app ends_there]. now rewrite He.
Qed.

Lemma ends_there_open (b : bool) (evs : list event) :
  Forall Q evs -> ends_there pty b evs = true.
Proof.
  intros H. rewrite <- (app_nil_r evs). now rewrite ends_there_app.
Qed.

Lemma ends_there_single (e : event) : ends_there pty true [e] = true.
Proof. cbn. now destruct (pty_closed pty e). Qed.

Lemma ends_there_last (b : bool) (evs0 : list event) (e : event)
  (rest : list event) :
  ends_there pty b (evs0 ++ e :: rest) = true ->
  pty_closed pty e = true ->
  rest = [] /\ b = true.
Proof.
  intros H He. induction evs0 as [|x evs0 IH]; cbn [app ends_there] in H.
  - rewrite He in H. apply andb_prop in H. destruct H as [-> H].
    now destruct rest.
  - destruct (pty_closed pty x); [|now apply IH].
    apply andb_prop in H. destruct H as [_ H]. now destruct evs0.
Qed.

Lemma open_writeall_loop (q : list (sysret Z)) :
  forall fd buf count, run_ok Q B (writeall_loop q fd buf count).
Proof.
  induction q as [|r q IH]; intros fd buf count w; cbn [writeall_loop].
  - destruct (0 <? count); [|apply run_ok_from_val].
    apply (run_ok_from_halt Q B Blocked w w []);
      [now rewrite app_nil_r|constructor|reflexivity].
  - destruct (0 <? count); [|apply run_ok_from_val].
    destruct (run_ok_write_answer Q B r fd buf count
                (fun data r' => eq_refl) (set_q_write q w))
      as [(evs & Ht & HP) Hh].
    destruct (write_answer r fd buf count (set_q_write q w)) as [rv w1|h w1];
      cbn [world_of] in Ht.
    + destruct (rv <? 0); [destruct (errno w1 =? EINTR)|];
        apply (run_ok_from_trans Q B w w1 evs); auto;
        first [apply IH | apply run_ok_from_val].
    + apply (run_ok_from_halt Q B h w w1 evs); auto. now apply (Hh h w1).
Qed.

Lemma open_writeall fd buf count : run_ok Q B (writeall fd buf count).
Proof. intros w. apply open_writeall_loop. Qed.

Lemma open_resize_pty : run_ok Q B (resize_pty pty).
Proof.
  unfold resize_pty. apply run_ok_bind.
  - apply run_ok_sys_ioctl_TIOCGWINSZ; try reflexivity.
  - intros [sz|e].
    + apply run_ok_bind; [|intros _; apply run_ok_ret].
      apply run_ok_sys_int; reflexivity.
    + apply run_ok_bind; [apply run_ok_sys_int; reflexivity|].
      intros rv. destruct (rv <? 0); [|apply run_ok_ret].
      apply run_ok_emit. reflexivity.
Qed.

Lemma open_proxy_winch : run_ok Q B (proxy_winch pty).
Proof.
  intros w. unfold proxy_winch. destruct (winch_happened w).
  - apply (run_ok_from_trans Q B w (set_winch_happened false w) []).
    + now rewrite app_nil_r.
    + constructor.
    + apply open_resize_pty.
  - apply run_ok_from_val.
Qed.

Lemma open_proxy_stdin set buf : run_ok Q B (proxy_stdin pty set buf).
Proof.
  unfold proxy_stdin. destruct (fd_isset 0 set); [|apply run_ok_ret].
  apply run_ok_bind.
  - apply run_ok_sys_read; [reflexivity|]. intros r. apply open_read_stdin.
  - intros [count buf1]. destruct (count <? 0); [apply run_ok_ret|].
    apply run_ok_bind; [apply open_writeall|intros _; apply run_ok_ret].
Qed.

(** *** One pass *)

Lemma pass_from_open {A X} (w : world) (r : res (flow A X)) :
  run_ok_from Q B w r -> pass_from pty w r.
Proof.
  intros [(evs & Ht & HP) Hh]. split; [|exact Hh].
  exists evs. split; [exact Ht|].
  destruct (returns r); [now apply ends_there_open|exact HP].
Qed.

Lemma pass_from_trans {A X} (w w1 : world) (evs : list event)
  (r : res (flow A X)) :
  trace w1 = trace w ++ evs -> Forall Q evs ->
  pass_from pty w1 r -> pass_from pty w r.
Proof.
  intros Ht HP [(evs' & Ht' & H) Hh]. split; [|exact Hh].
  exists (evs ++ evs'). split; [now rewrite Ht', Ht, app_assoc|].
  destruct (returns r).
  - now rewrite ends_there_app.
  - apply Forall_app; auto.
Qed.

Lemma pass_bind {A X Y} (m : M Y) (k : Y -> M (flow A X)) :
  run_ok Q B m -> (forall y w, pass_from pty w (k y w)) ->
  forall w, pass_from pty w (bind m k w).
Proof.
  intros Hm Hk w. destruct (Hm w) as [(evs & Ht & HP) Hh]. unfold bind.
  destruct (m w) as [y w1|h w1]; cbn [world_of] in Ht.
  - apply (pass_from_trans w w1 evs); auto.
  - apply pass_from_open. split; [now exists evs|].
    intros h' w' [= <- <-]. now apply (Hh h w1).
Qed.

Lemma pass_proxy_pty set buf (w : world) :
  pass_from pty w (proxy_pty pty set buf w).
Proof.
  unfold proxy_pty.
  destruct (fd_isset pty set); [|apply pass_from_open, run_ok_ret].
  unfold bind at 1. destruct (q_read w) as [|[d|e] qr] eqn:Hq.
  - unfold sys_read. rewrite Hq. apply pass_from_open.
    apply (run_ok_from_halt Q B Blocked w w []);
      [now rewrite app_nil_r|constructor|reflexivity].
  - rewrite (sys_read_ok pty buf sizeof_buf w d qr Hq).
    set (data := firstn (Z.to_nat sizeof_buf) d).
    destruct (Z.of_nat (length data) <=? 0) eqn:Hle.
    + split; [|discriminate].
      exists [ev_read pty sizeof_buf (ok data)]. split; [reflexivity|].
      apply ends_there_single.
    + apply (pass_from_trans w
               (log (ev_read pty sizeof_buf (ok data)) (set_q_read qr w))
               [ev_read pty sizeof_buf (ok data)]).
      * reflexivity.
      * constructor; [|constructor]. unfold Q, pty_open, pty_closed.
        destruct data; [discriminate|]. apply andb_false_r.
      * apply pass_from_open.
        apply (run_ok_bind Q B (writeall 1 (store data buf)
                                  (Z.of_nat (length data)))
                 (fun _ => ret (Next (store data buf))));
          [apply open_writeall|intros _; apply run_ok_ret].
  - rewrite (sys_read_fail pty buf sizeof_buf w e qr Hq).
    cbn [Z.leb Z.compare]. split; [|discriminate].
    exists [ev_read pty sizeof_buf (fail e)]. split; [reflexivity|].
    apply ends_there_single.
Qed.

Lemma pass_proxy_body a buf (w : world) :
  pass_from pty w (proxy_body a pty buf w).
Proof.
  revert w. unfold proxy_body. apply pass_bind.
  - apply run_ok_pselect_answer. reflexivity.
  - intros [rv set] w. destruct (rv <? 0).
    + apply pass_from_open.
      apply run_ok_bind; [apply run_ok_get_errno|intros e].
      destruct (e =? EINTR); [apply run_ok_ret|].
      apply run_ok_bind; [|intros _; apply run_ok_ret].
      apply run_ok_emit. reflexivity.
    + revert w. apply pass_bind; [apply open_proxy_stdin|].
      intros [buf1|u] w.
      * apply pass_proxy_pty.
      * apply pass_from_open, run_ok_ret.
Qed.

(** *** The loop and [do_proxy] *)

Lemma closing_open {A} (w : world) (r : res A) :
  run_ok_from Q B w r -> runs_from R w r.
Proof.
  intros [(evs & Ht & HP) Hh]. split; [|exact Hh].
  exists evs. split; [exact Ht|]. now apply ends_there_open.
Qed.

Lemma closing_trans {A} (w w1 : world) (evs : list event) (r : res A) :
  trace w1 = trace w ++ evs -> Forall Q evs ->
  runs_from R w1 r -> runs_from R w r.
Proof.
  intros Ht HP [(evs' & Ht' & H) Hh]. split; [|exact Hh].
  exists (evs ++ evs'). split; [now rewrite Ht', Ht, app_assoc|].
  unfold R. now rewrite ends_there_app.
Qed.

Lemma closing_bind {A Y} (m : M Y) (k : Y -> M A) :
  run_ok Q B m -> (forall y w, runs_from R w (k y w)) ->
  forall w, runs_from R w (bind m k w).
Proof.
  intros Hm Hk w. destruct (Hm w) as [(evs & Ht & HP) Hh]. unfold bind.
  destruct (m w) as [y w1|h w1]; cbn [world_of] in Ht.
  - apply (closing_trans w w1 evs); auto.
  - apply closing_open. split; [now exists evs|].
    intros h' w' [= <- <-]. now apply (Hh h w1).
Qed.

Lemma closing_proxy_loop (q : list (bool * sysret (list Z))) :
  forall buf (w : world), runs_from R w (proxy_loop q pty buf w).
Proof.
  induction q as [|a q IH]; intros buf w; cbn [proxy_loop];
    destruct (open_proxy_winch w) as [(evs & Ht & HP) Hh];
    destruct (proxy_winch pty w) as [u w1|h w1]; cbn [world_of] in Ht;
    try (apply closing_open, (run_ok_from_halt Q B _ w w1 evs); auto;
         first [reflexivity | now apply (Hh h w1)]).
  apply (closing_trans w w1 evs); auto.
  destruct (pass_proxy_body a buf (set_q_pselect q w1))
    as [(evs2 & Ht2 & H2) Hh2].
  destruct (proxy_body a pty buf (set_q_pselect q w1)) as [[buf1|u'] w2|h w2];
    cbn [world_of returns] in Ht2, H2.
  - apply (closing_trans w1 w2 evs2); auto.
  - split; [|discriminate]. now exists evs2.
  - apply closing_open, (run_ok_from_halt Q B _ w1 w2 evs2); auto.
    now apply (Hh2 h w2).
Qed.

Lemma closing_do_proxy (w : world) : runs_from R w (do_proxy pty w).
Proof.
  revert w. unfold do_proxy. apply closing_bind.
  - apply run_ok_sys_int; reflexivity.
  - intros rv w. destruct (rv =? -1).
    + apply closing_open.
      apply run_ok_bind; [|intros _; apply run_ok_ret].
      apply run_ok_emit. reflexivity.
    + revert w. apply closing_bind; [apply run_ok_sys_int; reflexivity|].
      intros _. apply closing_bind; [apply open_resize_pty|].
      intros _ w. apply closing_proxy_loop.
Qed.

(** In any run of [do_proxy], a read that finds the pseudo-terminal closed
    is the last thing the run did, and the run has returned. *)
Lemma do_proxy_pty_closed (w : world) (evs0 rest : list event) (n : Z)
  (r : sysret (list Byte.byte)) :
  eof_or_error r = true ->
  trace (world_of (do_proxy pty w)) =
    trace w ++ evs0 ++ ev_read pty n r :: rest ->
  rest = [] /\ exists w2, do_proxy pty w = Val tt w2.
Proof.
  intros Hr Ht. destruct (closing_do_proxy w) as [(evs & Ht' & H) _].
  rewrite Ht in Ht'. apply app_inv_head in Ht'. subst evs.
  apply ends_there_last in H.
  - destruct H as [-> Hv]. split; [reflexivity|].
    destruct (do_proxy pty w) as [[] w2|h w2]; [now exists w2|discriminate].
  - cbn. now rewrite Z.eqb_refl, Hr.
Qed.

End Closing.

(** [resize_pty] returns once its two calls are answered. *)
Lemma resize_pty_returns (pty : Z) (w : world) (rz : sysret winsize)
  (qz : list (sysret winsize)) (r3 : sysret Z) (qi : list (sysret Z)) :
  q_winsz w = rz :: qz ->
  q_int w = r3 :: qi ->
  exists w4 evs,
    resize_pty pty w = Val tt w4 /\
    trace w4 = trace w ++ ev_ioctl_TIOCGWINSZ 0 rz :: evs /\
    winch_happened w4 = winch_happened w /\
    q_pselect w4 = q_pselect w /\
    q_read w4 = q_read w.
Proof.
  intros Hz Hq. destruct w; cbn in Hz, Hq; subst.
  unfold resize_pty, bind, sys_ioctl_TIOCGWINSZ, sys_int.
  destruct rz as [sz|e].
  - destruct r3 as [n|e3]; simpl; eexists; eexists;
      (split; [reflexivity|]); (split; [same_trace|]); repeat split.
  - destruct r3 as [n|e3]; simpl; [destruct (n <? 0)|]; simpl;
      eexists; eexists;
      (split; [reflexivity|]); (split; [same_trace|]); repeat split.
Qed.

(** [do_proxy] from its first call to the end of a first pass that finds
    the pseudo-terminal closed. *)
Lemma do_proxy_first_pass_closed (pty : Z) (w : world)
  (r1 r2 r3 : sysret Z) (qi : list (sysret Z)) (rz : sysret winsize)
  (qz : list (sysret winsize)) (winch : bool) (ready : list Z)
  (q : list (bool * sysret (list Z))) (r : sysret (list Byte.byte))
  (qr : list (sysret (list Byte.byte))) :
  pty <> 0 ->
  q_int w = r1 :: r2 :: r3 :: qi ->
  returned r1 <> -1 ->
  q_winsz w = rz :: qz ->
  winch_happened w = false ->
  q_pselect w = (winch, ok ready) :: q ->
  fd_isset 0 ready = false ->
  fd_isset pty ready = true ->
  q_read w = r :: qr ->
  eof_or_error r = true ->
  exists w' evs,
    do_proxy pty w = Val tt w' /\
    q_pselect w' = q /\
    trace w' =
      trace w ++
      ev_call c_sigprocmask_block_SIGWINCH r1 ::
      ev_call c_sigaction_SIGWINCH_do_winch r2 ::
      ev_ioctl_TIOCGWINSZ 0 rz :: evs ++
      [ev_pselect (pty + 1) [0; pty] winch (ok ready);
       ev_read pty sizeof_buf r].
Proof.
  intros Hne Hq Hr Hz Hw Hp H0 Hpty Hrd Heof.
  unfold do_proxy. rewrite (bind_sys_int _ _ _ _ _ Hq).
  apply Z.eqb_neq in Hr. rewrite Hr.
  erewrite bind_sys_int by (rewrite q_int_after_int; reflexivity).
  set (w2 := after_int _ r2 _ _).
  assert (Hz2 : q_winsz w2 = rz :: qz)
    by (unfold w2; destruct r1, r2; exact Hz).
  assert (Hq2 : q_int w2 = r3 :: qi)
    by (unfold w2; now rewrite q_int_after_int).
  assert (Ht2 : trace w2 = trace w ++
                [ev_call c_sigprocmask_block_SIGWINCH r1;
                 ev_call c_sigaction_SIGWINCH_do_winch r2]).
  { unfold w2. rewrite !trace_after_int. same_trace. }
  assert (Hw2 : winch_happened w2 = false)
    by (unfold w2; destruct r1, r2; exact Hw).
  assert (Hp2 : q_pselect w2 = (winch, ok ready) :: q)
    by (unfold w2; destruct r1, r2; exact Hp).
  assert (Hrd2 : q_read w2 = r :: qr)
    by (unfold w2; destruct r1, r2; exact Hrd).
  clearbody w2.
  destruct (resize_pty_returns pty w2 rz qz r3 qi Hz2 Hq2)
    as (w4 & evs & E4 & Ht4 & Hw4 & Hp4 & Hrd4).
  rewrite Hw2 in Hw4. rewrite Hp2 in Hp4. rewrite Hrd2 in Hrd4.
  unfold bind. rewrite E4, Hp4. cbn [proxy_loop].
  unfold proxy_winch. rewrite Hw4.
  destruct (proxy_body_pty_closed pty buf0 (set_q_pselect q w4) winch ready
              r qr Hne H0 Hpty Hrd4 Heof) as (w' & E & Hp' & Ht').
  rewrite E. exists w', evs. split; [reflexivity|]. split; [exact Hp'|].
  rewrite Ht'. cbn [trace set_q_pselect]. rewrite Ht4, Ht2.
  rewrite <- !app_assoc. reflexivity.
Qed.

(** C5. When the read on the pseudo-terminal master returns 0 bytes or
    fails, that branch returns from [do_proxy] at once.  So does the pass
    of the loop in which pselect reported the pseudo-terminal and that read
    followed: the loop ends there, without another pselect, and when this
    is the first pass [do_proxy] returns after its three opening calls, the
    size setting, that pselect and that read.  In any run of [do_proxy]
    such a read is the last thing the run did, and the run has returned.  [do_proxy] returns nothing, so no error reaches [main]: in
    a head that accepted a connection and received [pty] over it, once
    tcsetattr and close(pty) get their answers the session ends normally
    with the terminal restored and the descriptor closed, and the next
    thing the accept loop does is accept again.  [pty] is a descriptor
    inside the [fd_set] other than standard input. *)
Theorem pty_eof_ends_session (pty : Z) (r : sysret (list Byte.byte)) :
  in_fd_set pty ->
  pty <> 0 ->
  eof_or_error r = true ->
  (forall set buf (w : world) qr,
     fd_isset pty set = true ->
     q_read w = r :: qr ->
     exists w1,
       proxy_pty pty set buf w = Val (Return tt) w1 /\
       trace w1 = trace w ++ [ev_read pty sizeof_buf r])
  /\
  (forall winch ready q buf (w w1 : world) qr,
     proxy_winch pty w = Val tt w1 ->
     fd_isset 0 ready = false ->
     fd_isset pty ready = true ->
     q_read w1 = r :: qr ->
     exists w2,
       proxy_body (winch, ok ready) pty buf (set_q_pselect q w1)
         = Val (Return tt) w2 /\
       proxy_loop ((winch, ok ready) :: q) pty buf w = Val tt w2 /\
       q_pselect w2 = q /\
       trace w2 =
         trace w1 ++
         [ev_pselect (pty + 1) [0; pty] winch (ok ready);
          ev_read pty sizeof_buf r])
  /\
  (forall (w : world) r1 r2 r3 qi rz qz winch ready q qr,
     q_int w = r1 :: r2 :: r3 :: qi ->
     returned r1 <> -1 ->
     q_winsz w = rz :: qz ->
     winch_happened w = false ->
     q_pselect w = (winch, ok ready) :: q ->
     fd_isset 0 ready = false ->
     fd_isset pty ready = true ->
     q_read w = r :: qr ->
     exists w' evs,
       do_proxy pty w = Val tt w' /\
       q_pselect w' = q /\
       trace w' =
         trace w ++
         ev_call c_sigprocmask_block_SIGWINCH r1 ::
         ev_call c_sigaction_SIGWINCH_do_winch r2 ::
         ev_ioctl_TIOCGWINSZ 0 rz :: evs ++
         [ev_pselect (pty + 1) [0; pty] winch (ok ready);
          ev_read pty sizeof_buf r])
  /\
  (forall (w : world) evs0 n rest,
     trace (world_of (do_proxy pty w)) =
       trace w ++ evs0 ++ ev_read pty n r :: rest ->
     rest = [] /\ exists w2, do_proxy pty w = Val tt w2)
  /\
  (forall s connection saved saved1 (wh w1 : world) r2 qa rcc qi0 evs0 n,
     0 <= connection ->
     q_int wh = ok pty :: rcc :: qi0 ->
     0 <= returned rcc ->
     let wa :=
       log (ev_call (c_accept s) (ok connection))
         (set_q_accept (r2 :: qa) wh) in
     setup_raw cfmakeraw saved
       (after_int (c_close connection) rcc qi0
          (after_int (c_recv_file_descriptor connection) (ok pty)
             (rcc :: qi0) wa)) = Val saved1 w1 ->
     trace (world_of (do_proxy pty w1)) =
       trace w1 ++ evs0 ++ [ev_read pty n r] ->
     exists w2,
       do_proxy pty w1 = Val tt w2 /\
       forall qs rc qi,
         q_tcsetattr w2 = ok tt :: qs ->
         q_int w2 = rc :: qi ->
         exists w3 evs,
           session cfmakeraw connection saved wa = Val saved1 w3 /\
           trace w3 =
             trace w2 ++
             [ev_tcsetattr 0 saved1 (ok tt); ev_call (c_close pty) rc] /\
           trace (world_of (head_loop cfmakeraw (ok connection :: r2 :: qa)
                              (Some s) saved wh)) =
             trace w3 ++ ev_call (c_accept s) r2 :: evs).
Proof.
  intros Hfd Hne Hr. split; [|split; [|split; [|split]]].
  - intros set buf w qr Hset Hq.
    destruct (proxy_pty_ends pty set buf w r qr Hset Hq Hr)
      as (w1 & E & Ht & _).
    now exists w1.
  - intros winch ready q buf w w1 qr Hw H0 Hpty Hq.
    destruct (proxy_body_pty_closed pty buf (set_q_pselect q w1) winch ready
                r qr Hne H0 Hpty Hq Hr) as (w2 & E & Hp & Ht).
    exists w2. split; [exact E|]. split; [|split; [exact Hp|exact Ht]].
    cbn [proxy_loop]. now rewrite Hw, E.
  - intros w r1 r2 r3 qi rz qz winch ready q qr Hq Hr1 Hz Hw Hp H0 Hpty Hrd.
    now apply (do_proxy_first_pass_closed pty w r1 r2 r3 qi rz qz winch
                 ready q r qr).
  - intros w evs0 n rest Ht.
    now apply (do_proxy_pty_closed pty Hne w evs0 rest n r).
  - intros s connection saved saved1 wh w1 r2 qa rcc qi0 evs0 n Hc Hqi Hrcc wa
      E1 Ht.
    destruct (do_proxy_pty_closed pty Hne w1 evs0 [] n r Hr Ht)
      as (_ & w2 & E2).
    exists w2. split; [exact E2|]. intros qs rc qi Hs Hi.
    assert (Hsess : exists w3,
              session cfmakeraw connection saved wa = Val saved1 w3 /\
              trace w3 =
                trace w2 ++
                [ev_tcsetattr 0 saved1 (ok tt); ev_call (c_close pty) rc]).
    { unfold session.
      assert (Hqa : q_int wa = ok pty :: rcc :: qi0) by exact Hqi.
      rewrite (bind_sys_int _ _ _ _ _ Hqa). cbn [returned].
      destruct Hfd as [Hlo _]. apply Z.ltb_ge in Hlo. rewrite Hlo.
      unfold bind at 1, ret at 1.
      erewrite bind_sys_int by (rewrite q_int_after_int; reflexivity).
      apply Z.ltb_ge in Hrcc. rewrite Hrcc. unfold bind at 1, ret at 1.
      unfold proxy_session, bind at 1. rewrite E1.
      unfold bind at 1. rewrite E2.
      unfold bind at 1, restore. rewrite Hs.
      destruct w2; cbn in Hs, Hi; subst. cbn. unfold bind, sys_int. cbn.
      destruct rc; cbn; eexists; (split; [reflexivity|same_trace]). }
    destruct Hsess as (w3 & Hsess & Ht3). exists w3.
    assert (Hhead : exists evs,
              trace (world_of (head_loop cfmakeraw (ok connection :: r2 :: qa)
                                 (Some s) saved wh)) =
                trace w3 ++ ev_call (c_accept s) r2 :: evs).
    { cbn [head_loop]. unfold bind at 1, read_socket, ret, accept_answer.
      unfold bind at 1, emit. cbn [answer ret].
      apply Z.leb_le in Hc. rewrite Hc. fold wa. rewrite Hsess.
      unfold bind at 1, read_socket, ret, accept_answer, bind at 1, emit.
      set (w4 := log (ev_call (c_accept s) r2) (set_q_accept qa w3)).
      destruct r2 as [c2|e2]; cbn [answer].
      + destruct (run_ok_head_tail qa (Some s) c2 saved1
                    (fun saved2 => run_ok_head_loop qa (Some s) saved2) w4)
          as [(evs & Ht4 & _) _].
        exists evs. unfold ret. rewrite Ht4. unfold w4. same_trace.
      + unfold bind, put_errno, ret.
        destruct (run_ok_head_tail qa (Some s) (-1) saved1
                    (fun saved2 => run_ok_head_loop qa (Some s) saved2)
                    (set_errno e2 w4))
          as [(evs & Ht4 & _) _].
        exists evs. rewrite Ht4. unfold w4. same_trace. }
    destruct Hhead as (evs & Hhead). exists evs. auto.
Qed.

End Properties.

(** * Further properties of the code *)

Section Coverage.

Context {termios : Type}.
Variable cfmakeraw : termios -> termios.

Abbreviation world := (@world termios).
Abbreviation event := (@event termios).
Abbreviation proxy_run := (@proxy_run termios).
Abbreviation relayed := (@relayed termios).
Abbreviation aside := (@aside termios).
Notation "x <- m ;; k" := (bind m (fun x => k))
  (at level 61, m at next level, right associativity).
Notation "m ;; k" := (bind m (fun _ => k))
  (at level 61, right associativity).

Ltac same_trace := simpl; rewrite <- ?app_assoc; simpl; reflexivity.

(** ** setup_raw and resize_pty when the query succeeds *)

(** X1. When tcgetattr succeeds, [setup_raw] stores the attributes it read
    as the snapshot and asks tcsetattr for their [cfmakeraw] version, and
    for nothing else; if that call fails the process dies, otherwise the
    snapshot is what the caller gets. *)
Theorem setup_raw_snapshot (saved : option termios) (w : world) (t : termios)
  (qg : list (sysret termios)) (r : sysret unit) (qs : list (sysret unit)) :
  q_tcgetattr w = ok t :: qg ->
  q_tcsetattr w = r :: qs ->
  exists w',
    setup_raw cfmakeraw saved w =
      match r with
      | ok _ => Val (Some t) w'
      | fail _ => Halt (Died "Unable to set terminal attributes: %m") w'
      end /\
    trace w' =
      trace w ++
      [ev_tcgetattr 0 (ok t); ev_tcsetattr 0 (Some (cfmakeraw t)) r] ++
      match r with
      | ok _ => []
      | fail _ => [ev_stderr "[!] Unable to set terminal attributes: %m" []]
      end.
Proof.
  intros Hg Hs. destruct w; cbn in Hg, Hs; subst.
  destruct r as [[]|e]; cbn; eexists; (split; [reflexivity|same_trace]).
Qed.

Lemma resize_pty_copies_size_run (pty : Z) (w : world) (sz : winsize)
  (qz : list (sysret winsize)) (r : sysret Z) (qi : list (sysret Z)) :
  q_winsz w = ok sz :: qz ->
  q_int w = r :: qi ->
  exists w',
    resize_pty pty w = Val tt w' /\
    trace w' =
      trace w ++
      [ev_ioctl_TIOCGWINSZ 0 (ok sz); ev_call (c_ioctl_TIOCSWINSZ pty sz) r]
    /\
    winch_happened w' = winch_happened w /\
    q_pselect w' = q_pselect w.
Proof.
  intros Hz Hi. destruct w; cbn in Hz, Hi; subst.
  unfold resize_pty, bind, sys_ioctl_TIOCGWINSZ, sys_int; cbn.
  destruct r; cbn; eexists; (split; [reflexivity|]);
    (split; [same_trace|split; reflexivity]).
Qed.

(** X2. When the size query on standard input succeeds, [resize_pty]
    applies exactly the size it got to the pseudo-terminal and returns;
    the result of applying it is not looked at, and nothing is printed. *)
Theorem resize_pty_copies_size (pty : Z) (w : world) (sz : winsize)
  (qz : list (sysret winsize)) (r : sysret Z) (qi : list (sysret Z)) :
  q_winsz w = ok sz :: qz ->
  q_int w = r :: qi ->
  exists w',
    resize_pty pty w = Val tt w' /\
    trace w' =
      trace w ++
      [ev_ioctl_TIOCGWINSZ 0 (ok sz); ev_call (c_ioctl_TIOCSWINSZ pty sz) r].
Proof.
  intros Hz Hi. destruct w; cbn in Hz, Hi; subst.
  unfold resize_pty, bind, sys_ioctl_TIOCGWINSZ, sys_int; cbn.
  destruct r; cbn; eexists; (split; [reflexivity|same_trace]).
Qed.

(** ** writeall at its edges *)

(** X3. With a count of zero or less, [writeall] returns 0 at once: it
    makes no call and changes nothing. *)
Theorem writeall_nothing_to_write (fd : Z) (buf : list Byte.byte) (count : Z)
  (w : world) :
  count <= 0 -> writeall fd buf count w = Val 0 w.
Proof.
  intros Hc. unfold writeall.
  assert (H : (0 <? count) = false) by now apply Z.ltb_ge.
  destruct (q_write w); cbn [writeall_loop]; now rewrite H.
Qed.

Lemma writeall_loop_finishes (q : list (sysret Z)) :
  forall (fd : Z) (buf : list Byte.byte) (count : Z) (w : world),
    Forall (fun r => exists n, r = ok n /\ 1 <= n) q ->
    count <= Z.of_nat (length q) ->
    exists w', writeall_loop q fd buf count w = Val 0 w'.
Proof.
  induction q as [|r q IH]; intros fd buf count w Hq Hc; cbn [writeall_loop].
  - assert (H : (0 <? count) = false) by (apply Z.ltb_ge; simpl in Hc; lia).
    rewrite H. now exists w.
  - destruct (0 <? count) eqn:Hpos; [|now exists w].
    apply Z.ltb_lt in Hpos.
    inversion Hq as [|r' q' (n & -> & Hn) Hq']; subst.
    unfold write_answer, bind, emit, ret.
    set (rv := Z.max 0 (Z.min n count)).
    assert (Hrv : 1 <= rv) by (unfold rv; lia).
    destruct (rv <? 0) eqn:Hneg; [apply Z.ltb_lt in Hneg; lia|].
    apply IH; [exact Hq'|].
    rewrite length_cons, Nat2Z.inj_succ in Hc. lia.
Qed.

(** X4. When every write takes at least one byte, [writeall] returns 0
    after at most [count] calls of write: a schedule of [count] such
    answers is enough, whatever the sizes of the short writes. *)
Theorem writeall_finishes (fd : Z) (buf : list Byte.byte) (count : Z)
  (w : world) :
  Forall (fun r => exists n, r = ok n /\ 1 <= n) (q_write w) ->
  count <= Z.of_nat (length (q_write w)) ->
  exists w', writeall fd buf count w = Val 0 w'.
Proof. intros Hq Hc. now apply writeall_loop_finishes. Qed.

(** ** The proxy loop: the ways round and out *)

(** X5. When sigprocmask fails with -1, [do_proxy] prints a message and
    returns at once: no handler is installed, no size applied, nothing
    relayed. *)
Theorem do_proxy_sigprocmask_failure (pty : Z) (w : world) (r : sysret Z)
  (qi : list (sysret Z)) :
  q_int w = r :: qi ->
  returned r = -1 ->
  exists w',
    do_proxy pty w = Val tt w' /\
    trace w' =
      trace w ++
      [ev_call c_sigprocmask_block_SIGWINCH r; ev_stderr "sigprocmask: %m" []].
Proof.
  intros Hq Hr. unfold do_proxy. rewrite (bind_sys_int _ _ _ _ _ Hq), Hr.
  cbn [Z.eqb Pos.eqb]. unfold bind, fprintf_stderr, emit, ret.
  eexists. split; [reflexivity|].
  cbn [trace log]. rewrite trace_after_int. same_trace.
Qed.

(** X6. A failing pselect never leads to a read.  When it was interrupted
    (EINTR) the pass ends there and the loop goes round with the buffer as
    it was; on any other errno a message is printed and [do_proxy]
    returns.  Either way the flag of a SIGWINCH delivered during the wait
    is set.  [pty] is a descriptor inside the [fd_set]. *)
Theorem pselect_failure (winch : bool) (e : Z) (pty : Z)
  (buf : list Byte.byte) (w : world) :
  in_fd_set pty ->
  exists w',
    proxy_body (winch, fail e) pty buf w =
      Val (if e =? EINTR then Next buf else Return tt) w' /\
    trace w' =
      trace w ++
      ev_pselect (pty + 1) [0; pty] winch (fail e) ::
      (if e =? EINTR then [] else [ev_stderr "select: %m" []]) /\
    winch_happened w' = winch || winch_happened w.
Proof.
  intros _.
  unfold proxy_body, bind, pselect_answer, get_errno, fprintf_stderr, emit, ret.
  cbn -[EINTR Z.eqb]. change (-1 <? 0) with true. cbn iota.
  destruct winch; cbn -[EINTR Z.eqb]; destruct (e =? EINTR);
    eexists; (split; [reflexivity|]); cbn; (split; [same_trace|reflexivity]).
Qed.

(** X7. A failed read on standard input ends the proxy loop at once and
    silently: nothing is written or printed, and the pseudo-terminal is not
    read in that pass even when pselect reported it ready.  [pty] is a
    descriptor inside the [fd_set]. *)
Theorem stdin_read_error_ends_loop (winch : bool) (ready : list Z) (pty : Z)
  (buf : list Byte.byte) (w : world) (e : Z)
  (qr : list (sysret (list Byte.byte))) :
  in_fd_set pty ->
  fd_isset 0 ready = true ->
  q_read w = fail e :: qr ->
  exists w',
    proxy_body (winch, ok ready) pty buf w = Val (Return tt) w' /\
    trace w' =
      trace w ++
      [ev_pselect (pty + 1) [0; pty] winch (ok ready);
       ev_read 0 sizeof_buf (fail e)].
Proof.
  intros _ H0 Hq.
  set (w1 := (if winch then set_winch_happened true
                (log (ev_pselect (pty + 1) [0; pty] winch (ok ready)) w)
              else log (ev_pselect (pty + 1) [0; pty] winch (ok ready)) w)).
  assert (Hq1 : q_read w1 = fail e :: qr) by (unfold w1; now destruct winch).
  assert (Ht1 : trace w1 =
                trace w ++ [ev_pselect (pty + 1) [0; pty] winch (ok ready)])
    by (unfold w1; now destruct winch).
  unfold proxy_body, bind at 1, pselect_answer.
  cbn [fst snd filter]. rewrite H0. fold w1.
  set (out := 0 :: (if fd_isset pty ready then [pty] else [])).
  assert (Hout : fd_isset 0 out = true) by reflexivity.
  destruct (Z.of_nat (length out) <? 0) eqn:Hneg;
    [apply Z.ltb_lt in Hneg; lia|].
  unfold bind at 1, proxy_stdin. rewrite Hout.
  unfold bind. rewrite (sys_read_fail 0 buf sizeof_buf w1 e qr Hq1).
  cbn [Z.ltb Z.compare]. unfold ret. eexists. split; [reflexivity|].
  cbn [trace set_errno log set_q_read]. rewrite Ht1. now rewrite <- app_assoc.
Qed.

(** X8. A pselect interrupted by SIGWINCH is no error: the loop goes round
    with the flag set, and its next pass clears the flag and applies the
    size of the controlling terminal to the pseudo-terminal before it waits
    again.  The flag being cleared, a further pass does not resize.  [pty]
    is a descriptor inside the [fd_set]. *)
Theorem winch_interrupt_resizes (pty : Z) (buf : list Byte.byte) (w : world)
  (q : list (bool * sysret (list Z))) (sz : winsize)
  (qz : list (sysret winsize)) (r : sysret Z) (qi : list (sysret Z)) :
  in_fd_set pty ->
  winch_happened w = false ->
  q_winsz w = ok sz :: qz ->
  q_int w = r :: qi ->
  exists w1 w2,
    proxy_loop ((true, fail EINTR) :: q) pty buf w = proxy_loop q pty buf w1 /\
    winch_happened w1 = true /\
    proxy_winch pty w1 = Val tt w2 /\
    winch_happened w2 = false /\
    proxy_winch pty w2 = Val tt w2 /\
    trace w2 =
      trace w ++
      [ev_pselect (pty + 1) [0; pty] true (fail EINTR);
       ev_ioctl_TIOCGWINSZ 0 (ok sz);
       ev_call (c_ioctl_TIOCSWINSZ pty sz) r].
Proof.
  intros _ Hw Hz Hi.
  set (w1 := set_errno EINTR
               (set_winch_happened true
                  (log (ev_pselect (pty + 1) [0; pty] true (fail EINTR))
                     (set_q_pselect q w)))).
  assert (Hz1 : q_winsz (set_winch_happened false w1) = ok sz :: qz)
    by exact Hz.
  assert (Hi1 : q_int (set_winch_happened false w1) = r :: qi) by exact Hi.
  destruct (resize_pty_copies_size_run pty (set_winch_happened false w1) sz
              qz r qi Hz1 Hi1) as (w2 & E2 & Ht2 & Hw2 & _).
  exists w1, w2. split; [|split; [reflexivity|split; [exact E2|]]].
  - cbn [proxy_loop]. unfold proxy_winch. rewrite Hw.
    assert (E : proxy_body (true, fail EINTR) pty buf (set_q_pselect q w) =
                Val (Next buf) w1) by reflexivity.
    now rewrite E.
  - split; [exact Hw2|]. split.
    + unfold proxy_winch. now rewrite Hw2.
    + rewrite Ht2. unfold w1. same_trace.
Qed.

(** ** The proxy loop: from the pseudo-terminal to standard output *)

Lemma firstn_nonempty_of {A} (n : nat) (l : list A) :
  (0 < n)%nat -> l <> [] -> firstn n l <> [].
Proof.
  intros Hn Hl. destruct n as [|n]; [lia|]. destruct l; [congruence|].
  discriminate.
Qed.

Lemma sizeof_buf_positive : (0 < Z.to_nat sizeof_buf)%nat.
Proof. unfold sizeof_buf. lia. Qed.

Lemma proxy_pty_data (pty : Z) (set : list Z) (buf : list Byte.byte)
  (w : world) (d : list Byte.byte) (qr : list (sysret (list Byte.byte))) :
  fd_isset pty set = true ->
  q_read w = ok d :: qr ->
  d <> [] ->
  let data := firstn (Z.to_nat sizeof_buf) d in
  proxy_pty pty set buf w =
    match writeall 1 (store data buf) (Z.of_nat (length data))
            (log (ev_read pty sizeof_buf (ok data)) (set_q_read qr w))
    with
    | Val _ w' => Val (Next (store data buf)) w'
    | Halt h w' => Halt h w'
    end.
Proof.
  intros Hset Hq Hd data. unfold proxy_pty. rewrite Hset. unfold bind at 1.
  rewrite (sys_read_ok pty buf sizeof_buf w d qr Hq). fold data.
  assert (Hne : data <> [])
    by (apply firstn_nonempty_of; [apply sizeof_buf_positive|exact Hd]).
  destruct (Z.of_nat (length data) <=? 0) eqn:Hle; [|reflexivity].
  apply Z.leb_le in Hle. destruct data; [congruence|simpl in Hle; lia].
Qed.

(** X9. After a read from the pseudo-terminal master that delivered at
    least one byte, the bytes read are handed to [writeall] for standard
    output, which resumes short writes and retries interrupted ones; they
    are written in full unless a write fails with an errno other than
    EINTR.  The branch does not return from [do_proxy], whatever the
    writes did. *)
Theorem proxy_pty_relays (pty : Z) (set : list Z) (buf : list Byte.byte)
  (w : world) (d : list Byte.byte) (qr : list (sysret (list Byte.byte))) :
  fd_isset pty set = true ->
  q_read w = ok d :: qr ->
  d <> [] ->
  let data := firstn (Z.to_nat sizeof_buf) d in
  exists evs,
    trace (world_of (proxy_pty pty set buf w)) =
      trace w ++ ev_read pty sizeof_buf (ok data) :: evs /\
    resumes 1 data evs /\
    match proxy_pty pty set buf w with
    | Val (Next buf1) _ =>
        firstn (length data) buf1 = data /\
        exists rv, writeall_outcome 1 data evs (Some rv)
    | Val (Return _) _ => False
    | Halt h w' =>
        h = Blocked /\ q_write w' = [] /\ writeall_outcome 1 data evs None
    end.
Proof.
  intros Hset Hq Hd data.
  rewrite (proxy_pty_data pty set buf w d qr Hset Hq Hd). fold data.
  set (w1 := log (ev_read pty sizeof_buf (ok data)) (set_q_read qr w)).
  assert (Hc : 0 <= Z.of_nat (length data)
               <= Z.of_nat (length (store data buf))).
  { unfold store. rewrite length_app. lia. }
  destruct (writeall_run 1 (store data buf) (Z.of_nat (length data)) w1 Hc)
    as (evs & Htr & Hres & Hout).
  rewrite Nat2Z.id, firstn_store in Hres, Hout.
  exists evs.
  destruct (writeall 1 (store data buf) (Z.of_nat (length data)) w1)
    as [rv w2|h w2]; cbn [world_of] in *; clearbody data.
  - split; [rewrite Htr; unfold w1; same_trace|].
    split; [exact Hres|]. split; [apply firstn_store|]. now exists rv.
  - split; [rewrite Htr; unfold w1; same_trace|]. split; assumption.
Qed.

(** ** What a run of do_proxy consists of *)

Lemma chunks_read_app (fd : Z) (l1 l2 : list event) :
  chunks_read fd (l1 ++ l2) = chunks_read fd l1 ++ chunks_read fd l2.
Proof.
  induction l1 as [|e l1 IH]; simpl; [reflexivity|].
  destruct e; try exact IH.
  destruct r; [|exact IH]. destruct (fd0 =? fd); [|exact IH].
  simpl. now rewrite IH.
Qed.

Lemma relayed_app (src dst : Z) (b : bool) (l1 l2 : list event) :
  relayed src dst true l1 -> relayed src dst b l2 ->
  relayed src dst b (l1 ++ l2).
Proof.
  intros [(p1 & F1 & W1) E1] [(p2 & F2 & W2) E2]. split.
  - exists (p1 ++ p2). rewrite chunks_read_app, written_app, concat_app.
    split; [now apply Forall2_app|now rewrite W1, W2].
  - intros Hb Hf. rewrite forallb_app in Hf.
    apply andb_true_iff in Hf as [Hf1 Hf2].
    rewrite chunks_read_app, written_app, concat_app.
    now rewrite (E1 eq_refl Hf1), (E2 Hb Hf2).
Qed.

Lemma relayed_weaken (src dst : Z) (b : bool) (l : list event) :
  relayed src dst b l -> relayed src dst false l.
Proof. intros [H _]. split; [exact H|discriminate]. Qed.

Lemma relayed_none (src dst : Z) (b : bool) (l : list event) :
  chunks_read src l = [] -> written dst l = [] -> relayed src dst b l.
Proof.
  intros Hc Hw. split.
  - exists []. rewrite Hc, Hw. split; [constructor|reflexivity].
  - intros _ _. now rewrite Hc, Hw.
Qed.

Lemma no_transfer_none (src dst : Z) (l : list event) :
  Forall (fun e => no_transfer e = true) l ->
  chunks_read src l = [] /\ written dst l = [].
Proof.
  induction 1 as [|e l He _ [IH1 IH2]]; [now split|].
  destruct e; try discriminate; simpl; now split.
Qed.

Section Relay.

Variable pty : Z.

Lemma proxy_run_nil (b : bool) : proxy_run pty b [].
Proof.
  split; [constructor|]. intros _ _.
  split; now apply relayed_none.
Qed.

Lemma proxy_run_app (b : bool) (l1 l2 : list event) :
  proxy_run pty true l1 -> proxy_run pty b l2 -> proxy_run pty b (l1 ++ l2).
Proof.
  intros [F1 R1] [F2 R2]. split; [now apply Forall_app|].
  intros H0 H1. destruct (R1 H0 H1), (R2 H0 H1).
  split; now apply relayed_app.
Qed.

Lemma proxy_run_weaken (b : bool) (l : list event) :
  proxy_run pty b l -> proxy_run pty false l.
Proof.
  intros [F R]. split; [exact F|]. intros H0 H1. destruct (R H0 H1).
  split; now apply relayed_weaken with (b := b).
Qed.

Lemma proxy_run_aside (b : bool) (l : list event) :
  Forall (aside pty) l -> proxy_run pty b l.
Proof.
  intros H. split.
  - eapply Forall_impl; [|exact H]. now intros e [He _].
  - intros _ _.
    assert (Hn : Forall (fun e : event => no_transfer e = true) l)
      by (eapply Forall_impl; [|exact H]; now intros e [_ He]).
    split; apply relayed_none; now apply no_transfer_none.
Qed.

Lemma runs_aside {A} (m : M A) :
  run_ok (aside pty) (fun h => h = Blocked) m -> runs (proxy_run pty) m.
Proof.
  intros H w. destruct (H w) as [(evs & Ht & HP) Hh]. split; [|exact Hh].
  exists evs. split; [exact Ht|now apply proxy_run_aside].
Qed.

Lemma runs_from_val {A} (a : A) (w : world) :
  runs_from (proxy_run pty) w (Val a w).
Proof.
  split; [|discriminate]. exists []. split; [now rewrite app_nil_r|].
  apply proxy_run_nil.
Qed.

Lemma runs_from_blocked {A} (w : world) :
  runs_from (proxy_run pty) w (@Halt termios A Blocked w).
Proof.
  split; [|now intros h w' [= <- <-]].
  exists []. split; [now rewrite app_nil_r|]. apply proxy_run_nil.
Qed.

Lemma runs_from_trans {A} (w w1 : world) (evs : list event) (r : res A) :
  trace w1 = trace w ++ evs -> proxy_run pty true evs ->
  runs_from (proxy_run pty) w1 r -> runs_from (proxy_run pty) w r.
Proof.
  intros Ht HR [(evs' & Ht' & HR') Hh]. split; [|exact Hh].
  exists (evs ++ evs'). split; [now rewrite Ht', Ht, app_assoc|].
  now apply proxy_run_app.
Qed.

Lemma runs_ret {A} (a : A) : runs (proxy_run pty) (ret a).
Proof. intros w. apply runs_from_val. Qed.

Lemma runs_bind {A B} (m : M A) (k : A -> M B) :
  runs (proxy_run pty) m -> (forall a, runs (proxy_run pty) (k a)) ->
  runs (proxy_run pty) (bind m k).
Proof.
  intros Hm Hk w. destruct (Hm w) as [(evs & Ht & HR) Hh]. unfold bind.
  destruct (m w) as [a w1|h w1]; cbn [world_of is_val] in *.
  - apply (runs_from_trans w w1 evs); auto. apply Hk.
  - split; [now exists evs|]. intros h' w' [= <- <-]. now apply (Hh h w1).
Qed.

Lemma aside_resize_pty :
  run_ok (aside pty) (fun h => h = Blocked) (resize_pty pty).
Proof.
  assert (Hset : forall sz r,
            aside pty (ev_call (c_ioctl_TIOCSWINSZ pty sz) r)).
  { intros sz r. split; [cbn; apply Z.eqb_refl|reflexivity]. }
  unfold resize_pty. apply run_ok_bind.
  - apply run_ok_sys_ioctl_TIOCGWINSZ; auto. intros r. now split.
  - intros [sz|e].
    + apply run_ok_bind; [|intros _; apply run_ok_ret].
      apply run_ok_sys_int; auto.
    + apply run_ok_bind; [apply run_ok_sys_int; auto|].
      intros rv. destruct (rv <? 0); [|apply run_ok_ret].
      apply run_ok_emit. now split.
Qed.

Lemma runs_proxy_winch : runs (proxy_run pty) (proxy_winch pty).
Proof.
  intros w. unfold proxy_winch. destruct (winch_happened w).
  - apply (runs_from_trans w (set_winch_happened false w) []).
    + now rewrite app_nil_r.
    + apply proxy_run_nil.
    + apply (runs_aside _ aside_resize_pty).
  - apply runs_from_val.
Qed.

Lemma resumes_only_writes (fd : Z) (evs : list event) :
  forall goal,
    resumes fd goal evs ->
    Forall (fun e : event => exists data r, e = ev_write fd data r) evs.
Proof.
  induction evs as [|e evs IH]; intros goal H; [constructor|].
  destruct e; try contradiction. destruct H as (-> & _ & H).
  constructor; [now eexists; eexists|]. eapply IH, H.
Qed.

Lemma only_writes_none (fd src dst : Z) (evs : list event) :
  Forall (fun e : event => exists data r, e = ev_write fd data r) evs ->
  fd <> dst ->
  chunks_read src evs = [] /\ written dst evs = [].
Proof.
  intros H Hne. induction H as [|e l (data & r & ->) _ [IH1 IH2]];
    [now split|].
  simpl. split; [exact IH1|]. destruct r; [|exact IH2].
  apply Z.eqb_neq in Hne. now rewrite Hne, IH2.
Qed.

Lemma only_writes_chunks (fd src : Z) (evs : list event) :
  Forall (fun e : event => exists data r, e = ev_write fd data r) evs ->
  chunks_read src evs = [].
Proof.
  induction 1 as [|e l (data & r & ->) _ IH]; [reflexivity|exact IH].
Qed.

Lemma only_writes_proxy_event (fd : Z) (evs : list event) :
  Forall (fun e : event => exists data r, e = ev_write fd data r) evs ->
  fd = pty \/ fd = 1 ->
  Forall (fun e : event => proxy_event pty e = true) evs.
Proof.
  intros H Hfd. eapply Forall_impl; [|exact H].
  intros e (data & r & ->). cbn.
  destruct Hfd as [-> | ->]; rewrite Z.eqb_refl; [reflexivity|].
  apply orb_true_r.
Qed.

Lemma outcome_prefix (fd : Z) (data : list Byte.byte) (evs : list event)
  (o : option Z) :
  writeall_outcome fd data evs o -> is_prefix (written fd evs) data.
Proof.
  destruct o as [rv|]; cbn.
  - intros [(_ & _ & H)|(_ & evs0 & rest & e & -> & _ & _ & _ & H)].
    + exists []. now rewrite app_nil_r.
    + exists rest. rewrite written_app. cbn. now rewrite app_nil_r.
  - intros (_ & rest & _ & H). now exists rest.
Qed.

Lemma outcome_exact (fd : Z) (data : list Byte.byte) (evs : list event)
  (rv : Z) :
  writeall_outcome fd data evs (Some rv) ->
  forallb (fun e : event => negb (fatal_write e)) evs = true ->
  written fd evs = data.
Proof.
  cbn. intros [(_ & _ & H)|(_ & evs0 & rest & e & -> & He & _ & _ & _)] Hf;
    [exact H|].
  rewrite forallb_app in Hf. apply andb_true_iff in Hf as [_ Hf].
  cbn in Hf. apply Z.eqb_neq in He. now rewrite He in Hf.
Qed.

(** One read on [src] followed by the writes of [writeall] on [dst]. *)
Lemma transfer_run (src dst : Z) (r : @res termios Z) (data : list Byte.byte)
  (evs : list event) :
  let o := match r with Val rv _ => Some rv | Halt _ _ => None end in
  (src = 0 /\ dst = pty) \/ (src = pty /\ dst = 1) ->
  resumes dst data evs ->
  writeall_outcome dst data evs o ->
  proxy_run pty (is_val r) (ev_read src sizeof_buf (ok data) :: evs).
Proof.
  intros o Hdir Hres Hout.
  pose proof (resumes_only_writes dst evs data Hres) as Hw.
  split.
  - constructor.
    + unfold proxy_event. rewrite (Z.eqb_refl sizeof_buf), andb_true_r.
      destruct Hdir as [[-> _]|[-> _]]; [reflexivity|].
      rewrite Z.eqb_refl. apply orb_true_r.
    + apply (only_writes_proxy_event dst); [exact Hw|].
      destruct Hdir as [[_ ->]|[_ ->]]; auto.
  - intros H0 H1.
    assert (Hmain : relayed src dst (is_val r)
                      (ev_read src sizeof_buf (ok data) :: evs)).
    { split.
      - exists [written dst evs]. cbn. rewrite Z.eqb_refl.
        rewrite (only_writes_chunks dst src evs Hw), app_nil_r.
        split; [|reflexivity].
        constructor; [|constructor]. exact (outcome_prefix _ _ _ _ Hout).
      - intros Hb Hf. cbn. rewrite Z.eqb_refl.
        rewrite (only_writes_chunks dst src evs Hw). cbn.
        rewrite app_nil_r. destruct r as [rv w'|h w']; [|discriminate].
        apply (outcome_exact dst data evs rv Hout). exact Hf. }
    assert (Hother : forall src' dst', src' <> src -> dst' <> dst ->
              relayed src' dst' (is_val r)
                (ev_read src sizeof_buf (ok data) :: evs)).
    { intros src' dst' Hs Hd.
      destruct (only_writes_none dst src' dst' evs Hw) as [Hc Hwr]; [auto|].
      apply relayed_none; cbn.
      - apply not_eq_sym, Z.eqb_neq in Hs. now rewrite Hs.
      - exact Hwr. }
    destruct Hdir as [[-> ->]|[-> ->]].
    + split; [exact Hmain|]. apply Hother; auto.
    + split; [|exact Hmain]. apply Hother; auto.
Qed.

(** A read that delivered nothing to relay: it failed. *)
Lemma failed_read_run (fd e : Z) (b : bool) :
  fd = 0 \/ fd = pty ->
  proxy_run pty b [ev_read fd sizeof_buf (fail e)].
Proof.
  intros Hfd. split.
  - constructor; [|constructor]. unfold proxy_event.
    rewrite (Z.eqb_refl sizeof_buf), andb_true_r.
    destruct Hfd as [-> | ->]; [reflexivity|].
    rewrite Z.eqb_refl. apply orb_true_r.
  - intros _ _. split; now apply relayed_none.
Qed.

Lemma proxy_stdin_data (set : list Z) (buf : list Byte.byte) (w : world)
  (d : list Byte.byte) (qr : list (sysret (list Byte.byte))) :
  fd_isset 0 set = true ->
  q_read w = ok d :: qr ->
  let data := firstn (Z.to_nat sizeof_buf) d in
  proxy_stdin pty set buf w =
    match writeall pty (store data buf) (Z.of_nat (length data))
            (log (ev_read 0 sizeof_buf (ok data)) (set_q_read qr w))
    with
    | Val _ w' => Val (Next (store data buf)) w'
    | Halt h w' => Halt h w'
    end.
Proof.
  intros Hset Hq data. unfold proxy_stdin. rewrite Hset. unfold bind at 1.
  rewrite (sys_read_ok 0 buf sizeof_buf w d qr Hq). fold data.
  destruct (Z.of_nat (length data) <? 0) eqn:Hneg;
    [apply Z.ltb_lt in Hneg; lia|reflexivity].
Qed.

(** A read of [data] on [src] whose bytes [writeall] then writes to
    [dst]. *)
Lemma runs_transfer {A} (src dst : Z) (buf : list Byte.byte) (w : world)
  (data : list Byte.byte) (qr : list (sysret (list Byte.byte))) (a : A) :
  (src = 0 /\ dst = pty) \/ (src = pty /\ dst = 1) ->
  runs_from (proxy_run pty) w
    match writeall dst (store data buf) (Z.of_nat (length data))
            (log (ev_read src sizeof_buf (ok data)) (set_q_read qr w))
    with
    | Val _ w' => Val a w'
    | Halt h w' => Halt h w'
    end.
Proof.
  intros Hdir.
  set (w1 := log (ev_read src sizeof_buf (ok data)) (set_q_read qr w)).
  assert (Hc : 0 <= Z.of_nat (length data)
               <= Z.of_nat (length (store data buf))).
  { unfold store. rewrite length_app. lia. }
  destruct (writeall_run dst (store data buf) (Z.of_nat (length data)) w1 Hc)
    as (evs & Htr & Hres & Hout).
  rewrite Nat2Z.id, firstn_store in Hres, Hout.
  pose proof (transfer_run src dst
                (writeall dst (store data buf) (Z.of_nat (length data)) w1)
                data evs Hdir Hres) as Hrun.
  destruct (writeall dst (store data buf) (Z.of_nat (length data)) w1)
    as [rv w2|h w2]; cbn [world_of is_val] in *.
  - split; [|discriminate].
    exists (ev_read src sizeof_buf (ok data) :: evs).
    split; [cbn [world_of]; rewrite Htr; unfold w1; same_trace
           |now apply Hrun].
  - destruct Hout as (-> & Hqw & Hout). split.
    + exists (ev_read src sizeof_buf (ok data) :: evs).
      split; [cbn [world_of]; rewrite Htr; unfold w1; same_trace
             |now apply Hrun].
    + now intros h' w' [= <- <-].
Qed.

Lemma runs_proxy_stdin set buf : runs (proxy_run pty) (proxy_stdin pty set buf).
Proof.
  intros w. destruct (fd_isset 0 set) eqn:Hset.
  2:{ unfold proxy_stdin. rewrite Hset. apply runs_from_val. }
  destruct (q_read w) as [|[d|e] qr] eqn:Hq.
  - unfold proxy_stdin, bind, sys_read. rewrite Hset, Hq.
    apply runs_from_blocked.
  - rewrite (proxy_stdin_data set buf w d qr Hset Hq).
    apply runs_transfer. now left.
  - unfold proxy_stdin, bind. rewrite Hset.
    rewrite (sys_read_fail 0 buf sizeof_buf w e qr Hq).
    cbn [Z.ltb Z.compare]. unfold ret. split; [|discriminate].
    exists [ev_read 0 sizeof_buf (fail e)]. split; [reflexivity|].
    apply failed_read_run. now left.
Qed.

Lemma runs_proxy_pty set buf : runs (proxy_run pty) (proxy_pty pty set buf).
Proof.
  intros w. destruct (fd_isset pty set) eqn:Hset.
  2:{ unfold proxy_pty. rewrite Hset. apply runs_from_val. }
  destruct (q_read w) as [|[d|e] qr] eqn:Hq.
  - unfold proxy_pty, bind, sys_read. rewrite Hset, Hq.
    apply runs_from_blocked.
  - unfold proxy_pty. rewrite Hset. unfold bind at 1.
    rewrite (sys_read_ok pty buf sizeof_buf w d qr Hq).
    set (data := firstn (Z.to_nat sizeof_buf) d).
    destruct (Z.of_nat (length data) <=? 0) eqn:Hle.
    + apply Z.leb_le in Hle.
      assert (Hd : data = [])
        by (destruct data; [reflexivity|simpl in Hle; lia]).
      rewrite Hd. unfold ret. split; [|discriminate].
      exists [ev_read pty sizeof_buf (ok [])]. split; [reflexivity|].
      apply (transfer_run pty 1 (Val 0 w) [] []); [now right|exact I|].
      cbn. left. repeat split. constructor.
    + apply (runs_transfer pty 1 buf w data qr). now right.
  - unfold proxy_pty, bind. rewrite Hset.
    rewrite (sys_read_fail pty buf sizeof_buf w e qr Hq).
    cbn [Z.leb Z.compare]. unfold ret. split; [|discriminate].
    exists [ev_read pty sizeof_buf (fail e)]. split; [reflexivity|].
    apply failed_read_run. now right.
Qed.

Lemma runs_proxy_body a buf : runs (proxy_run pty) (proxy_body a pty buf).
Proof.
  assert (Hstderr : forall f args,
            runs (proxy_run pty) (fprintf_stderr f args)).
  { intros f args. apply runs_aside, run_ok_emit. now split. }
  unfold proxy_body. apply runs_bind.
  - apply runs_aside, run_ok_pselect_answer. split; [|reflexivity].
    cbn. now rewrite !Z.eqb_refl.
  - intros [rv set]. destruct (rv <? 0).
    + apply runs_bind; [apply runs_aside, run_ok_get_errno|intros e].
      destruct (e =? EINTR); [apply runs_ret|].
      apply runs_bind; [apply Hstderr|intros _; apply runs_ret].
    + apply runs_bind; [apply runs_proxy_stdin|intros [buf1|r]].
      * apply runs_proxy_pty.
      * apply runs_ret.
Qed.

Lemma runs_proxy_loop (q : list (bool * sysret (list Z))) :
  forall buf, runs (proxy_run pty) (proxy_loop q pty buf).
Proof.
  induction q as [|a q IH]; intros buf w; cbn [proxy_loop];
    destruct (runs_proxy_winch w) as [(evs & Ht & HR) Hh];
    destruct (proxy_winch pty w) as [u w1|h w1]; cbn [world_of is_val] in *.
  - apply (runs_from_trans w w1 evs); auto. apply runs_from_blocked.
  - rewrite (Hh h w1 eq_refl). split; [now exists evs|].
    now intros h' w' [= <- <-].
  - apply (runs_from_trans w w1 evs); auto.
    destruct (runs_proxy_body a buf (set_q_pselect q w1))
      as [(evs2 & Ht2 & HR2) Hh2].
    destruct (proxy_body a pty buf (set_q_pselect q w1)) as [[buf1|r] w2|h w2];
      cbn [world_of is_val] in *.
    + apply (runs_from_trans w1 w2 evs2); auto. apply IH.
    + apply (runs_from_trans w1 w2 evs2); auto. apply runs_from_val.
    + rewrite (Hh2 h w2 eq_refl). split; [now exists evs2|].
      now intros h' w' [= <- <-].
  - rewrite (Hh h w1 eq_refl). split; [now exists evs|].
    now intros h' w' [= <- <-].
Qed.

Lemma runs_do_proxy : runs (proxy_run pty) (do_proxy pty).
Proof.
  unfold do_proxy. apply runs_bind.
  - apply runs_aside, run_ok_sys_int; auto. intros r. now split.
  - intros rv. destruct (rv =? -1).
    + apply runs_bind; [|intros _; apply runs_ret].
      apply runs_aside, run_ok_emit. now split.
    + apply runs_bind.
      { apply runs_aside, run_ok_sys_int; auto. intros r. now split. }
      intros _. apply runs_bind.
      { apply runs_aside, aside_resize_pty. }
      intros _ w. apply runs_proxy_loop.
Qed.


End Relay.

(** X10. Whatever the kernel answers, [do_proxy] on a descriptor [pty]
    inside the [fd_set] makes only these calls: sigprocmask and sigaction
    for SIGWINCH, the size query on descriptor 0 and the size setting on
    [pty], pselect on exactly the descriptors 0 and [pty], reads of at most
    [sizeof buf] bytes from 0 and from [pty], writes to [pty] and to 1, and
    messages on stderr.  It never touches the terminal attributes and never
    ends the process: it returns, or it is still blocked in a call. *)
Theorem do_proxy_calls (pty : Z) (w : world) :
  in_fd_set pty ->
  exists evs,
    trace (world_of (do_proxy pty w)) = trace w ++ evs /\
    Forall (fun e => proxy_event pty e = true) evs /\
    forall h w', do_proxy pty w = Halt h w' -> h = Blocked.
Proof.
  intros _. destruct (runs_do_proxy pty w) as [(evs & Ht & HF & _) Hh].
  exists evs. auto.
Qed.



(** ** main: the options *)

Lemma main_unfold (me : string) (opts : list getopt_result)
  (cmd : list string) :
  main cfmakeraw me opts cmd =
  bind (getopt_loop me opts None false) (main_rest cfmakeraw me cmd).
Proof. reflexivity. Qed.

Lemma last_nonempty {A} (l : list A) :
  forall x d d', last (x :: l) d = last (x :: l) d'.
Proof.
  induction l as [|y l IH]; intros x d d'; [reflexivity|].
  change (last (y :: l) d = last (y :: l) d'). apply IH.
Qed.

Lemma last_cons_default {A} (x d : A) (l : list A) :
  last (x :: l) d = last l x.
Proof.
  destruct l as [|y l]; [reflexivity|].
  change (last (y :: l) d = last (y :: l) x). apply last_nonempty.
Qed.

Lemma getopt_loop_selects (me : string) (opts : list getopt_result) :
  forall (rs : list (sysret Z)) (socket : option Z) (act : bool) (w : world)
         (rest : list (sysret Z)),
    forallb loops_on opts = true ->
    q_int w = rs ++ rest ->
    length rs = length (filter opens_socket opts) ->
    exists w',
      getopt_loop me opts socket act w =
        Val (Next (socket_after rs socket, act || existsb is_opt_H opts)) w' /\
      q_int w' = rest /\
      q_accept w' = q_accept w /\
      trace w' = trace w ++ option_calls opts rs.
Proof.
  induction opts as [|o opts IH]; intros rs socket act w rest Hl Hq Hn.
  - destruct rs; [|discriminate]. exists w. cbn.
    rewrite orb_false_r, app_nil_r. auto.
  - destruct o; try discriminate; cbn in Hl, Hn.
    + cbn [getopt_loop]. unfold bind at 1.
      destruct (IH rs socket act (set_verbose true w) rest Hl Hq Hn)
        as (w' & E & Hq' & Ha' & Ht').
      exists w'. auto.
    + destruct rs as [|r rs]; [discriminate|]. injection Hn as Hn.
      change (q_int w = r :: (rs ++ rest)) in Hq.
      cbn [getopt_loop]. rewrite (bind_sys_int _ _ _ _ _ Hq).
      destruct (IH rs (Some (returned r)) act
                  (after_int (c_connect_server optarg) r (rs ++ rest) w) rest
                  Hl (q_int_after_int _ _ _ _) Hn)
        as (w' & E & Hq' & Ha' & Ht').
      exists w'. rewrite E. unfold socket_after. cbn [map].
      rewrite last_cons_default. repeat split; auto.
      * rewrite Ha'. now destruct r.
      * rewrite Ht', trace_after_int. same_trace.
    + destruct rs as [|r rs]; [discriminate|]. injection Hn as Hn.
      change (q_int w = r :: (rs ++ rest)) in Hq.
      cbn [getopt_loop]. rewrite (bind_sys_int _ _ _ _ _ Hq).
      destruct (IH rs (Some (returned r)) true
                  (after_int (c_create_server optarg) r (rs ++ rest) w) rest
                  Hl (q_int_after_int _ _ _ _) Hn)
        as (w' & E & Hq' & Ha' & Ht').
      exists w'. rewrite E. unfold socket_after. cbn [map existsb is_opt_H].
      rewrite last_cons_default, orb_true_r. repeat split; auto.
      * rewrite Ha'. now destruct r.
      * rewrite Ht', trace_after_int. same_trace.
Qed.

(** X13. When getopt delivers only -V, -s and -H options, the option loop
    makes one call per -s (connect_server) and per -H (create_server), in
    order, and looks at none of their results.  It leaves [socket] holding
    what the last of these calls returned, failure included, and
    [act_as_proxy] set exactly when some -H occurred: after [-H a -s b] the
    program is a head on the socket connected to b. *)
Theorem option_loop_selects_mode (me : string) (opts : list getopt_result)
  (rs : list (sysret Z)) (w : world) (rest : list (sysret Z)) :
  forallb loops_on opts = true ->
  q_int w = rs ++ rest ->
  length rs = length (filter opens_socket opts) ->
  exists w',
    getopt_loop me opts None false w =
      Val (Next (socket_after rs None, existsb is_opt_H opts)) w' /\
    q_int w' = rest /\
    trace w' = trace w ++ option_calls opts rs.
Proof.
  intros Hl Hq Hn.
  destruct (getopt_loop_selects me opts rs None false w rest Hl Hq Hn)
    as (w' & E & Hq' & _ & Ht').
  exists w'. auto.
Qed.

(** X14. Without -H and without a command, [main] prints "No command
    specified" and the usage and returns 1.  The -s options before that
    were acted upon: their connections were made and are not closed. *)
Theorem main_no_command (me : string) (opts : list getopt_result)
  (rs : list (sysret Z)) (w : world) (rest : list (sysret Z)) :
  forallb loops_on opts = true ->
  existsb is_opt_H opts = false ->
  q_int w = rs ++ rest ->
  length rs = length (filter opens_socket opts) ->
  exists w',
    main cfmakeraw me opts [] w = Val 1 w' /\
    q_int w' = rest /\
    trace w' =
      trace w ++ option_calls opts rs ++
      ev_stderr "%s: No command specified\n" [me] :: usage_lines me.
Proof.
  intros Hl HH Hq Hn.
  destruct (getopt_loop_selects me opts rs None false w rest Hl Hq Hn)
    as (w' & E & Hq' & _ & Ht').
  rewrite main_unfold. unfold bind at 1. rewrite E, HH.
  cbn [orb main_rest negb andb].
  unfold usage, bind, fprintf_stderr, emit, ret.
  eexists. split; [reflexivity|]. split; [exact Hq'|].
  cbn [trace log]. rewrite Ht'. unfold usage_lines. same_trace.
Qed.

Lemma getopt_loop_act (me : string) (opts : list getopt_result) :
  forall (socket : option Z) (act : bool) (w : world) s' act' w',
    getopt_loop me opts socket act w = Val (Next (s', act')) w' ->
    act' = act || existsb is_opt_H opts.
Proof.
  induction opts as [|o opts IH]; intros socket act w s' act' w' E.
  - cbn in E. injection E as <- <- <-. now rewrite orb_false_r.
  - destruct o; cbn [getopt_loop existsb is_opt_H orb] in *.
    + unfold usage, bind, fprintf_stderr, emit, ret in E. discriminate.
    + unfold bind at 1 in E. exact (IH _ _ _ _ _ _ E).
    + unfold bind at 1 in E.
      destruct (sys_int (c_connect_server optarg) w) as [s w1|h w1];
        [|discriminate].
      exact (IH _ _ _ _ _ _ E).
    + unfold bind at 1 in E.
      destruct (sys_int (c_create_server optarg) w) as [s w1|h w1];
        [|discriminate].
      rewrite (IH _ _ _ _ _ _ E). now rewrite orb_true_r.
    + unfold usage, bind, fprintf_stderr, emit, ret in E. discriminate.
Qed.

(** X15. With a -H among the options, the command on the command line
    plays no part: [main] behaves as it does without one. *)
Theorem head_mode_ignores_command (me : string) (opts : list getopt_result)
  (cmd : list string) (w : world) :
  existsb is_opt_H opts = true ->
  main cfmakeraw me opts cmd w = main cfmakeraw me opts [] w.
Proof.
  intros HH. rewrite !main_unfold. unfold bind.
  destruct (getopt_loop me opts None false w) as [[[s' act']|code] w'|h w']
    eqn:E.
  - rewrite (getopt_loop_act me opts _ _ _ _ _ _ E), HH. reflexivity.
  - reflexivity.
  - reflexivity.
Qed.




(** ** main: when the socket is read *)

Section Defined.

Let P : event -> Prop := @any_event termios.
Let D : halt -> Prop := defined_halt.

Lemma defined_Blocked : D Blocked.
Proof. discriminate. Qed.

Lemma defined_Died msg : D (Died msg).
Proof. discriminate. Qed.

Lemma defined_Replaced : D Replaced.
Proof. discriminate. Qed.

Lemma any_event_holds (e : event) : P e.
Proof. exact I. Qed.

Local Hint Resolve defined_Blocked defined_Died defined_Replaced : core.
Local Hint Resolve any_event_holds : core.

Lemma defined_sys_int c : run_ok P D (sys_int c).
Proof. apply run_ok_sys_int; auto. Qed.

Lemma defined_die {A} msg : run_ok P D (@die termios A msg).
Proof. apply run_ok_die; auto. Qed.

Lemma defined_check {A} (b : bool) msg (a : A) :
  run_ok P D (if b then die msg else ret a).
Proof. destruct b; [apply defined_die|apply run_ok_ret]. Qed.

Lemma defined_setup_raw saved : run_ok P D (setup_raw cfmakeraw saved).
Proof.
  unfold setup_raw. apply run_ok_bind.
  - apply run_ok_sys_tcgetattr; auto.
  - intros [t|e].
    + apply run_ok_bind; [apply run_ok_sys_tcsetattr; auto|intros rv].
      apply defined_check.
    + apply run_ok_bind; [apply run_ok_emit; auto|intros _; apply run_ok_ret].
Qed.

Lemma defined_restore saved : run_ok P D (restore saved).
Proof.
  intros w. unfold restore.
  destruct (restore_loop_run (q_tcsetattr w) saved w) as [k Hk].
  destruct (restore_loop (q_tcsetattr w) saved w) as [u w'|h w'].
  - split; [|discriminate]. eexists. split; [exact Hk|].
    apply Forall_forall. auto.
  - destruct Hk as [(-> & Hk)|(e & _ & -> & Hk)];
      (split; [eexists; split; [exact Hk|apply Forall_forall; auto]|]);
      intros h' w'' [= <- <-]; auto.
Qed.

Lemma defined_session connection saved :
  run_ok P D (session cfmakeraw connection saved).
Proof.
  unfold session, proxy_session.
  apply run_ok_bind; [apply defined_sys_int|intros pty].
  apply run_ok_bind; [apply defined_check|intros _].
  apply run_ok_bind; [apply defined_sys_int|intros rv].
  apply run_ok_bind; [apply defined_check|intros _].
  apply run_ok_bind; [apply defined_setup_raw|intros saved1].
  apply run_ok_bind; [apply run_ok_do_proxy; auto|intros _].
  apply run_ok_bind; [apply defined_restore|intros _].
  apply run_ok_bind; [apply defined_sys_int|intros _; apply run_ok_ret].
Qed.

Lemma defined_head_loop (q : list (sysret Z)) (s : Z) :
  forall saved, run_ok P D (head_loop cfmakeraw q (Some s) saved).
Proof.
  induction q as [|r q IH]; intros saved w; cbn [head_loop].
  - cbn. split; [exists []; now rewrite app_nil_r|].
    intros h w' [= <- <-]. auto.
  - apply (run_ok_bind P D
             (fun w0 => accept_answer r s (set_q_accept q w0))
             (fun connection w1 =>
                if 0 <=? connection then
                  match session cfmakeraw connection saved w1 with
                  | Val saved1 w2 => head_loop cfmakeraw q (Some s) saved1 w2
                  | Halt h w2 => Halt h w2
                  end
                else die "accept: %m" w1)).
    + intros w0.
      apply (run_ok_from_trans P D w0 (set_q_accept q w0) []);
        [now rewrite app_nil_r|constructor|].
      unfold accept_answer.
      apply run_ok_bind; [apply run_ok_emit; auto|intros _].
      apply run_ok_answer.
    + intros connection. destruct (0 <=? connection); [|apply defined_die].
      apply (run_ok_bind P D (session cfmakeraw connection saved)
               (fun saved1 => head_loop cfmakeraw q (Some s) saved1)).
      * apply defined_session.
      * exact IH.
Qed.

Lemma defined_redirect_and_exec pty ptyname cmd :
  run_ok P D (redirect_and_exec pty ptyname cmd).
Proof.
  unfold redirect_and_exec.
  do 3 (apply run_ok_bind; [apply defined_sys_int|intros _]).
  apply run_ok_bind; [apply defined_sys_int|intros f].
  do 2 (apply run_ok_bind; [apply defined_sys_int|intros _]).
  apply run_ok_bind; [apply defined_sys_int|intros f'].
  do 4 (apply run_ok_bind; [apply defined_sys_int|intros _]).
  apply run_ok_bind; [|intros _; apply defined_die].
  unfold sys_execvp.
  apply (run_ok_scheduled P D defined_Blocked q_int set_q_int
           (fun r => emit (ev_call (c_execvp cmd) r) ;;
                     match r with
                     | ok _ => stop Replaced
                     | fail e => put_errno e ;; ret (-1)
                     end)); [reflexivity|].
  intros r. apply run_ok_bind; [apply run_ok_emit; auto|intros _].
  destruct r; [apply run_ok_stop; auto|].
  apply run_ok_bind; [apply run_ok_put_errno|intros _; apply run_ok_ret].
Qed.

Lemma defined_attacher (s : Z) cmd : run_ok P D (attacher (Some s) cmd).
Proof.
  unfold attacher.
  apply run_ok_bind; [apply defined_sys_int|intros pty].
  apply run_ok_bind; [apply defined_check|intros _].
  apply run_ok_bind; [apply defined_sys_int|intros rv].
  apply run_ok_bind; [apply defined_check|intros _].
  apply run_ok_bind; [apply defined_sys_int|intros rv'].
  apply run_ok_bind; [apply defined_check|intros _].
  apply run_ok_bind.
  { unfold sys_ptsname_r.
    apply (run_ok_scheduled P D defined_Blocked q_ptsname set_q_ptsname
             (fun name => emit (ev_ptsname_r pty name) ;; ret name));
      [reflexivity|].
    intros name. apply run_ok_bind; [apply run_ok_emit; auto|intros _].
    apply run_ok_ret. }
  intros ptyname.
  apply run_ok_bind; [apply run_ok_emit; auto|intros _].
  apply run_ok_bind; [apply run_ok_ret|intros s'].
  apply run_ok_bind; [apply defined_sys_int|intros rv''].
  apply run_ok_bind; [apply defined_check|intros _].
  apply defined_redirect_and_exec.
Qed.

Lemma defined_usage me : run_ok P D (usage me).
Proof.
  unfold usage.
  do 4 (apply run_ok_bind; [apply run_ok_emit; auto|intros _]).
  apply run_ok_emit; auto.
Qed.

Lemma defined_main_rest me cmd (f : flow (option Z * bool) Z) :
  (forall act, f <> Next (None, act)) ->
  run_ok P D (main_rest cfmakeraw me cmd f).
Proof.
  intros Hf. destruct f as [[[s|] act]|code]; cbn [main_rest].
  - destruct (negb act && _).
    + apply run_ok_bind; [apply run_ok_emit; auto|intros _].
      apply run_ok_bind; [apply defined_usage|intros _; apply run_ok_ret].
    + destruct act; [|apply defined_attacher].
      intros w. apply defined_head_loop.
  - now destruct (Hf act).
  - apply run_ok_ret.
Qed.

(** Once [socket] holds a value the option loop hands on a value. *)
Lemma getopt_loop_keeps_socket (me : string) (opts : list getopt_result) :
  forall (s : Z) (act : bool) (w : world),
    match getopt_loop me opts (Some s) act w with
    | Val f _ => forall act', f <> Next (None, act')
    | Halt h _ => h = Blocked
    end.
Proof.
  induction opts as [|o opts IH]; intros s act w.
  - cbn. discriminate.
  - destruct o; cbn [getopt_loop].
    + unfold usage, bind, fprintf_stderr, emit, ret. discriminate.
    + unfold bind at 1. apply IH.
    + unfold bind at 1, sys_int.
      destruct (q_int w) as [|r q]; [reflexivity|].
      destruct r; cbn; apply IH.
    + unfold bind at 1, sys_int.
      destruct (q_int w) as [|r q]; [reflexivity|].
      destruct r; cbn; apply IH.
    + unfold usage, bind, fprintf_stderr, emit, ret. discriminate.
Qed.

Lemma main_with_socket_defined (me : string) (opts : list getopt_result)
  (cmd : list string) (s : Z) (act : bool) (w w' : world) :
  bind (getopt_loop me opts (Some s) act) (main_rest cfmakeraw me cmd) w
  <> Halt Uninitialized_socket w'.
Proof.
  unfold bind. pose proof (getopt_loop_keeps_socket me opts s act w) as H.
  destruct (getopt_loop me opts (Some s) act w) as [f w1|h w1].
  - intros E. destruct (defined_main_rest me cmd f H w1) as [_ Hh].
    now apply (Hh _ _ E).
  - subst h. discriminate.
Qed.

Lemma bind_bind_sys_int {A B} c (k : Z -> M A) (k2 : A -> M B) (w : world) :
  bind (bind (sys_int c) k) k2 w =
  match q_int w with
  | [] => Halt Blocked w
  | r :: q => bind (k (returned r)) k2 (after_int c r q w)
  end.
Proof.
  unfold bind, sys_int. destruct (q_int w) as [|[n|e] q]; reflexivity.
Qed.

Lemma unset_socket_only_V (me : string) (cmd : list string)
  (opts : list getopt_result) :
  forall (w w' : world),
    bind (getopt_loop me opts None false) (main_rest cfmakeraw me cmd) w
      = Halt Uninitialized_socket w' ->
    Forall (fun o => o = opt_V) opts.
Proof.
  induction opts as [|o opts IH]; intros w w' E; [constructor|].
  destruct o; cbn [getopt_loop] in E.
  - unfold usage, bind, fprintf_stderr, emit, ret in E. discriminate.
  - constructor; [reflexivity|]. unfold bind at 2 in E.
    exact (IH _ _ E).
  - exfalso. rewrite bind_bind_sys_int in E.
    destruct (q_int w) as [|r q]; [discriminate|].
    exact (main_with_socket_defined _ _ _ _ _ _ _ E).
  - exfalso. rewrite bind_bind_sys_int in E.
    destruct (q_int w) as [|r q]; [discriminate|].
    exact (main_with_socket_defined _ _ _ _ _ _ _ E).
  - unfold usage, bind, fprintf_stderr, emit, ret in E. discriminate.
Qed.

End Defined.

(** X17. The read of the unset [socket] is confined to invocations with
    neither -s nor -H: if [main] ever reads [socket] before a store to it,
    then getopt delivered nothing but -V options.  With a -s or -H the
    variable holds a value wherever it is used, in the accept loop as in
    the attacher. *)
Theorem unset_socket_needs_no_socket_option (me : string)
  (opts : list getopt_result) (cmd : list string) (w w' : world) :
  main cfmakeraw me opts cmd w = Halt Uninitialized_socket w' ->
  Forall (fun o => o = opt_V) opts.
Proof. rewrite main_unfold. apply unset_socket_only_V. Qed.

(** ** The head: what ends it *)

(** X18. When recv_file_descriptor returns a negative value, the head
    process dies on the spot: the connection is not closed, the terminal is
    not touched, and no further connection is accepted. *)
Theorem session_without_descriptor_dies (connection : Z)
  (saved : option termios) (w : world) (r : sysret Z)
  (qi : list (sysret Z)) :
  q_int w = r :: qi ->
  returned r < 0 ->
  exists w',
    session cfmakeraw connection saved w =
      Halt (Died "Oof, didn't get a child FD: %m") w' /\
    trace w' =
      trace w ++
      [ev_call (c_recv_file_descriptor connection) r;
       ev_stderr "[!] Oof, didn't get a child FD: %m" []].
Proof.
  intros Hq Hr. unfold session. rewrite (bind_sys_int _ _ _ _ _ Hq).
  apply Z.ltb_lt in Hr. rewrite Hr.
  unfold bind, die, fprintf_stderr, emit, stop.
  eexists. split; [reflexivity|].
  cbn [trace log]. rewrite trace_after_int. same_trace.
Qed.

(** X19. When closing the connection fails after the descriptor was
    received, the head process dies as well: the received descriptor is
    left open and the terminal is not touched. *)
Theorem session_close_failure_dies (connection : Z) (saved : option termios)
  (w : world) (r1 r2 : sysret Z) (qi : list (sysret Z)) :
  q_int w = r1 :: r2 :: qi ->
  0 <= returned r1 ->
  returned r2 < 0 ->
  exists w',
    session cfmakeraw connection saved w = Halt (Died "close: %m") w' /\
    trace w' =
      trace w ++
      [ev_call (c_recv_file_descriptor connection) r1;
       ev_call (c_close connection) r2;
       ev_stderr "[!] close: %m" []].
Proof.
  intros Hq H1 H2. unfold session. rewrite (bind_sys_int _ _ _ _ _ Hq).
  apply Z.ltb_ge in H1. rewrite H1. unfold bind at 1, ret at 1.
  erewrite bind_sys_int by (rewrite q_int_after_int; reflexivity).
  apply Z.ltb_lt in H2. rewrite H2.
  unfold bind, die, fprintf_stderr, emit, stop.
  eexists. split; [reflexivity|].
  cbn [trace log]. rewrite !trace_after_int. same_trace.
Qed.

(** X20. The accept loop ends only through [die]: when accept returns a
    negative value the process prints "accept" and exits with status 1,
    whatever connections are still to come. *)
Theorem accept_failure_dies (s : Z) (r : sysret Z) (q : list (sysret Z))
  (saved : option termios) (w : world) :
  returned r < 0 ->
  exists w',
    head_loop cfmakeraw (r :: q) (Some s) saved w =
      Halt (Died "accept: %m") w' /\
    trace w' =
      trace w ++ [ev_call (c_accept s) r; ev_stderr "[!] accept: %m" []] /\
    q_accept w' = q.
Proof.
  intros Hr. cbn [head_loop]. unfold bind at 1, read_socket, ret at 1.
  unfold accept_answer, bind at 1, emit.
  destruct r as [n|e]; cbn [answer returned] in *.
  - unfold ret. apply Z.leb_gt in Hr. rewrite Hr.
    unfold die, bind, fprintf_stderr, emit, stop.
    eexists. split; [reflexivity|]. split; [same_trace|reflexivity].
  - unfold bind, put_errno, ret. cbn [Z.leb Z.compare].
    unfold die, bind, fprintf_stderr, emit, stop.
    eexists. split; [reflexivity|]. split; [same_trace|reflexivity].
Qed.

(** ** The attacher: what stops it, and a full run *)

(** X21. The attacher dies at the first of get_pt, unlockpt and grantpt
    that returns a negative value, with the message of that step.  This
    happens before [socket] is read and before anything is sent, and a
    pseudo-terminal already obtained is not closed. *)
Theorem attacher_allocation_failure (socket : option Z) (cmd : list string)
  (w : world) (r1 r2 r3 : sysret Z) (qi : list (sysret Z)) :
  q_int w = r1 :: r2 :: r3 :: qi ->
  returned r1 < 0 \/ returned r2 < 0 \/ returned r3 < 0 ->
  exists w',
    attacher socket cmd w =
      Halt (Died (if returned r1 <? 0
                  then "Unable to allocate a new pseudo-terminal: %m"
                  else if returned r2 <? 0 then "Unable to unlockpt: %m"
                  else "Unable to grantpt: %m")) w' /\
    trace w' =
      trace w ++
      ev_call c_get_pt r1 ::
      (if returned r1 <? 0
       then [ev_stderr "[!] Unable to allocate a new pseudo-terminal: %m" []]
       else
         ev_call (c_unlockpt (returned r1)) r2 ::
         (if returned r2 <? 0
          then [ev_stderr "[!] Unable to unlockpt: %m" []]
          else [ev_call (c_grantpt (returned r1)) r3;
                ev_stderr "[!] Unable to grantpt: %m" []])).
Proof.
  intros Hq Hneg. unfold attacher. rewrite (bind_sys_int _ _ _ _ _ Hq).
  destruct (returned r1 <? 0) eqn:H1.
  { unfold bind, die, fprintf_stderr, emit, stop.
    eexists. split; [reflexivity|].
    cbn [trace log]. rewrite trace_after_int. same_trace. }
  unfold bind at 1, ret at 1.
  erewrite bind_sys_int by (rewrite q_int_after_int; reflexivity).
  destruct (returned r2 <? 0) eqn:H2.
  { unfold bind, die, fprintf_stderr, emit, stop.
    eexists. split; [reflexivity|].
    cbn [trace log]. rewrite !trace_after_int. same_trace. }
  unfold bind at 1, ret at 1.
  erewrite bind_sys_int by (rewrite !q_int_after_int; reflexivity).
  assert (H3 : (returned r3 <? 0) = true).
  { apply Z.ltb_ge in H1, H2. apply Z.ltb_lt. lia. }
  rewrite H3. unfold bind, die, fprintf_stderr, emit, stop.
  eexists. split; [reflexivity|].
  cbn [trace log]. rewrite !trace_after_int. same_trace.
Qed.

Lemma attacher_until_send (s : Z) (cmd : list string) (w : world)
  (r1 r2 r3 rs : sysret Z) (qi : list (sysret Z)) (name : string)
  (qn : list string) :
  q_int w = r1 :: r2 :: r3 :: rs :: qi ->
  0 <= returned r1 -> 0 <= returned r2 -> 0 <= returned r3 ->
  q_ptsname w = name :: qn ->
  exists w4,
    attacher (Some s) cmd w =
      bind (if returned rs <? 0
            then die "Unable to send the master handle: %m" else ret tt)
        (fun _ => redirect_and_exec (returned r1) name cmd) w4 /\
    q_int w4 = qi /\
    trace w4 =
      trace w ++
      [ev_call c_get_pt r1;
       ev_call (c_unlockpt (returned r1)) r2;
       ev_call (c_grantpt (returned r1)) r3;
       ev_ptsname_r (returned r1) name;
       ev_stdout "Opened a new pty: %s\n" [name];
       ev_call (c_send_file_descriptor s (returned r1)) rs].
Proof.
  intros Hq H1 H2 H3 Hn. unfold attacher.
  apply Z.ltb_ge in H1, H2, H3.
  rewrite (bind_sys_int _ _ _ _ _ Hq), H1. unfold bind at 1, ret at 1.
  erewrite bind_sys_int by (rewrite q_int_after_int; reflexivity).
  rewrite H2. unfold bind at 1, ret at 1.
  erewrite bind_sys_int by (rewrite q_int_after_int; reflexivity).
  rewrite H3. unfold bind at 1, ret at 1.
  match goal with |- context [bind (sys_ptsname_r _) _ ?w0] =>
    set (w3 := w0) end.
  assert (Hn3 : q_ptsname w3 = name :: qn)
    by (unfold w3; destruct r1, r2, r3; exact Hn).
  assert (Hq3 : q_int w3 = rs :: qi)
    by (unfold w3; now rewrite q_int_after_int).
  assert (Ht3 : trace w3 = trace w ++
                [ev_call c_get_pt r1;
                 ev_call (c_unlockpt (returned r1)) r2;
                 ev_call (c_grantpt (returned r1)) r3]).
  { unfold w3. rewrite !trace_after_int. same_trace. }
  clearbody w3.
  unfold bind at 1, sys_ptsname_r. rewrite Hn3.
  unfold bind at 1, emit, ret at 1. unfold bind at 1, printf, emit.
  unfold bind at 1, read_socket, ret at 1.
  set (w5 := log _ (log _ _)).
  assert (Hq5 : q_int w5 = rs :: qi) by exact Hq3.
  rewrite (bind_sys_int _ _ _ _ _ Hq5).
  eexists. split; [reflexivity|]. split; [apply q_int_after_int|].
  rewrite trace_after_int. unfold w5. cbn [trace log set_q_ptsname].
  rewrite Ht3. same_trace.
Qed.

(** X22. When sending the master descriptor to the head fails, the
    attacher dies there: it has not changed its session or its standard
    streams, the command is not run, and the pseudo-terminal master is not
    closed. *)
Theorem attacher_send_failure (s : Z) (cmd : list string) (w : world)
  (r1 r2 r3 rs : sysret Z) (qi : list (sysret Z)) (name : string)
  (qn : list string) :
  q_int w = r1 :: r2 :: r3 :: rs :: qi ->
  0 <= returned r1 -> 0 <= returned r2 -> 0 <= returned r3 ->
  returned rs < 0 ->
  q_ptsname w = name :: qn ->
  exists w',
    attacher (Some s) cmd w =
      Halt (Died "Unable to send the master handle: %m") w' /\
    trace w' =
      trace w ++
      [ev_call c_get_pt r1;
       ev_call (c_unlockpt (returned r1)) r2;
       ev_call (c_grantpt (returned r1)) r3;
       ev_ptsname_r (returned r1) name;
       ev_stdout "Opened a new pty: %s\n" [name];
       ev_call (c_send_file_descriptor s (returned r1)) rs;
       ev_stderr "[!] Unable to send the master handle: %m" []].
Proof.
  intros Hq H1 H2 H3 Hs Hn.
  destruct (attacher_until_send s cmd w r1 r2 r3 rs qi name qn Hq H1 H2 H3 Hn)
    as (w4 & E & Hq4 & Ht4).
  rewrite E. apply Z.ltb_lt in Hs. rewrite Hs.
  unfold bind, die, fprintf_stderr, emit, stop.
  eexists. split; [reflexivity|]. cbn [trace log]. rewrite Ht4. same_trace.
Qed.

Lemma redirect_and_exec_run (pty : Z) (ptyname : string)
  (cmd : list string) (w : world)
  (r1 r2 r3 r4 r5 r6 r7 r8 r9 r10 r11 rx : sysret Z) (q : list (sysret Z)) :
  q_int w = r1 :: r2 :: r3 :: r4 :: r5 :: r6 :: r7 :: r8 :: r9 :: r10 :: r11
            :: rx :: q ->
  exists w',
    redirect_and_exec pty ptyname cmd w =
      Halt (match rx with
            | ok _ => Replaced
            | fail _ => Died "execvp failed: %m"
            end) w' /\
    trace w' =
      trace w ++
      [ev_call (c_setenv "REPTYR_PTY" ptyname) r1;
       ev_call c_setpgid_0_getppid r2;
       ev_call c_setsid r3;
       ev_call (c_open ptyname O_RDONLY) r4;
       ev_call (c_dup2 (returned r4) 0) r5;
       ev_call (c_close (returned r4)) r6;
       ev_call (c_open ptyname O_WRONLY) r7;
       ev_call (c_dup2 (returned r7) 1) r8;
       ev_call (c_dup2 (returned r7) 2) r9;
       ev_call (c_close (returned r7)) r10;
       ev_call (c_close pty) r11;
       ev_call (c_execvp cmd) rx] ++
      (match rx with
       | ok _ => []
       | fail _ => [ev_stderr "[!] execvp failed: %m" []]
       end).
Proof.
  intros Hq. unfold redirect_and_exec.
  rewrite (bind_sys_int _ _ _ _ _ Hq).
  do 10 (erewrite bind_sys_int by (rewrite q_int_after_int; reflexivity)).
  match goal with |- context [bind _ _ ?w0] => set (w11 := w0) end.
  assert (Hq11 : q_int w11 = rx :: q)
    by (unfold w11; now rewrite q_int_after_int).
  assert (Ht11 : trace w11 = trace w ++
      [ev_call (c_setenv "REPTYR_PTY" ptyname) r1;
       ev_call c_setpgid_0_getppid r2;
       ev_call c_setsid r3;
       ev_call (c_open ptyname O_RDONLY) r4;
       ev_call (c_dup2 (returned r4) 0) r5;
       ev_call (c_close (returned r4)) r6;
       ev_call (c_open ptyname O_WRONLY) r7;
       ev_call (c_dup2 (returned r7) 1) r8;
       ev_call (c_dup2 (returned r7) 2) r9;
       ev_call (c_close (returned r7)) r10;
       ev_call (c_close pty) r11]).
  { unfold w11. rewrite !trace_after_int. same_trace. }
  clearbody w11. clear Hq.
  unfold bind, sys_execvp. rewrite Hq11.
  destruct rx as [n|e]; simpl; eexists; (split; [reflexivity|]); simpl;
    rewrite Ht11; same_trace.
Qed.

(** X23. A full run of the attacher with a socket: the pseudo-terminal is
    obtained, unlocked and granted, its name printed, and its master
    descriptor sent over the socket before the process changes anything
    about itself; then the name goes into REPTYR_PTY, the process leaves
    its session, the slave is opened over descriptors 0, 1 and 2, the
    master is closed, and execvp is called with the command.  The socket
    itself is never closed. *)
Theorem attacher_run (s : Z) (cmd : list string) (w : world)
  (r1 r2 r3 rs : sysret Z) (name : string) (qn : list string)
  (a1 a2 a3 a4 a5 a6 a7 a8 a9 a10 a11 rx : sysret Z) (q : list (sysret Z)) :
  q_int w = r1 :: r2 :: r3 :: rs :: a1 :: a2 :: a3 :: a4 :: a5 :: a6 :: a7
            :: a8 :: a9 :: a10 :: a11 :: rx :: q ->
  0 <= returned r1 -> 0 <= returned r2 -> 0 <= returned r3 ->
  0 <= returned rs ->
  q_ptsname w = name :: qn ->
  exists w',
    attacher (Some s) cmd w =
      Halt (match rx with
            | ok _ => Replaced
            | fail _ => Died "execvp failed: %m"
            end) w' /\
    trace w' =
      trace w ++
      [ev_call c_get_pt r1;
       ev_call (c_unlockpt (returned r1)) r2;
       ev_call (c_grantpt (returned r1)) r3;
       ev_ptsname_r (returned r1) name;
       ev_stdout "Opened a new pty: %s\n" [name];
       ev_call (c_send_file_descriptor s (returned r1)) rs;
       ev_call (c_setenv "REPTYR_PTY" name) a1;
       ev_call c_setpgid_0_getppid a2;
       ev_call c_setsid a3;
       ev_call (c_open name O_RDONLY) a4;
       ev_call (c_dup2 (returned a4) 0) a5;
       ev_call (c_close (returned a4)) a6;
       ev_call (c_open name O_WRONLY) a7;
       ev_call (c_dup2 (returned a7) 1) a8;
       ev_call (c_dup2 (returned a7) 2) a9;
       ev_call (c_close (returned a7)) a10;
       ev_call (c_close (returned r1)) a11;
       ev_call (c_execvp cmd) rx] ++
      (match rx with
       | ok _ => []
       | fail _ => [ev_stderr "[!] execvp failed: %m" []]
       end).
Proof.
  intros Hq H1 H2 H3 Hs Hn.
  destruct (attacher_until_send s cmd w r1 r2 r3 rs _ name qn Hq H1 H2 H3 Hn)
    as (w4 & E & Hq4 & Ht4).
  rewrite E. apply Z.ltb_ge in Hs. rewrite Hs. unfold bind at 1, ret at 1.
  destruct (redirect_and_exec_run (returned r1) name cmd w4
              a1 a2 a3 a4 a5 a6 a7 a8 a9 a10 a11 rx q Hq4)
    as (w' & E' & Ht').
  exists w'. split; [exact E'|]. rewrite Ht', Ht4.
  rewrite <- !app_assoc. reflexivity.
Qed.

(** ** The session around the proxy loop *)

(** X24. When tcgetattr fails at the start of a session, the session is
    run all the same: [do_proxy] runs on [pty], a descriptor inside the
    [fd_set], and unless it is still waiting in one of its calls, for an
    answer the schedule does not hold, it returns and tcsetattr is called
    on whatever [saved_termios] held before: the snapshot of an earlier
    session, or a structure nothing was ever stored to.  As after a
    successful [setup_raw], that call is made once for every interruption
    scheduled and once more for the first other answer, which ends the
    session normally or, when it is a failure, ends the process.  The
    process is blocked after [do_proxy] returned only when every answer
    scheduled for tcsetattr was an interruption, or when close(pty) has no
    answer. *)
Theorem restore_without_snapshot (pty : Z) (saved : option termios)
  (w : world) (e : Z) (qg : list (sysret termios)) :
  in_fd_set pty ->
  q_tcgetattr w = fail e :: qg ->
  exists w1 mid,
    setup_raw cfmakeraw saved w = Val saved w1 /\
    Forall (fun e => is_tcsetattr e = false) mid /\
    let ran :=
      trace w ++
      [ev_tcgetattr 0 (fail e);
       ev_stderr "Unable to read terminal attributes: %m" []] ++
      mid in
    match do_proxy pty w1 with
    | Halt h w2 =>
        h = Blocked /\ starved w2 /\ trace w2 = ran /\
        proxy_session cfmakeraw pty saved w = Halt Blocked w2
    | Val _ w2 =>
        trace w2 = ran /\
        q_tcsetattr w2 = q_tcsetattr w /\
        exists k,
          match proxy_session cfmakeraw pty saved w with
          | Val saved1 w' =>
              saved1 = saved /\
              (exists rest,
                 q_tcsetattr w = repeat (fail EINTR) k ++ ok tt :: rest) /\
              exists rc,
                trace w' =
                  ran ++ interrupted saved k ++
                  [ev_tcsetattr 0 saved (ok tt); ev_call (c_close pty) rc]
          | Halt (Died msg) w' =>
              msg = "Unable to tcsetattr: %m"%string /\
              exists e' rest,
                e' <> EINTR /\
                q_tcsetattr w = repeat (fail EINTR) k ++ fail e' :: rest /\
                trace w' =
                  ran ++ interrupted saved k ++
                  [ev_tcsetattr 0 saved (fail e');
                   ev_stderr "[!] Unable to tcsetattr: %m" []]
          | Halt Blocked w' =>
              (q_tcsetattr w = repeat (fail EINTR) k /\
               trace w' = ran ++ interrupted saved k)
              \/
              (q_int w' = [] /\
               (exists rest,
                  q_tcsetattr w = repeat (fail EINTR) k ++ ok tt :: rest) /\
               trace w' =
                 ran ++ interrupted saved k ++ [ev_tcsetattr 0 saved (ok tt)])
          | Halt _ _ => False
          end
    end.
Proof.
  intros _ Hg.
  assert (E1 : exists w1,
            setup_raw cfmakeraw saved w = Val saved w1 /\
            trace w1 = trace w ++
              [ev_tcgetattr 0 (fail e);
               ev_stderr "Unable to read terminal attributes: %m" []] /\
            q_tcsetattr w1 = q_tcsetattr w).
  { destruct w; cbn in Hg; subst. cbn.
    eexists. split; [reflexivity|]. split; [same_trace|reflexivity]. }
  destruct E1 as (w1 & E1 & Ht1 & Hq1).
  destruct (session_after_setup cfmakeraw pty saved saved w w1 E1)
    as (mid & Hmid & H).
  exists w1, mid. split; [exact E1|]. split; [exact Hmid|]. cbn zeta.
  rewrite Hq1, Ht1, <- app_assoc in H.
  destruct (do_proxy pty w1) as [u w2|h w2]; [|exact H].
  destruct H as (Ht2 & Hq2 & k & H).
  split; [exact Ht2|]. split; [exact Hq2|]. exists k.
  rewrite Ht2 in H. exact H.
Qed.

(** X25. Before its first wait, [do_proxy] blocks SIGWINCH, installs
    [do_winch] and copies the size of the controlling terminal to the
    pseudo-terminal; what sigaction and the size setting return is not
    looked at.  The loop then starts on a buffer nothing was read into,
    with the SIGWINCH flag as it was. *)
Theorem do_proxy_setup (pty : Z) (w : world) (r1 r2 r3 : sysret Z)
  (qi : list (sysret Z)) (sz : winsize) (qz : list (sysret winsize)) :
  q_int w = r1 :: r2 :: r3 :: qi ->
  returned r1 <> -1 ->
  q_winsz w = ok sz :: qz ->
  exists w4,
    do_proxy pty w = proxy_loop (q_pselect w) pty buf0 w4 /\
    winch_happened w4 = winch_happened w /\
    q_pselect w4 = q_pselect w /\
    trace w4 =
      trace w ++
      [ev_call c_sigprocmask_block_SIGWINCH r1;
       ev_call c_sigaction_SIGWINCH_do_winch r2;
       ev_ioctl_TIOCGWINSZ 0 (ok sz);
       ev_call (c_ioctl_TIOCSWINSZ pty sz) r3].
Proof.
  intros Hq Hr Hz. unfold do_proxy. rewrite (bind_sys_int _ _ _ _ _ Hq).
  apply Z.eqb_neq in Hr. rewrite Hr.
  erewrite bind_sys_int by (rewrite q_int_after_int; reflexivity).
  set (w2 := after_int _ r2 _ _).
  assert (Hz2 : q_winsz w2 = ok sz :: qz)
    by (unfold w2; destruct r1, r2; exact Hz).
  assert (Hq2 : q_int w2 = r3 :: qi)
    by (unfold w2; now rewrite q_int_after_int).
  assert (Ht2 : trace w2 = trace w ++
                [ev_call c_sigprocmask_block_SIGWINCH r1;
                 ev_call c_sigaction_SIGWINCH_do_winch r2]).
  { unfold w2. rewrite !trace_after_int. same_trace. }
  assert (Hw2 : winch_happened w2 = winch_happened w)
    by (unfold w2; now destruct r1, r2).
  assert (Hp2 : q_pselect w2 = q_pselect w)
    by (unfold w2; now destruct r1, r2).
  clearbody w2.
  destruct (resize_pty_copies_size_run pty w2 sz qz r3 qi Hz2 Hq2)
    as (w4 & E4 & Ht4 & Hw4 & Hp4).
  unfold bind. rewrite E4. exists w4. rewrite Hp4, Hp2.
  split; [reflexivity|]. split; [congruence|]. split; [reflexivity|].
  rewrite Ht4, Ht2. same_trace.
Qed.

End Coverage.


(** * The theorems at work on the concrete runs *)

Section Runs.

Import Byte.
Import Scenario.

(** The scenario of a head session: the bytes of the program are relayed
    verbatim, the terminal is restored when the pseudo-terminal closes, and
    the head dies only because the next accept fails. *)
Example head_session_trace :
  main tty_raw "deptyr" [opt_H "/tmp/d.sock"] [] w_head =
  Halt (Died "accept: %m")
    (mk_world EBADF false false
       [ev_call (c_create_server "/tmp/d.sock") (ok 3);
        ev_call (c_accept 3) (ok 7);
        ev_call (c_recv_file_descriptor 7) (ok 5);
        ev_call (c_close 7) (ok 0);
        ev_tcgetattr 0 (ok 10);
        ev_tcsetattr 0 (Some 11) (ok tt);
        ev_call c_sigprocmask_block_SIGWINCH (ok 0);
        ev_call c_sigaction_SIGWINCH_do_winch (ok 0);
        ev_ioctl_TIOCGWINSZ 0 (ok sz_24x132);
        ev_call (c_ioctl_TIOCSWINSZ 5 sz_24x132) (ok 0);
        ev_pselect 6 [0; 5] false (ok [5]);
        ev_read 5 4096 (ok [x68; x69]);
        ev_write 1 [x68; x69] (ok 2);
        ev_pselect 6 [0; 5] false (ok [5]);
        ev_read 5 4096 (ok []);
        ev_tcsetattr 0 (Some 10) (ok tt);
        ev_call (c_close 5) (ok 0);
        ev_call (c_accept 3) (fail EBADF);
        ev_stderr "[!] accept: %m" []]
       [] [] [] [] [] [] [] [] []).
Proof. vm_compute. reflexivity. Qed.

(** The session of [w_session_hi]: raw mode is entered, "hi" is relayed,
    the pseudo-terminal is found closed, the first restoring tcsetattr is
    interrupted and the second restores the snapshot, right before
    close(pty). *)
Example session_restored_after_interruption :
  proxy_session tty_raw 5 None w_session_hi =
  Val (Some 10)
    (mk_world 0 false false
       [ev_tcgetattr 0 (ok 10);
        ev_tcsetattr 0 (Some 11) (ok tt);
        ev_call c_sigprocmask_block_SIGWINCH (ok 0);
        ev_call c_sigaction_SIGWINCH_do_winch (ok 0);
        ev_ioctl_TIOCGWINSZ 0 (ok sz_24x132);
        ev_call (c_ioctl_TIOCSWINSZ 5 sz_24x132) (ok 0);
        ev_pselect 6 [0; 5] false (ok [5]);
        ev_read 5 4096 (ok [x68; x69]);
        ev_write 1 [x68; x69] (ok 2);
        ev_pselect 6 [0; 5] false (ok [5]);
        ev_read 5 4096 (ok []);
        ev_tcsetattr 0 (Some 10) (fail EINTR);
        ev_tcsetattr 0 (Some 10) (ok tt);
        ev_call (c_close 5) (ok 0)]
       [] [] [] [] [] [] [] [] []).
Proof. vm_compute. reflexivity. Qed.


(** C3, counterexample.  With standard input not a terminal, tcgetattr
    fails, and the session is not aborted: [do_proxy] runs, and the
    never-filled [saved_termios] is then handed to tcsetattr. *)
Lemma session_continues_without_snapshot :
  proxy_session tty_raw 5 None w_session_notty =
  Val None
    (mk_world 0 false false
       [ev_tcgetattr 0 (fail ENOTTY);
        ev_stderr "Unable to read terminal attributes: %m" [];
        ev_call c_sigprocmask_block_SIGWINCH (ok 0);
        ev_call c_sigaction_SIGWINCH_do_winch (ok 0);
        ev_ioctl_TIOCGWINSZ 0 (fail ENOTTY);
        ev_call (c_ioctl_TIOCSWINSZ 5 defaultsize) (ok 0);
        ev_pselect 6 [0; 5] false (ok [5]);
        ev_read 5 4096 (ok []);
        ev_tcsetattr 0 None (ok tt);
        ev_call (c_close 5) (ok 0)]
       [] [] [] [] [] [] [] [] []).
Proof. vm_compute. reflexivity. Qed.

(** C4, counterexample.  The size query fails with EBADF, which is not
    "not a terminal", and a size is applied to the pseudo-terminal all the
    same. *)
Lemma resize_not_skipped_on_other_failure :
  EBADF <> ENOTTY /\
  applies_size 5 (trace (world_of (resize_pty 5 w_winsz_ebadf))) = true /\
  trace (world_of (resize_pty 5 w_winsz_ebadf)) =
    [ev_ioctl_TIOCGWINSZ 0 (fail EBADF);
     ev_call (c_ioctl_TIOCSWINSZ 5 (mk_winsize 30 80 640 480)) (ok 0)].
Proof. split; [discriminate|]. split; reflexivity. Qed.

(** C7, counterexample.  With -h and a command, and neither -s nor -H,
    [main] prints the usage and returns 0: it never reads [socket]. *)
Lemma help_never_reads_socket :
  exists w',
    main tty_raw "deptyr" [opt_h] ["ls"%string] idle = Val 0 w' /\
    trace w' =
      [ev_stderr "Usage: %s -s socket CMD\n" ["deptyr"%string];
       ev_stderr "       %s -S socket\n" ["deptyr"%string];
       ev_stderr
         "  -H Act as the head: Proxy input and output to the program\n" [];
       ev_stderr "  -s Connect to a running proxy and exec the program\n" [];
       ev_stderr "\n" []].
Proof. eexists. split; reflexivity. Qed.



(** The session of [w_session_hi]. *)
Lemma raw_mode_restored_once_witness :
  exists w1 mid,
    setup_raw tty_raw None w_session_hi = Val (Some 10) w1 /\
    Forall (fun e => is_tcsetattr e = false) mid /\
    let entered :=
      trace w_session_hi ++
      [ev_tcgetattr 0 (ok 10); ev_tcsetattr 0 (Some (tty_raw 10)) (ok tt)] ++
      mid in
    match do_proxy 5 w1 with
    | Halt h w2 =>
        h = Blocked /\ starved w2 /\ trace w2 = entered /\
        proxy_session tty_raw 5 None w_session_hi = Halt Blocked w2
    | Val _ w2 =>
        trace w2 = entered /\
        q_tcsetattr w2 = [fail EINTR; ok tt] /\
        exists k,
          match proxy_session tty_raw 5 None w_session_hi with
          | Val saved1 w' =>
              saved1 = Some 10 /\
              (exists rest,
                 [fail EINTR; ok tt] =
                 repeat (fail EINTR) k ++ ok tt :: rest) /\
              exists rc,
                trace w' =
                  entered ++ interrupted (Some 10) k ++
                  [ev_tcsetattr 0 (Some 10) (ok tt); ev_call (c_close 5) rc]
          | Halt (Died msg) w' =>
              msg = "Unable to tcsetattr: %m"%string /\
              exists e rest,
                e <> EINTR /\
                [fail EINTR; ok tt] =
                repeat (fail EINTR) k ++ fail e :: rest /\
                trace w' =
                  entered ++ interrupted (Some 10) k ++
                  [ev_tcsetattr 0 (Some 10) (fail e);
                   ev_stderr "[!] Unable to tcsetattr: %m" []]
          | Halt Blocked w' =>
              ([fail EINTR; ok tt] = repeat (fail EINTR) k /\
               trace w' = entered ++ interrupted (Some 10) k)
              \/
              (q_int w' = [] /\
               (exists rest,
                  [fail EINTR; ok tt] =
                  repeat (fail EINTR) k ++ ok tt :: rest) /\
               trace w' =
                 entered ++ interrupted (Some 10) k ++
                 [ev_tcsetattr 0 (Some 10) (ok tt)])
          | Halt _ _ => False
          end
    end.
Proof.
  apply (raw_mode_restored_once tty_raw 5 None w_session_hi 10 []
           [fail EINTR; ok tt]);
    [unfold in_fd_set, FD_SETSIZE; lia|reflexivity|reflexivity].
Defined.

(** A session whose standard input is not a terminal. *)
Lemma setup_raw_read_failure_witness :
  exists w',
    setup_raw tty_raw None w_session_notty = Val None w' /\
    trace w' =
      trace w_session_notty ++
      [ev_tcgetattr 0 (fail ENOTTY);
       ev_stderr "Unable to read terminal attributes: %m" []] /\
    q_tcsetattr w' = q_tcsetattr w_session_notty /\
    forall pty,
      proxy_session tty_raw pty None w_session_notty =
      bind (do_proxy pty)
        (fun _ => bind (restore None)
                    (fun _ => bind (sys_int (c_close pty))
                                (fun _ => ret None))) w'.
Proof.
  apply (setup_raw_read_failure tty_raw None w_session_notty ENOTTY []).
  reflexivity.
Defined.

(** The size query fails with EBADF. *)
Lemma resize_pty_any_failure_witness :
  EBADF <> ENOTTY /\
  exists w',
    resize_pty 5 w_winsz_ebadf = Val tt w' /\
    applies_size 5 (trace w') = true /\
    trace w' =
      trace w_winsz_ebadf ++
      [ev_ioctl_TIOCGWINSZ 0 (fail EBADF);
       ev_call (c_ioctl_TIOCSWINSZ 5 (mk_winsize 30 80 640 480)) (ok 0)] ++
      (if returned (ok 0) <? 0
       then [ev_stderr "Cannot set terminal size\n" []] else []).
Proof.
  split; [discriminate|].
  apply (resize_pty_any_failure 5 w_winsz_ebadf EBADF [] (ok 0) []);
    [discriminate|reflexivity|reflexivity].
Defined.

(** The size query fails with ENOTTY. *)
Lemma resize_pty_fallback_size_witness :
  exists w' sz,
    ws_col sz = 80 /\ ws_row sz = 30 /\
    resize_pty 5 w_winsz_notty = Val tt w' /\
    trace w' =
      trace w_winsz_notty ++
      [ev_ioctl_TIOCGWINSZ 0 (fail ENOTTY);
       ev_call (c_ioctl_TIOCSWINSZ 5 sz) (ok 0)] ++
      (if returned (ok 0) <? 0
       then [ev_stderr "Cannot set terminal size\n" []] else []).
Proof.
  apply (resize_pty_fallback_size 5 w_winsz_notty [] (ok 0) []); reflexivity.
Defined.

(** [deptyr -V ls]. *)
Lemma attacher_reads_unset_socket_witness :
  exists w',
    main tty_raw "deptyr" [opt_V] ["ls"%string] w_attacher =
      Halt Uninitialized_socket w' /\
    trace w' =
      trace w_attacher ++
      [ev_call c_get_pt (ok 4);
       ev_call (c_unlockpt 4) (ok 0);
       ev_call (c_grantpt 4) (ok 0);
       ev_ptsname_r 4 "/dev/pts/3";
       ev_stdout "Opened a new pty: %s\n" ["/dev/pts/3"%string]].
Proof.
  apply (attacher_reads_unset_socket tty_raw "deptyr" [opt_V] ["ls"%string]
           w_attacher 4 (ok 0) (ok 0) [] "/dev/pts/3" []);
    try reflexivity; try (simpl; lia).
  - repeat constructor.
  - discriminate.
Defined.

(** Three bytes written in a short write, an interrupted one and a last
    one. *)
Lemma writeall_correct_witness :
  exists evs,
    trace (world_of (writeall 5 [x61; x62; x63] 3 w_short_writes)) =
      trace w_short_writes ++ evs /\
    resumes 5 (firstn (Z.to_nat 3) [x61; x62; x63]) evs /\
    match writeall 5 [x61; x62; x63] 3 w_short_writes with
    | Val rv _ =>
        writeall_outcome 5 (firstn (Z.to_nat 3) [x61; x62; x63]) evs (Some rv)
    | Halt h w' =>
        h = Blocked /\ q_write w' = [] /\
        writeall_outcome 5 (firstn (Z.to_nat 3) [x61; x62; x63]) evs None
    end.
Proof.
  apply (writeall_correct 5 [x61; x62; x63] 3 w_short_writes). simpl. lia.
Defined.


(** Both open calls fail, and so does every dup2 and close after them. *)
Lemma redirect_failures_unchecked_witness :
  exists w',
    redirect_and_exec 4 "/dev/pts/3" ["ls"%string] w_redirect_fails =
      Halt Replaced w' /\
    trace w' =
      trace w_redirect_fails ++
      [ev_call (c_setenv "REPTYR_PTY" "/dev/pts/3") (ok 0);
       ev_call c_setpgid_0_getppid (ok 0);
       ev_call c_setsid (ok 0);
       ev_call (c_open "/dev/pts/3" O_RDONLY) (fail ENOENT);
       ev_call (c_dup2 (-1) 0) (fail EBADF);
       ev_call (c_close (-1)) (fail EBADF);
       ev_call (c_open "/dev/pts/3" O_WRONLY) (fail ENOENT);
       ev_call (c_dup2 (-1) 1) (fail EBADF);
       ev_call (c_dup2 (-1) 2) (fail EBADF);
       ev_call (c_close (-1)) (fail EBADF);
       ev_call (c_close 4) (ok 0);
       ev_call (c_execvp ["ls"%string]) (ok 0)] ++ [].
Proof.
  apply (redirect_failures_unchecked 4 "/dev/pts/3" ["ls"%string]
           w_redirect_fails (ok 0) (ok 0) (ok 0) (fail ENOENT) (fail EBADF)
           (fail EBADF) (fail ENOENT) (fail EBADF) (fail EBADF) (fail EBADF)
           (ok 0) (ok 0) []).
  reflexivity.
Defined.

(** End of file on the pseudo-terminal: the branch, the pass, the run of
    [do_proxy] in the head session of [w_head_listening], and that session
    with the accept that follows it. *)
Lemma pty_eof_ends_session_witness :
  (exists w1,
     proxy_pty 5 [5] buf0 w_pty_eof = Val (Return tt) w1 /\
     trace w1 = trace w_pty_eof ++ [ev_read 5 sizeof_buf (ok [])])
  /\
  (exists w2,
     proxy_body (false, ok [5]) 5 buf0 (set_q_pselect [] w_pty_eof)
       = Val (Return tt) w2 /\
     proxy_loop [(false, ok [5])] 5 buf0 w_pty_eof = Val tt w2 /\
     q_pselect w2 = [] /\
     trace w2 =
       trace w_pty_eof ++
       [ev_pselect (5 + 1) [0; 5] false (ok [5]);
        ev_read 5 sizeof_buf (ok [])])
  /\
  (exists w' evs,
     do_proxy 5 w_proxy_pty_eof = Val tt w' /\
     q_pselect w' = [(false, ok [0])] /\
     trace w' =
       trace w_proxy_pty_eof ++
       ev_call c_sigprocmask_block_SIGWINCH (ok 0) ::
       ev_call c_sigaction_SIGWINCH_do_winch (ok 0) ::
       ev_ioctl_TIOCGWINSZ 0 (fail ENOTTY) :: evs ++
       [ev_pselect (5 + 1) [0; 5] false (ok [5]);
        ev_read 5 sizeof_buf (ok [])])
  /\
  (exists w2, do_proxy 5 w_head_raw = Val tt w2)
  /\
  (do_proxy 5 w_head_raw = Val tt w_head_done /\
   exists w3 evs,
     session tty_raw 7 None w_head_accepted = Val (Some 10) w3 /\
     trace w3 =
       trace w_head_done ++
       [ev_tcsetattr 0 (Some 10) (ok tt); ev_call (c_close 5) (ok 0)] /\
     trace (world_of (head_loop tty_raw [ok 7; fail EBADF] (Some 3) None
                        w_head_listening)) =
       trace w3 ++ ev_call (c_accept 3) (fail EBADF) :: evs).
Proof.
  assert (Hfd : in_fd_set 5) by (unfold in_fd_set, FD_SETSIZE; lia).
  assert (Hne : 5 <> 0) by lia.
  destruct (pty_eof_ends_session tty_raw 5 (ok []) Hfd Hne eq_refl)
    as (H1 & H2 & H2' & H3 & H4).
  split; [|split; [|split; [|split]]].
  - apply (H1 [5] buf0 w_pty_eof []); reflexivity.
  - apply (H2 false [5] [] buf0 w_pty_eof w_pty_eof []); reflexivity.
  - apply (H2' w_proxy_pty_eof (ok 0) (ok 0) (fail EBADF) [] (fail ENOTTY) []
             false [5] [(false, ok [0])] [ok [x61]]);
      try reflexivity. discriminate.
  - apply (H3 w_head_raw
             [ev_call c_sigprocmask_block_SIGWINCH (ok 0);
              ev_call c_sigaction_SIGWINCH_do_winch (ok 0);
              ev_ioctl_TIOCGWINSZ 0 (ok sz_24x132);
              ev_call (c_ioctl_TIOCSWINSZ 5 sz_24x132) (ok 0);
              ev_pselect 6 [0; 5] false (ok [5]);
              ev_read 5 4096 (ok [x68; x69]);
              ev_write 1 [x68; x69] (ok 2);
              ev_pselect 6 [0; 5] false (ok [5])] 4096 []).
    vm_compute. reflexivity.
  - destruct (H4 3 7 None (Some 10) w_head_listening w_head_raw (fail EBADF)
                [] (ok 0) [ok 0; ok 0; ok 0; ok 0]
                [ev_call c_sigprocmask_block_SIGWINCH (ok 0);
                 ev_call c_sigaction_SIGWINCH_do_winch (ok 0);
                 ev_ioctl_TIOCGWINSZ 0 (ok sz_24x132);
                 ev_call (c_ioctl_TIOCSWINSZ 5 sz_24x132) (ok 0);
                 ev_pselect 6 [0; 5] false (ok [5]);
                 ev_read 5 4096 (ok [x68; x69]);
                 ev_write 1 [x68; x69] (ok 2);
                 ev_pselect 6 [0; 5] false (ok [5])] 4096)
      as (w2 & E2 & H).
    + lia.
    + reflexivity.
    + simpl. lia.
    + vm_compute. reflexivity.
    + vm_compute. reflexivity.
    + assert (Ew : w2 = w_head_done).
      { unfold w_head_done. rewrite E2. reflexivity. }
      subst w2. split; [exact E2|].
      apply (H [] (ok 0) []); vm_compute; reflexivity.
Defined.

End Runs.

(** * The further properties on concrete runs *)

Section MoreRuns.

Import Byte.
Import Scenario.

(** Raw mode is entered on the terminal whose attributes are 10. *)
Lemma setup_raw_snapshot_witness :
  exists w',
    setup_raw tty_raw None w_session = Val (Some 10) w' /\
    trace w' =
      trace w_session ++
      [ev_tcgetattr 0 (ok 10); ev_tcsetattr 0 (Some (tty_raw 10)) (ok tt)] ++
      [].
Proof.
  apply (setup_raw_snapshot tty_raw None w_session 10 [] (ok tt)
           [fail EINTR; ok tt]); reflexivity.
Defined.

(** The size 24x132 is copied, and setting it fails unnoticed. *)
Lemma resize_pty_copies_size_witness :
  exists w',
    resize_pty 5 w_winsz_ok = Val tt w' /\
    trace w' =
      trace w_winsz_ok ++
      [ev_ioctl_TIOCGWINSZ 0 (ok sz_24x132);
       ev_call (c_ioctl_TIOCSWINSZ 5 sz_24x132) (fail EBADF)].
Proof.
  apply (resize_pty_copies_size 5 w_winsz_ok sz_24x132 [] (fail EBADF) []);
    reflexivity.
Defined.

(** A negative count. *)
Lemma writeall_nothing_to_write_witness :
  writeall 5 [x61] (-1) w_short_writes = Val 0 w_short_writes.
Proof.
  apply (writeall_nothing_to_write 5 [x61] (-1) w_short_writes). lia.
Defined.

(** Three bytes and three answers that take 1, 5 and 1 bytes. *)
Lemma writeall_finishes_witness :
  exists w', writeall 5 [x61; x62; x63] 3 w_eager_writes = Val 0 w'.
Proof.
  apply (writeall_finishes 5 [x61; x62; x63] 3 w_eager_writes).
  - repeat constructor; eexists; (split; [reflexivity|lia]).
  - simpl. lia.
Defined.

(** sigprocmask fails with EINVAL. *)
Lemma do_proxy_sigprocmask_failure_witness :
  exists w',
    do_proxy 5 w_sigprocmask_fails = Val tt w' /\
    trace w' =
      trace w_sigprocmask_fails ++
      [ev_call c_sigprocmask_block_SIGWINCH (fail EINVAL);
       ev_stderr "sigprocmask: %m" []].
Proof.
  apply (do_proxy_sigprocmask_failure 5 w_sigprocmask_fails (fail EINVAL) []);
    reflexivity.
Defined.

(** Both descriptors are ready and the read on standard input fails. *)
Lemma stdin_read_error_ends_loop_witness :
  exists w',
    proxy_body (false, ok [0; 5]) 5 buf0 w_stdin_error = Val (Return tt) w' /\
    trace w' =
      trace w_stdin_error ++
      [ev_pselect (5 + 1) [0; 5] false (ok [0; 5]);
       ev_read 0 sizeof_buf (fail EIO)].
Proof.
  apply (stdin_read_error_ends_loop false [0; 5] 5 buf0 w_stdin_error EIO []);
    [unfold in_fd_set, FD_SETSIZE; lia|reflexivity|reflexivity].
Defined.

(** pselect fails with EBADF. *)
Lemma pselect_failure_witness :
  exists w',
    proxy_body (false, fail EBADF) 5 buf0 w_stdin_error =
      Val (if EBADF =? EINTR then Next buf0 else Return tt) w' /\
    trace w' =
      trace w_stdin_error ++
      ev_pselect (5 + 1) [0; 5] false (fail EBADF) ::
      (if EBADF =? EINTR then [] else [ev_stderr "select: %m" []]) /\
    winch_happened w' = false || winch_happened w_stdin_error.
Proof.
  apply (pselect_failure false EBADF 5 buf0 w_stdin_error).
  unfold in_fd_set, FD_SETSIZE. lia.
Defined.

(** One SIGWINCH during the wait. *)
Lemma winch_interrupt_resizes_witness :
  exists w1 w2,
    proxy_loop [(true, fail EINTR)] 5 buf0 w_winsz_ok =
      proxy_loop [] 5 buf0 w1 /\
    winch_happened w1 = true /\
    proxy_winch 5 w1 = Val tt w2 /\
    winch_happened w2 = false /\
    proxy_winch 5 w2 = Val tt w2 /\
    trace w2 =
      trace w_winsz_ok ++
      [ev_pselect (5 + 1) [0; 5] true (fail EINTR);
       ev_ioctl_TIOCGWINSZ 0 (ok sz_24x132);
       ev_call (c_ioctl_TIOCSWINSZ 5 sz_24x132) (fail EBADF)].
Proof.
  apply (winch_interrupt_resizes 5 buf0 w_winsz_ok [] sz_24x132 []
           (fail EBADF) []);
    [unfold in_fd_set, FD_SETSIZE; lia|reflexivity|reflexivity|reflexivity].
Defined.

(** "hi" from the pseudo-terminal. *)
Lemma proxy_pty_relays_witness :
  let data := firstn (Z.to_nat sizeof_buf) [x68; x69] in
  exists evs,
    trace (world_of (proxy_pty 5 [5] buf0 w_pty_hi)) =
      trace w_pty_hi ++ ev_read 5 sizeof_buf (ok data) :: evs /\
    resumes 1 data evs /\
    match proxy_pty 5 [5] buf0 w_pty_hi with
    | Val (Next buf1) _ =>
        firstn (length data) buf1 = data /\
        exists rv, writeall_outcome 1 data evs (Some rv)
    | Val (Return _) _ => False
    | Halt h w' =>
        h = Blocked /\ q_write w' = [] /\ writeall_outcome 1 data evs None
    end.
Proof.
  apply (proxy_pty_relays 5 [5] buf0 w_pty_hi [x68; x69] []);
    [reflexivity|reflexivity|discriminate].
Defined.


(** The calls of that run. *)
Lemma do_proxy_calls_witness :
  exists evs,
    trace (world_of (do_proxy 5 w_relay)) = trace w_relay ++ evs /\
    Forall (fun e => proxy_event 5 e = true) evs /\
    forall h w', do_proxy 5 w_relay = Halt h w' -> h = Blocked.
Proof.
  apply (do_proxy_calls 5 w_relay). unfold in_fd_set, FD_SETSIZE. lia.
Defined.


(** [deptyr -H a -V -s b]. *)
Lemma option_loop_selects_mode_witness :
  exists w',
    getopt_loop "deptyr" [opt_H "a"; opt_V; opt_s "b"] None false
      w_two_sockets =
      Val (Next (socket_after [ok 3; ok 4] None,
                 existsb is_opt_H [opt_H "a"; opt_V; opt_s "b"])) w' /\
    q_int w' = [ok 9] /\
    trace w' =
      trace w_two_sockets ++
      option_calls [opt_H "a"; opt_V; opt_s "b"] [ok 3; ok 4].
Proof.
  apply (option_loop_selects_mode "deptyr" [opt_H "a"; opt_V; opt_s "b"]
           [ok 3; ok 4] w_two_sockets [ok 9]); reflexivity.
Defined.

(** [deptyr -V -s b]. *)
Lemma main_no_command_witness :
  exists w',
    main tty_raw "deptyr" [opt_V; opt_s "b"] [] w_connected = Val 1 w' /\
    q_int w' = [] /\
    trace w' =
      trace w_connected ++ option_calls [opt_V; opt_s "b"] [ok 4] ++
      ev_stderr "%s: No command specified\n" ["deptyr"%string]
      :: usage_lines "deptyr".
Proof.
  apply (main_no_command tty_raw "deptyr" [opt_V; opt_s "b"] [ok 4]
           w_connected []); reflexivity.
Defined.

(** [deptyr -H a ls]. *)
Lemma head_mode_ignores_command_witness :
  main tty_raw "deptyr" [opt_H "a"] ["ls"%string] w_head =
  main tty_raw "deptyr" [opt_H "a"] [] w_head.
Proof.
  apply (head_mode_ignores_command tty_raw "deptyr" [opt_H "a"]
           ["ls"%string] w_head). reflexivity.
Defined.


(** [deptyr -V ls] reads the unset socket. *)
Lemma unset_socket_needs_no_socket_option_witness :
  Forall (fun o => o = opt_V) [opt_V].
Proof.
  apply (unset_socket_needs_no_socket_option tty_raw "deptyr" [opt_V]
           ["ls"%string] w_attacher
           (world_of (main tty_raw "deptyr" [opt_V] ["ls"%string]
                        w_attacher))).
  vm_compute. reflexivity.
Defined.

Lemma session_without_descriptor_dies_witness :
  exists w',
    session tty_raw 7 None w_recv_fails =
      Halt (Died "Oof, didn't get a child FD: %m") w' /\
    trace w' =
      trace w_recv_fails ++
      [ev_call (c_recv_file_descriptor 7) (fail EBADF);
       ev_stderr "[!] Oof, didn't get a child FD: %m" []].
Proof.
  apply (session_without_descriptor_dies tty_raw 7 None w_recv_fails
           (fail EBADF) []); [reflexivity|simpl; lia].
Defined.

Lemma session_close_failure_dies_witness :
  exists w',
    session tty_raw 7 None w_close_fails = Halt (Died "close: %m") w' /\
    trace w' =
      trace w_close_fails ++
      [ev_call (c_recv_file_descriptor 7) (ok 5);
       ev_call (c_close 7) (fail EIO);
       ev_stderr "[!] close: %m" []].
Proof.
  apply (session_close_failure_dies tty_raw 7 None w_close_fails (ok 5)
           (fail EIO) []); [reflexivity|simpl; lia|simpl; lia].
Defined.

(** accept fails with EBADF while a connection is still to come. *)
Lemma accept_failure_dies_witness :
  exists w',
    head_loop tty_raw [fail EBADF; ok 7] (Some 3) None w_recv_fails =
      Halt (Died "accept: %m") w' /\
    trace w' =
      trace w_recv_fails ++
      [ev_call (c_accept 3) (fail EBADF); ev_stderr "[!] accept: %m" []] /\
    q_accept w' = [ok 7].
Proof.
  apply (accept_failure_dies tty_raw 3 (fail EBADF) [ok 7] None w_recv_fails).
  simpl. lia.
Defined.

(** unlockpt fails, without any socket. *)
Lemma attacher_allocation_failure_witness :
  exists w',
    attacher None ["ls"%string] w_unlockpt_fails =
      Halt (Died (if returned (ok 4) <? 0
                  then "Unable to allocate a new pseudo-terminal: %m"
                  else if returned (fail EIO) <? 0
                       then "Unable to unlockpt: %m"
                       else "Unable to grantpt: %m")) w' /\
    trace w' =
      trace w_unlockpt_fails ++
      ev_call c_get_pt (ok 4) ::
      (if returned (ok 4) <? 0
       then [ev_stderr "[!] Unable to allocate a new pseudo-terminal: %m" []]
       else
         ev_call (c_unlockpt (returned (ok 4))) (fail EIO) ::
         (if returned (fail EIO) <? 0
          then [ev_stderr "[!] Unable to unlockpt: %m" []]
          else [ev_call (c_grantpt (returned (ok 4))) (ok 0);
                ev_stderr "[!] Unable to grantpt: %m" []])).
Proof.
  apply (attacher_allocation_failure None ["ls"%string] w_unlockpt_fails
           (ok 4) (fail EIO) (ok 0) []); [reflexivity|].
  right. left. simpl. lia.
Defined.

Lemma attacher_send_failure_witness :
  exists w',
    attacher (Some 3) ["ls"%string] w_send_fails =
      Halt (Died "Unable to send the master handle: %m") w' /\
    trace w' =
      trace w_send_fails ++
      [ev_call c_get_pt (ok 4);
       ev_call (c_unlockpt 4) (ok 0);
       ev_call (c_grantpt 4) (ok 0);
       ev_ptsname_r 4 "/dev/pts/3";
       ev_stdout "Opened a new pty: %s\n" ["/dev/pts/3"%string];
       ev_call (c_send_file_descriptor 3 4) (fail EIO);
       ev_stderr "[!] Unable to send the master handle: %m" []].
Proof.
  apply (attacher_send_failure 3 ["ls"%string] w_send_fails (ok 4) (ok 0)
           (ok 0) (fail EIO) [] "/dev/pts/3" []);
    try reflexivity; simpl; lia.
Defined.

(** A full attach whose command does not exist. *)
Lemma attacher_run_witness :
  exists w',
    attacher (Some 3) ["ls"%string] w_attach =
      Halt (Died "execvp failed: %m") w' /\
    trace w' =
      trace w_attach ++
      [ev_call c_get_pt (ok 4);
       ev_call (c_unlockpt 4) (ok 0);
       ev_call (c_grantpt 4) (ok 0);
       ev_ptsname_r 4 "/dev/pts/3";
       ev_stdout "Opened a new pty: %s\n" ["/dev/pts/3"%string];
       ev_call (c_send_file_descriptor 3 4) (ok 0);
       ev_call (c_setenv "REPTYR_PTY" "/dev/pts/3") (ok 0);
       ev_call c_setpgid_0_getppid (ok 0);
       ev_call c_setsid (ok 0);
       ev_call (c_open "/dev/pts/3" O_RDONLY) (ok 6);
       ev_call (c_dup2 6 0) (ok 0);
       ev_call (c_close 6) (ok 0);
       ev_call (c_open "/dev/pts/3" O_WRONLY) (ok 6);
       ev_call (c_dup2 6 1) (ok 1);
       ev_call (c_dup2 6 2) (ok 2);
       ev_call (c_close 6) (ok 0);
       ev_call (c_close 4) (ok 0);
       ev_call (c_execvp ["ls"%string]) (fail ENOENT)] ++
      [ev_stderr "[!] execvp failed: %m" []].
Proof.
  apply (attacher_run 3 ["ls"%string] w_attach (ok 4) (ok 0) (ok 0) (ok 0)
           "/dev/pts/3" [] (ok 0) (ok 0) (ok 0) (ok 6) (ok 0) (ok 0) (ok 6)
           (ok 1) (ok 2) (ok 0) (ok 0) (fail ENOENT) []);
    try reflexivity; simpl; lia.
Defined.

(** A later session whose standard input is no terminal any more: the
    snapshot of an earlier session is restored. *)
Lemma restore_without_snapshot_witness :
  exists w1 mid,
    setup_raw tty_raw (Some 10) w_session_hi_notty = Val (Some 10) w1 /\
    Forall (fun e => is_tcsetattr e = false) mid /\
    let ran :=
      trace w_session_hi_notty ++
      [ev_tcgetattr 0 (fail ENOTTY);
       ev_stderr "Unable to read terminal attributes: %m" []] ++
      mid in
    match do_proxy 5 w1 with
    | Halt h w2 =>
        h = Blocked /\ starved w2 /\ trace w2 = ran /\
        proxy_session tty_raw 5 (Some 10) w_session_hi_notty = Halt Blocked w2
    | Val _ w2 =>
        trace w2 = ran /\
        q_tcsetattr w2 = q_tcsetattr w_session_hi_notty /\
        exists k,
          match proxy_session tty_raw 5 (Some 10) w_session_hi_notty with
          | Val saved1 w' =>
              saved1 = Some 10 /\
              (exists rest,
                 q_tcsetattr w_session_hi_notty =
                 repeat (fail EINTR) k ++ ok tt :: rest) /\
              exists rc,
                trace w' =
                  ran ++ interrupted (Some 10) k ++
                  [ev_tcsetattr 0 (Some 10) (ok tt); ev_call (c_close 5) rc]
          | Halt (Died msg) w' =>
              msg = "Unable to tcsetattr: %m"%string /\
              exists e' rest,
                e' <> EINTR /\
                q_tcsetattr w_session_hi_notty =
                repeat (fail EINTR) k ++ fail e' :: rest /\
                trace w' =
                  ran ++ interrupted (Some 10) k ++
                  [ev_tcsetattr 0 (Some 10) (fail e');
                   ev_stderr "[!] Unable to tcsetattr: %m" []]
          | Halt Blocked w' =>
              (q_tcsetattr w_session_hi_notty = repeat (fail EINTR) k /\
               trace w' = ran ++ interrupted (Some 10) k)
              \/
              (q_int w' = [] /\
               (exists rest,
                  q_tcsetattr w_session_hi_notty =
                  repeat (fail EINTR) k ++ ok tt :: rest) /\
               trace w' =
                 ran ++ interrupted (Some 10) k ++
                 [ev_tcsetattr 0 (Some 10) (ok tt)])
          | Halt _ _ => False
          end
    end.
Proof.
  apply (restore_without_snapshot tty_raw 5 (Some 10) w_session_hi_notty
           ENOTTY []);
    [unfold in_fd_set, FD_SETSIZE; lia|reflexivity].
Defined.

Lemma do_proxy_setup_witness :
  exists w4,
    do_proxy 5 w_proxy_write_fails =
      proxy_loop (q_pselect w_proxy_write_fails) 5 buf0 w4 /\
    winch_happened w4 = winch_happened w_proxy_write_fails /\
    q_pselect w4 = q_pselect w_proxy_write_fails /\
    trace w4 =
      trace w_proxy_write_fails ++
      [ev_call c_sigprocmask_block_SIGWINCH (ok 0);
       ev_call c_sigaction_SIGWINCH_do_winch (ok 0);
       ev_ioctl_TIOCGWINSZ 0 (ok sz_24x132);
       ev_call (c_ioctl_TIOCSWINSZ 5 sz_24x132) (ok 0)].
Proof.
  apply (do_proxy_setup 5 w_proxy_write_fails (ok 0) (ok 0) (ok 0) []
           sz_24x132 []); [reflexivity|discriminate|reflexivity].
Defined.

End MoreRuns.
